(** * Film/TV explorer: the resilient TMDB client and its tool adapters

    A shallow embedding of [src/mcp_server/api_client.py] and
    [src/mcp_server/tools.py], and the properties of the dispatcher
    (cache, rate window, retry loop) and of the adapters' normalisation;
    then of [src/mcp_server/health.py] and the tool endpoints of
    [src/mcp_server/http_server.py] that call the adapters.

    Conventions of the embedding:
    - a Python [str] is a [string] whose characters are code points below
      256; a Python [int] is a [Z]; a Python [float] is the rational it
      denotes ([Q]), so [time.time()] and sleeps are exact;
    - a Python [dict] is an association list in insertion order with
      unique keys; the response cache is a [gmap] over fingerprints;
    - coroutines are state-passing functions over [State] that return a
      [result]: a value or the exception raised;
    - inputs are of ordinary size: a text given to [int()] has at most
      4300 digits, a delay given to [asyncio.sleep] is within the range
      of a [float], and a JSON body is nested less deep than the
      interpreter's recursion limit. *)

From Stdlib Require Import ZArith QArith Qminmax Lqa String Ascii List.
From Stdlib Require Import DecimalString DecimalPos DecimalZ.
From stdpp Require Import gmap strings list sorting.

Open Scope string_scope.

(** ** Python runtime: the builtins the client relies on *)
Module Py.

(** Exceptions that reach or leave the client. [InvalidArguments e] and
    [ApiError e] are the two [ValueError]s the tool adapters build from a
    caught exception [e] (texts [Invalid arguments: {e}] and
    [API error: {e}]); [BadIntLiteral] is the [ValueError] of [int()] and
    [JSONDecodeError] is a subclass of [ValueError]. *)
Inductive exn : Type :=
| ValueError (msg : string)
| BadIntLiteral (text : string)
| JSONDecodeError
| InvalidArguments (cause : exn)
| ApiError (cause : exn)
| RateLimitError (msg : string)
| HTTPStatusError (status : Z)
| RequestError
| KeyError (key : string)
| IndexError
| TypeError
| AttributeError.

(** [isinstance(e, ValueError)] *)
Definition is_ValueError (e : exn) : bool :=
  match e with
  | ValueError _ | BadIntLiteral _ | JSONDecodeError
  | InvalidArguments _ | ApiError _ => true
  | _ => false
  end.

(** [str(e) == "TITLE_NOT_FOUND"] for a caught [ValueError]: only the
    client's own sentinel has that text. *)
Definition is_title_not_found (e : exn) : bool :=
  match e with
  | ValueError msg => String.eqb msg "TITLE_NOT_FOUND"
  | _ => false
  end.

Inductive result (A : Type) : Type :=
| Ok (a : A)
| Raise (e : exn).
Arguments Ok {A} a.
Arguments Raise {A} e.

Definition rbind {A B} (r : result A) (k : A -> result B) : result B :=
  match r with
  | Ok a => k a
  | Raise e => Raise e
  end.

(** *** Characters *)
Definition code (c : ascii) : N := N_of_ascii c.
Definition squote : ascii := "039"%char.
Definition dquote : ascii := "034"%char.
Definition backslash : ascii := "092"%char.

Definition is_digit (c : ascii) : bool :=
  (48 <=? code c)%N && (code c <=? 57)%N.

(** [Py_UNICODE_ISPRINTABLE] on code points below 256. *)
Definition is_printable (c : ascii) : bool :=
  let n := code c in
  ((32 <=? n) && (n <? 127) || (161 <=? n) && negb (n =? 173))%N.

Definition hex_digit (n : N) : ascii :=
  match n with
  | 0 => "0" | 1 => "1" | 2 => "2" | 3 => "3" | 4 => "4" | 5 => "5"
  | 6 => "6" | 7 => "7" | 8 => "8" | 9 => "9" | 10 => "a" | 11 => "b"
  | 12 => "c" | 13 => "d" | 14 => "e" | _ => "f"
  end%N%char.

(** *** [repr] of a [str] *)
Fixpoint has_char (c : ascii) (s : string) : bool :=
  match s with
  | EmptyString => false
  | String d s' => Ascii.eqb c d || has_char c s'
  end.

(** Double quotes only when the text has a single quote and no double
    quote. *)
Definition pick_quote (s : string) : ascii :=
  if has_char squote s && negb (has_char dquote s) then dquote else squote.

Definition escape_char (q c : ascii) : string :=
  if Ascii.eqb c q || Ascii.eqb c backslash then String backslash (String c "")
  else if (code c =? 9)%N then String backslash "t"
  else if (code c =? 10)%N then String backslash "n"
  else if (code c =? 13)%N then String backslash "r"
  else if is_printable c then String c ""
  else String backslash
         (String "x" (String (hex_digit (code c / 16))
                        (String (hex_digit (code c mod 16)) ""))).

Fixpoint repr_body (q : ascii) (s : string) : string :=
  match s with
  | EmptyString => ""
  | String c s' => escape_char q c +:+ repr_body q s'
  end.

Definition repr_str (s : string) : string :=
  let q := pick_quote s in
  String q (repr_body q s +:+ String q "").

(** *** [repr] / [str] of an [int] *)
Definition repr_int (z : Z) : string := NilZero.string_of_int (Z.to_int z).

(** *** [int(text)] in base 10

    Surrounding whitespace is dropped, one sign is allowed, and the
    digits may be separated by single underscores. Texts are taken to be
    of ordinary length: from 4301 digits on, CPython 3.11 refuses the
    conversion with a [ValueError] for any text. *)
Definition is_space (c : ascii) : bool :=
  let n := code c in
  ((9 <=? n) && (n <=? 13) || (n =? 32) || (n =? 133) || (n =? 160))%N.

Fixpoint lstrip (s : string) : string :=
  match s with
  | String c s' => if is_space c then lstrip s' else s
  | EmptyString => ""
  end.

Definition strip (s : string) : string :=
  String.rev (lstrip (String.rev (lstrip s))).

(** [digits acc prev_digit s]: the value of a digit run; an underscore
    must sit between two digits. *)
Fixpoint digits (acc : Z) (prev_digit : bool) (s : string) : option Z :=
  match s with
  | EmptyString => if prev_digit then Some acc else None
  | String c s' =>
      if is_digit c
      then digits (10 * acc + Z.of_N (code c - 48)) true s'
      else if Ascii.eqb c "_" && prev_digit
           then match s' with
                | String d _ =>
                    if is_digit d then digits acc false s' else None
                | EmptyString => None
                end
           else None
  end.

Definition int_of_str (s : string) : result Z :=
  let body := strip s in
  let parsed :=
    match body with
    | String "-" s' => option_map Z.opp (digits 0 false s')
    | String "+" s' => digits 0 false s'
    | _ => digits 0 false body
    end in
  match parsed with
  | Some z => Ok z
  | None => Raise (BadIntLiteral s)
  end.

(** [int(x)] of a [float]: truncation towards zero. *)
Definition int_of_float (q : Q) : Z := Z.quot (Qnum q) (Zpos (Qden q)).

(** [s.lower()] on code points below 256. *)
Definition lower_char (c : ascii) : ascii :=
  let n := code c in
  if ((65 <=? n) && (n <=? 90)
      || (192 <=? n) && (n <=? 222) && negb (n =? 215))%N
  then ascii_of_N (n + 32) else c.

Fixpoint lower (s : string) : string :=
  match s with
  | EmptyString => ""
  | String c s' => String (lower_char c) (lower s')
  end.

(** [sep.join(parts)] *)
Fixpoint join (sep : string) (parts : list string) : string :=
  match parts with
  | [] => ""
  | [p] => p
  | p :: rest => p +:+ sep +:+ join sep rest
  end.

(** [s[:n]] *)
Definition str_prefix (n : nat) (s : string) : string := String.substring 0 n s.

(** *** Values decoded from JSON

    [response.json()] yields [None], [bool], [int], [float], [str],
    [list] and [dict] objects; the tool adapters build their outputs from
    the same kinds of objects. A [float] is a finite one, given by its
    value. *)
#[warnings="-register-all"] Inductive json : Type :=
| JNull
| JBool (b : bool)
| JInt (z : Z)
| JFloat (q : Q)
| JStr (s : string)
| JArr (items : list json)
| JObj (fields : list (string * json)).

(** [repr(x)] of a [float] is the shortest decimal text that reads back
    as the same double; it belongs to the interpreter and is taken as
    given. *)
Class FloatRepr := float_repr : Q -> string.

(** [bool(x)] *)
Definition truthy (x : json) : bool :=
  match x with
  | JNull => false
  | JBool b => b
  | JInt z => negb (z =? 0)%Z
  | JFloat q => negb (Qeq_bool q 0)
  | JStr s => negb (String.eqb s "")
  | JArr l => match l with [] => false | _ => true end
  | JObj f => match f with [] => false | _ => true end
  end.

(** [a or b] *)
Definition por (a b : json) : json := if truthy a then a else b.

Fixpoint assoc {V} (k : string) (d : list (string * V)) : option V :=
  match d with
  | [] => None
  | (k', v) :: d' => if String.eqb k k' then Some v else assoc k d'
  end.

(** [d[k] = v] on a [dict]: an existing key keeps its position. *)
Fixpoint dict_set {V} (k : string) (v : V) (d : list (string * V))
  : list (string * V) :=
  match d with
  | [] => [(k, v)]
  | (k', v') :: d' =>
      if String.eqb k k' then (k, v) :: d' else (k', v') :: dict_set k v d'
  end.

(** [x.get(k, default)] *)
Definition get (x : json) (k : string) (default : json) : result json :=
  match x with
  | JObj f => Ok (match assoc k f with Some v => v | None => default end)
  | _ => Raise AttributeError
  end.

(** [x[k]] with a [str] subscript *)
Definition subscript (x : json) (k : string) : result json :=
  match x with
  | JObj f => match assoc k f with Some v => Ok v | None => Raise (KeyError k) end
  | _ => Raise TypeError
  end.

(** [len(x)] *)
Definition len (x : json) : result nat :=
  match x with
  | JStr s => Ok (String.length s)
  | JArr l => Ok (List.length l)
  | JObj f => Ok (List.length f)
  | _ => Raise TypeError
  end.

(** [x[:n]]; a [dict] cannot be sliced. *)
Definition slice_prefix (n : nat) (x : json) : result json :=
  match x with
  | JStr s => Ok (JStr (str_prefix n s))
  | JArr l => Ok (JArr (firstn n l))
  | _ => Raise TypeError
  end.

(** [int(x)] *)
Definition int_of (x : json) : result Z :=
  match x with
  | JStr s => int_of_str s
  | JInt z => Ok z
  | JBool b => Ok (if b then 1 else 0)%Z
  | JFloat q => Ok (int_of_float q)
  | _ => Raise TypeError
  end.

Fixpoint chars (s : string) : list json :=
  match s with
  | EmptyString => []
  | String c s' => JStr (String c "") :: chars s'
  end.

(** [iter(x)]: the elements a [for] loop or a comprehension visits. *)
Definition iter (x : json) : result (list json) :=
  match x with
  | JArr l => Ok l
  | JStr s => Ok (chars s)
  | JObj f => Ok (map (fun kv => JStr (fst kv)) f)
  | _ => Raise TypeError
  end.

(** Numeric value of an [int], [bool] or [float]. *)
Definition number (x : json) : option Q :=
  match x with
  | JInt z => Some (inject_Z z)
  | JBool b => Some (if b then 1 else 0)%Q
  | JFloat q => Some q
  | _ => None
  end.

Definition hashable (x : json) : bool :=
  match x with
  | JArr _ | JObj _ => false
  | _ => true
  end.

(** [x == y] on hashable values: numbers compare by value. *)
Definition eqb (x y : json) : bool :=
  match number x, number y with
  | Some a, Some b => Qeq_bool a b
  | None, None =>
      match x, y with
      | JNull, JNull => true
      | JStr s, JStr t => String.eqb s t
      | _, _ => false
      end
  | _, _ => false
  end.

(** [x >= bound] for a [float] bound *)
Definition ge_float (x : json) (bound : Q) : result bool :=
  match number x with
  | Some a => Ok (Qle_bool bound a)
  | None => Raise TypeError
  end.

(** [str(x)], [repr(x)] and the text an f-string inserts for [x]. *)
Section Text.
Context `{FloatRepr}.

Fixpoint repr (x : json) : string :=
  match x with
  | JNull => "None"
  | JBool b => if b then "True" else "False"
  | JInt z => repr_int z
  | JFloat q => float_repr q
  | JStr s => repr_str s
  | JArr l => "[" +:+ join ", " (map repr l) +:+ "]"
  | JObj f =>
      "{" +:+ join ", " (map (fun kv => repr_str (fst kv) +:+ ": " +:+ repr (snd kv)) f)
          +:+ "}"
  end.

Definition str (x : json) : string :=
  match x with
  | JStr s => s
  | _ => repr x
  end.
End Text.

(** [sep.join(parts)] where [parts] must all be [str] *)
Fixpoint strs (parts : list json) : result (list string) :=
  match parts with
  | [] => Ok []
  | JStr s :: rest => rbind (strs rest) (fun l => Ok (s :: l))
  | _ :: _ => Raise TypeError
  end.

(** [[f(x) for x in xs]] where [f] may raise *)
Fixpoint mapM {A B} (f : A -> result B) (xs : list A) : result (list B) :=
  match xs with
  | [] => Ok []
  | x :: rest =>
      rbind (f x) (fun y => rbind (mapM f rest) (fun ys => Ok (y :: ys)))
  end.

End Py.

(** ** [api_client.py]: the dispatcher *)
Module ApiClient.
Import Py.

(** A query-parameter value: the client stores only [str] and [int]
    values in a parameter [dict]. *)
Inductive param : Type :=
| PStr (s : string)
| PInt (z : Z).

Abbreviation params := (list (string * param)).

Definition repr_param (v : param) : string :=
  match v with
  | PStr s => repr_str s
  | PInt z => repr_int z
  end.

(** [repr] of a [(key, value)] tuple and [str] of a list of them. *)
Definition repr_item (kv : string * param) : string :=
  "(" +:+ repr_str (fst kv) +:+ ", " +:+ repr_param (snd kv) +:+ ")".

Definition repr_items (l : params) : string :=
  "[" +:+ join ", " (map repr_item l) +:+ "]".

(** Tuples compare on their first component first; the keys of one
    [dict] are distinct, so the key decides. *)
Definition item_le (a b : string * param) : Prop := String.le (fst a) (fst b).

#[global] Instance item_le_dec : RelDecision item_le :=
  fun a b => String.le_dec (fst a) (fst b).

(** [sorted(params.items())]: the items in increasing key order; the
    keys being distinct, every correct sort yields this list. *)
Definition sorted (d : params) : params := merge_sort item_le d.

Definition _get_cache_key (endpoint : string) (p : params) : string :=
  endpoint +:+ ":" +:+ repr_items (sorted p).

Definition MAX_RETRIES : nat := 3.
Definition INITIAL_BACKOFF : Q := 1.
Definition MAX_BACKOFF : Q := 60.
Definition RATE_LIMIT_WINDOW : nat := 40.
Definition _cache_ttl : Q := 300.

(** What [self.client.request(method, endpoint, params=params)] sends
    and what comes back: a response (status code, [Retry-After] header if
    any, body as decoded by [response.json()] or [None] when it is not
    JSON) or an [httpx.RequestError]. A body is taken to be one the
    decoder either decodes or rejects as malformed: text nested deeper
    than the interpreter's recursion limit, on which [response.json()]
    raises [RecursionError], is not represented. *)
Record Request : Type := mkRequest {
  method : string;
  endpoint : string;
  query : params
}.

Inductive reply : Type :=
| Response (status : Z) (retry_after : option string) (body : option json)
| Failure.

(** The [n]-th transport call takes some time and yields a reply. *)
Definition Transport : Type := nat -> Request -> Q * reply.

Inductive event : Type :=
| Sleep (seconds : Q)
| Send (r : Request).

(** The client object together with the clock and what the outside can
    observe: the number of transport calls and the trace of sleeps and
    sends, oldest first. *)
Record State : Type := mkState {
  api_key : string;
  request_times : list Q;
  _cache : gmap string (json * Q);
  clock : Q;
  calls : nat;
  trace : list event
}.

Definition M (A : Type) : Type := State -> result A * State.

Definition ret {A} (a : A) : M A := fun st => (Ok a, st).
Definition raise {A} (e : exn) : M A := fun st => (Raise e, st).
Definition bind {A B} (c : M A) (k : A -> M B) : M B :=
  fun st =>
    match c st with
    | (Ok a, st') => k a st'
    | (Raise e, st') => (Raise e, st')
    end.
Definition lift {A} (r : result A) : M A := fun st => (r, st).

(** [try: c except Exception as e: h(e)] *)
Definition catch {A} (c : M A) (h : exn -> M A) : M A :=
  fun st =>
    match c st with
    | (Ok a, st') => (Ok a, st')
    | (Raise e, st') => h e st'
    end.

#[global] Instance M_ret : MRet M := @ret.
#[global] Instance M_bind : MBind M := fun A B k c => bind c k.

Definition ltb (a b : Q) : bool := negb (Qle_bool b a).

(** [time.time()] *)
Definition time : M Q := fun st => (Ok (clock st), st).

(** [await asyncio.sleep(seconds)]: a delay that is not positive only
    yields. Delays are taken to be within the range of a [float]:
    [asyncio.sleep] raises [OverflowError] on an [int] it cannot convert,
    one of 309 digits or so. *)
Definition sleep (seconds : Q) : M unit :=
  fun st =>
    (Ok tt,
     mkState (api_key st) (request_times st) (_cache st)
       (if Qle_bool seconds 0 then clock st else (clock st + seconds)%Q)
       (calls st) (trace st ++ [Sleep seconds])).

Definition set_request_times (l : list Q) : M unit :=
  fun st =>
    (Ok tt, mkState (api_key st) l (_cache st) (clock st) (calls st) (trace st)).

Definition cache_put (key : string) (data : json) : M unit :=
  fun st =>
    (Ok tt,
     mkState (api_key st) (request_times st)
       (<[key := (data, clock st)]> (_cache st))
       (clock st) (calls st) (trace st)).

(** [[t for t in self.request_times if now - t < 10]] *)
Definition recent (now : Q) (times : list Q) : list Q :=
  List.filter (fun t => ltb (now - t) 10%Q) times.

Definition get_request_times : M (list Q) :=
  fun st => (Ok (request_times st), st).

Definition _check_rate_limit : M unit :=
  now ← time;
  times ← get_request_times;
  set_request_times (recent now times);;
  times ← get_request_times;
  now ← (if (RATE_LIMIT_WINDOW <=? length times)%nat
         then
           match times with
           | oldest :: _ =>
               let sleep_time := (10 - (now - oldest))%Q in
               if ltb 0 sleep_time
               then
                 sleep sleep_time;;
                 now ← time;
                 times ← get_request_times;
                 set_request_times (recent now times);;
                 ret now
               else ret now
           | [] => raise IndexError
           end
         else ret now);
  times ← get_request_times;
  set_request_times (times ++ [now]).

(** The live entry of the cache under [key], if any:
    [time.time() - timestamp < self._cache_ttl]. *)
Definition cache_lookup (key : string) (st : State) : option json :=
  match _cache st !! key with
  | Some (data, timestamp) =>
      if ltb (clock st - timestamp) _cache_ttl then Some data else None
  | None => None
  end.

(** [int(response.headers.get("Retry-After", backoff))] *)
Definition retry_delay (retry_after : option string) (backoff : Q) : result Z :=
  match retry_after with
  | Some text => int_of_str text
  | None => Ok (int_of_float backoff)
  end.

(** [response.raise_for_status()] passes exactly the 2xx codes. *)
Definition is_success (status : Z) : bool :=
  (200 <=? status)%Z && (status <? 300)%Z.

(** How one turn of the retry loop ends when it does not raise. *)
Inductive turn : Type :=
| Continue (backoff : Q)
| Return (data : json).

Section Dispatcher.
Variable transport : Transport.

Definition client_request (method endpoint : string) (p : params) : M reply :=
  fun st =>
    let req := mkRequest method endpoint p in
    let '(elapsed, r) := transport (calls st) req in
    (Ok r,
     mkState (api_key st) (request_times st) (_cache st)
       (clock st + elapsed)%Q (S (calls st)) (trace st ++ [Send req])).

(** The [except httpx.HTTPStatusError] clause. *)
Definition on_status_error (status : Z) (retry_after : option string)
    (attempt : nat) (backoff : Q) : M turn :=
  if (status =? 404)%Z then raise (ValueError "TITLE_NOT_FOUND")
  else if (status =? 429)%Z then
    if (attempt <? MAX_RETRIES - 1)%nat then
      delay ← lift (retry_delay retry_after backoff);
      sleep (inject_Z delay);;
      ret (Continue (Qmin (backoff * 2) MAX_BACKOFF))
    else raise (RateLimitError "RATE_LIMIT")
  else
    if (attempt <? MAX_RETRIES - 1)%nat then
      sleep backoff;;
      ret (Continue (Qmin (backoff * 2) MAX_BACKOFF))
    else raise (HTTPStatusError status).

(** The [except httpx.RequestError] clause. *)
Definition on_request_error (attempt : nat) (backoff : Q) : M turn :=
  if (attempt <? MAX_RETRIES - 1)%nat then
    sleep backoff;;
    ret (Continue (Qmin (backoff * 2) MAX_BACKOFF))
  else raise RequestError.

(** The body of [for attempt in range(self.MAX_RETRIES)]. *)
Definition attempt_once (method endpoint : string) (p : params)
    (use_cache : bool) (cache_key : string) (attempt : nat) (backoff : Q)
  : M turn :=
  _check_rate_limit;;
  r ← client_request method endpoint p;
  match r with
  | Response status retry_after body =>
      if (status =? 429)%Z then
        delay ← lift (retry_delay retry_after backoff);
        sleep (inject_Z delay);;
        ret (Continue backoff)
      else if is_success status then
        match body with
        | Some data =>
            (if use_cache then cache_put cache_key data else ret tt);;
            ret (Return data)
        | None => raise JSONDecodeError
        end
      else on_status_error status retry_after attempt backoff
  | Failure => on_request_error attempt backoff
  end.

(** The loop; when the range is used up the function ends without a
    [return], that is, it returns [None]. *)
Fixpoint attempts (method endpoint : string) (p : params) (use_cache : bool)
    (cache_key : string) (range : list nat) (backoff : Q) : M json :=
  match range with
  | [] => ret JNull
  | attempt :: rest =>
      t ← attempt_once method endpoint p use_cache cache_key attempt backoff;
      match t with
      | Continue backoff' =>
          attempts method endpoint p use_cache cache_key rest backoff'
      | Return data => ret data
      end
  end.

(** [params or {}] followed by [params["api_key"] = self.api_key]. *)
Definition with_api_key (p : option params) (st : State) : params :=
  dict_set "api_key" (PStr (api_key st)) (default [] p).

Definition _request (method endpoint : string) (p : option params)
    (use_cache : bool) : M json :=
  fun st =>
    let p := with_api_key p st in
    let cache_key := _get_cache_key endpoint p in
    match (if use_cache then cache_lookup cache_key st else None) with
    | Some data => (Ok data, st)
    | None =>
        attempts method endpoint p use_cache cache_key
          (seq 0 MAX_RETRIES) INITIAL_BACKOFF st
    end.

(** [type or "movie"], [if year:], [if language:] *)
Definition nonempty (s : option string) : option string :=
  match s with
  | Some t => if String.eqb t "" then None else Some t
  | None => None
  end.

Definition nonzero (z : option Z) : option Z :=
  match z with
  | Some n => if (n =? 0)%Z then None else Some n
  | None => None
  end.

Definition set_if {V} (k : string) (v : option V) (d : list (string * V))
  : list (string * V) :=
  match v with
  | Some x => dict_set k x d
  | None => d
  end.

Definition search_title (query : string) (type : option string)
    (year : option Z) (language : option string) : M json :=
  let search_type := default "movie" (nonempty type) in
  let endpoint := "/search/" +:+ search_type in
  let p := [("query", PStr query)] in
  let p := set_if "year" (PInt <$> nonzero year) p in
  let p := set_if "language" (PStr <$> nonempty language) p in
  data ← _request "GET" endpoint (Some p) true;
  lift (get data "results" (JArr [])).

Definition get_recommendations (id : Z) (type : string) : M json :=
  let endpoint := "/" +:+ type +:+ "/" +:+ repr_int id +:+ "/recommendations" in
  data ← _request "GET" endpoint None true;
  lift (get data "results" (JArr [])).

Definition get_details (id : Z) (type : string) : M json :=
  let endpoint := "/" +:+ type +:+ "/" +:+ repr_int id in
  _request "GET" endpoint None true.

(** One entry of [{g["name"].lower(): g["id"] for g in ...}]. *)
Definition genre_entry (g : json) : result (string * json) :=
  rbind (subscript g "name") (fun name =>
  match name with
  | JStr s => rbind (subscript g "id") (fun id => Ok (lower s, id))
  | _ => Raise AttributeError
  end).

Definition _get_genre_ids (type : string) (genre_names : list string)
  : M (list json) :=
  let endpoint := "/genre/" +:+ type +:+ "/list" in
  data ← _request "GET" endpoint None true;
  listed ← lift (rbind (get data "genres" (JArr [])) iter);
  entries ← lift (mapM genre_entry listed);
  let genres := fold_left (fun d kv => dict_set (fst kv) (snd kv) d) entries [] in
  ret (omap (fun name => assoc (lower name) genres) genre_names).

Section Discover.
Context `{FloatRepr}.

(** The parameters of a discover call once the genre names are resolved. *)
Definition discover_params (type : string) (genre_ids : list json)
    (year : option Z) (language sort_by : option string) : params :=
  let p := [] in
  let p := match genre_ids with
           | [] => p
           | _ => dict_set "with_genres" (PStr (join "," (map str genre_ids))) p
           end in
  let p := set_if (if String.eqb type "movie" then "primary_release_year"
                   else "first_air_date_year") (PInt <$> nonzero year) p in
  let p := set_if "with_original_language" (PStr <$> nonempty language) p in
  set_if "sort_by" (PStr <$> ((fun s => s +:+ ".desc") <$> nonempty sort_by)) p.

Definition discover (type : string) (genre : option (list string))
    (year : option Z) (language sort_by : option string) : M json :=
  let endpoint := "/discover/" +:+ type in
  genre_ids ← match genre with
              | Some (name :: names) => _get_genre_ids type (name :: names)
              | _ => ret []
              end;
  data ← _request "GET" endpoint
           (Some (discover_params type genre_ids year language sort_by)) true;
  lift (get data "results" (JArr [])).

End Discover.
End Dispatcher.

(** [TMDBClient(api_key)]: the key is [api_key or
    os.getenv("TMDB_API_KEY")], where [environ] is the value of that
    variable if it is set; a client starts with an empty log and an
    empty cache. *)
Definition __init__ (key environ : option string) : M unit :=
  fun st =>
    match (match nonempty key with Some k => Some k | None => nonempty environ end) with
    | Some k => (Ok tt, mkState k [] ∅ (clock st) (calls st) (trace st))
    | None => (Raise (ValueError "TMDB_API_KEY environment variable is required"), st)
    end.

End ApiClient.

(** ** [tools.py]: the tool adapters *)
Module Tools.
Import Py.
Import ApiClient.

(** [result.get(first) or result.get(second, fallback)] *)
Definition get_or (x : json) (first second : string) (fallback : json)
  : result json :=
  rbind (get x first JNull) (fun a =>
  if truthy a then Ok a else get x second fallback).

(** [int(release_date[:4]) if release_date and len(release_date) >= 4
    else None] *)
Definition year_of (release_date : json) : result json :=
  if truthy release_date then
    rbind (len release_date) (fun n =>
    if (4 <=? n)%nat then
      rbind (slice_prefix 4 release_date) (fun head =>
      rbind (int_of head) (fun y => Ok (JInt y)))
    else Ok JNull)
  else Ok JNull.

Definition format_title_result (r : json) (type : string) : result json :=
  rbind (get_or r "release_date" "first_air_date" (JStr "")) (fun release_date =>
  rbind (year_of release_date) (fun year =>
  rbind (subscript r "id") (fun id =>
  rbind (get_or r "title" "name" (JStr "Unknown")) (fun title =>
  rbind (get r "vote_average" (JFloat 0)) (fun rating =>
  rbind (get r "overview" (JStr "")) (fun overview =>
  rbind (get r "poster_path" JNull) (fun poster_path =>
  Ok (JObj [("id", id); ("title", title); ("type", JStr type);
            ("year", year); ("rating", rating); ("overview", overview);
            ("poster_path", poster_path)])))))))).

(** The [except] clauses of [search_title], [get_recommendations] and
    [get_details]: the sentinel and [RateLimitError] pass, every other
    exception is wrapped. *)
Definition reraise (e : exn) : exn :=
  if is_ValueError e then
    if is_title_not_found e then e else InvalidArguments e
  else
    match e with
    | RateLimitError _ => e
    | _ => ApiError e
    end.

(** The [except] clauses of [discover]: every [ValueError] is wrapped. *)
Definition reraise_discover (e : exn) : exn :=
  if is_ValueError e then InvalidArguments e
  else
    match e with
    | RateLimitError _ => e
    | _ => ApiError e
    end.

(** [[f(r) for r in results[:n]]] *)
Definition format_first (n : nat) (f : json -> result json) (results : json)
  : result json :=
  rbind (slice_prefix n results) (fun page =>
  rbind (iter page) (fun rs =>
  rbind (mapM f rs) (fun formatted => Ok (JArr formatted)))).

(** [[x[item_key] for x in details.get(list_key, [])]] *)
Definition pluck (details : json) (list_key item_key : string)
  : result (list json) :=
  rbind (get details list_key (JArr [])) (fun listed =>
  rbind (iter listed) (fun xs => mapM (fun x => subscript x item_key) xs)).

(** [set(xs)]: every element has to be hashable. *)
Definition to_set (xs : list json) : result (list json) :=
  if forallb hashable xs then Ok xs else Raise TypeError.

(** [x in s] *)
Definition member (x : json) (s : list json) : bool := existsb (eqb x) s.

(** [set(original_genre_ids) & set(r_genre_ids)] *)
Definition common_ids (original_genre_ids : list json) (r_genre_ids : json)
  : result (list json) :=
  rbind (to_set original_genre_ids) (fun a =>
  rbind (rbind (iter r_genre_ids) to_set) (fun b =>
  Ok (List.filter (fun x => member x b) a))).

(** [[g["name"] for g in details.get("genres", []) if g["id"] in common]] *)
Definition common_names (details : json) (common : list json)
  : result (list json) :=
  rbind (get details "genres" (JArr [])) (fun genres =>
  rbind (iter genres) (fun gs =>
  rbind (mapM (fun g =>
           rbind (subscript g "id") (fun id =>
           if member id common
           then rbind (subscript g "name") (fun name => Ok [name])
           else Ok [])) gs) (fun picked => Ok (concat picked)))).

(** The first entry of [reason_parts], if any. *)
Definition shared_part (details r : json) : result (list string) :=
  rbind (get r "genre_ids" (JArr [])) (fun r_genre_ids =>
  rbind (pluck details "genres" "id") (fun original_genre_ids =>
  rbind (common_ids original_genre_ids r_genre_ids) (fun common =>
  match common with
  | [] => Ok []
  | _ =>
      rbind (common_names details common) (fun names =>
      match names with
      | [] => Ok []
      | _ =>
          rbind (strs (firstn 2 names)) (fun shown =>
          Ok ["shared " +:+ join ", " shown +:+ " genres"])
      end)
  end))).

(** [r.get("vote_average", 0) >= 7.5] *)
Definition highly_rated (r : json) : result bool :=
  rbind (get r "vote_average" (JInt 0)) (fun vote => ge_float vote 7.5).

Section Adapters.
Context `{FloatRepr}.
Variable transport : Transport.

(** The body of the [for r in results[:10]] loop of
    [get_recommendations]. *)
Definition recommendation (details original_title r : json) : result json :=
  rbind (get_or r "release_date" "first_air_date" (JStr "")) (fun release_date =>
  rbind (year_of release_date) (fun year =>
  rbind (shared_part details r) (fun shared =>
  rbind (highly_rated r) (fun high =>
  let reason_parts := (shared ++ (if high then ["highly rated"] else []))%list in
  let reason :=
    "Similar to " +:+ str original_title +:+
    match reason_parts with
    | [] => ""
    | _ => " (" +:+ join ", " reason_parts +:+ ")"
    end in
  rbind (subscript r "id") (fun id =>
  rbind (get_or r "title" "name" (JStr "Unknown")) (fun title =>
  Ok (JObj [("id", id); ("title", title); ("year", year);
            ("reason", JStr reason)]))))))).

Definition search_title (query : string) (type : option string)
    (year : option Z) (language : option string) : M json :=
  catch
    (results ← ApiClient.search_title transport query type year language;
     let type_str := default "movie" (nonempty type) in
     lift (format_first 10 (fun r => format_title_result r type_str) results))
    (fun e => raise (reraise e)).

Definition get_recommendations (id : Z) (type : string) : M json :=
  catch
    (details ← ApiClient.get_details transport id type;
     original_title ← lift (get_or details "title" "name" (JStr "Unknown"));
     lift (pluck details "genres" "name");;
     results ← ApiClient.get_recommendations transport id type;
     lift (format_first 10 (recommendation details original_title) results))
    (fun e => raise (reraise e)).

(** The dict [get_details] builds from the provider's answer. *)
Definition format_details (details : json) (type : string) : result json :=
  rbind (get details "id" JNull) (fun id =>
  rbind (get_or details "title" "name" (JStr "Unknown")) (fun title =>
  rbind (get details "overview" (JStr "No overview available")) (fun overview =>
  rbind (pluck details "genres" "name") (fun genres =>
  rbind (get details "vote_average" (JInt 0)) (fun rating =>
  rbind (get details "vote_count" (JInt 0)) (fun vote_count =>
  rbind (get details "tagline" JNull) (fun tagline =>
  rbind (get details "status" JNull) (fun status =>
  let formatted :=
    [("id", id); ("title", title); ("overview", overview);
     ("genres", JArr genres); ("rating", rating); ("vote_count", vote_count);
     ("tagline", tagline); ("status", status)] in
  if String.eqb type "movie" then
    rbind (get details "release_date" JNull) (fun release_date =>
    rbind (get details "runtime" JNull) (fun runtime =>
    rbind (get details "budget" JNull) (fun budget =>
    rbind (get details "revenue" JNull) (fun revenue =>
    Ok (JObj (formatted ++
              [("release_date", release_date); ("runtime", runtime);
               ("budget", budget); ("revenue", revenue)])%list)))))
  else
    rbind (get details "first_air_date" JNull) (fun first_air_date =>
    rbind (get details "last_air_date" JNull) (fun last_air_date =>
    rbind (get details "number_of_seasons" JNull) (fun seasons =>
    rbind (get details "number_of_episodes" JNull) (fun episodes =>
    rbind (pluck details "created_by" "name") (fun created_by =>
    rbind (pluck details "networks" "name") (fun networks =>
    Ok (JObj (formatted ++
              [("first_air_date", first_air_date);
               ("last_air_date", last_air_date);
               ("number_of_seasons", seasons);
               ("number_of_episodes", episodes);
               ("created_by", JArr created_by);
               ("networks", JArr networks)])%list))))))))))))))).

Definition get_details (id : Z) (type : string) : M json :=
  catch
    (details ← ApiClient.get_details transport id type;
     lift (format_details details type))
    (fun e => raise (reraise e)).

Definition discover (type : string) (genre : option (list string))
    (year : option Z) (language sort_by : option string) : M json :=
  catch
    (results ← ApiClient.discover transport type genre year language sort_by;
     lift (format_first 20 (fun r => format_title_result r type) results))
    (fun e => raise (reraise_discover e)).

End Adapters.

(** The argument models. pydantic runs the validator of a field when the
    model is built and reports the [ValueError] it raises inside a
    [ValidationError], which is a [ValueError] too and whose text is not
    the sentinel; the embedding keeps the validator's own exception. *)

(** [v in ["movie", "tv"]] *)
Definition is_kind (v : string) : bool := String.eqb v "movie" || String.eqb v "tv".

(** [v in ["popularity", "vote_average"]] *)
Definition is_order (v : string) : bool :=
  String.eqb v "popularity" || String.eqb v "vote_average".

(** [SearchTitleArgs.validate_type]: [if v and v not in ...] *)
Definition validate_optional_type (v : option string) : result (option string) :=
  match nonempty v with
  | Some t =>
      if is_kind t then Ok v else Raise (ValueError "type must be 'movie' or 'tv'")
  | None => Ok v
  end.

(** [validate_type] of the other three models: [if v not in ...] *)
Definition validate_type (v : string) : result string :=
  if is_kind v then Ok v else Raise (ValueError "type must be 'movie' or 'tv'").

(** [DiscoverArgs.validate_sort_by] *)
Definition validate_sort_by (v : option string) : result (option string) :=
  match nonempty v with
  | Some t =>
      if is_order t then Ok v
      else Raise (ValueError "sort_by must be 'popularity' or 'vote_average'")
  | None => Ok v
  end.

End Tools.

(** ** [health.py]: the in-memory metrics *)
Module Health.
Import Py.

(** One entry of [_metrics["tool_calls"]]. *)
Record ToolStats : Type := mkToolStats {
  count : Z;
  total_latency : Q;
  success_count : Z;
  error_count : Z
}.

(** One entry of [_metrics["errors"]]; [timestamp] is the instant
    [datetime.now()] read, which the source keeps as ISO text. *)
Record ErrorEntry : Type := mkErrorEntry {
  type : string;
  message : string;
  timestamp : Q
}.

(** The store: [tool_calls] is a dict in insertion order; [start_time],
    kept as ISO text and parsed back by [get_health_response], is the
    instant the module was loaded. *)
Record Metrics : Type := mkMetrics {
  tool_calls : list (string * ToolStats);
  errors : list ErrorEntry;
  start_time : Q
}.

(** [l[-n:]] *)
Definition last_n {A} (n : nat) (l : list A) : list A := skipn (length l - n) l.

Definition record_tool_call (tool_name : string) (latency : Q) (success : bool)
    (m : Metrics) : Metrics :=
  let stats := default (mkToolStats 0 0 0 0) (assoc tool_name (tool_calls m)) in
  let stats :=
    mkToolStats (count stats + 1) (total_latency stats + latency)
      (if success then success_count stats + 1 else success_count stats)
      (if success then error_count stats else error_count stats + 1) in
  mkMetrics (dict_set tool_name stats (tool_calls m)) (errors m) (start_time m).

(** [now] is the reading of [datetime.now()]. *)
Definition record_error (error_type message : string) (now : Q) (m : Metrics)
  : Metrics :=
  let errors := (errors m ++ [mkErrorEntry error_type message now])%list in
  mkMetrics (tool_calls m)
    (if (100 <? length errors)%nat then last_n 100 errors else errors)
    (start_time m).

(** The value under ["metrics"]["tool_calls"][name]. *)
Record ToolSummary : Type := mkToolSummary {
  calls_count : Z;
  avg_latency : Q;
  success_rate : Q
}.

Definition summary (stats : ToolStats) : ToolSummary :=
  mkToolSummary (count stats)
    (if (0 <? count stats)%Z then total_latency stats / inject_Z (count stats) else 0)
    (if (0 <? count stats)%Z
     then inject_Z (success_count stats) / inject_Z (count stats) else 0).

(** The dict [get_health_response] returns, its nested ["metrics"] dict
    flattened. *)
Record HealthResponse : Type := mkHealthResponse {
  status : string;
  uptime : Q;
  metrics_tool_calls : list (string * ToolSummary);
  metrics_error_count : nat;
  metrics_recent_errors : list ErrorEntry
}.

Definition get_health_response (now : Q) (m : Metrics) : HealthResponse :=
  mkHealthResponse "healthy" (now - start_time m)
    (map (fun kv => (fst kv, summary (snd kv))) (tool_calls m))
    (length (errors m))
    (last_n 10 (errors m)).

Definition get_metrics_response (m : Metrics) : Metrics := m.

End Health.

(** ** [http_server.py]: the tool endpoints *)
Module HttpServer.
Import Py ApiClient.

(** [str(e)]: the texts of the interpreter's and of httpx's exceptions
    are taken as given. *)
Class ExnText := exn_text : exn -> string.

(** What an endpoint hands to FastAPI: the dict to send with status 200,
    or an [HTTPException]. *)
Inductive response : Type :=
| Answer (body : json)
| HTTPException (status_code : Z) (detail : string).

(** The process: the environment variable [TMDB_API_KEY], whether the
    global [_client] is set, the client's fields (meaningful once it is
    set) with the clock and the trace, and the metrics store. *)
Record Server : Type := mkServer {
  environ : option string;
  _client : bool;
  process : State;
  _metrics : Health.Metrics
}.

Definition get_client (sv : Server) : result unit * Server :=
  if _client sv then (Ok tt, sv)
  else
    match __init__ None (environ sv) (process sv) with
    | (Ok _, st) => (Ok tt, mkServer (environ sv) true st (_metrics sv))
    | (Raise ex, st) => (Raise ex, mkServer (environ sv) false st (_metrics sv))
    end.

(** Running a coroutine of the client inside the process. *)
Definition run {A} (c : M A) (sv : Server) : result A * Server :=
  let '(r, st) := c (process sv) in
  (r, mkServer (environ sv) (_client sv) st (_metrics sv)).

Definition with_metrics (f : Health.Metrics -> Health.Metrics) (sv : Server)
  : Server :=
  mkServer (environ sv) (_client sv) (process sv) (f (_metrics sv)).

Section Endpoints.
Context `{FloatRepr} `{ExnText}.
Variable transport : Transport.

(** What the four endpoints do once the [try] block has ended, normally
    or not: record the call and, on failure, the error, then answer.
    [key] is ["results"] or ["result"]; [not_found] tells whether the
    endpoint has the 404 branch, which [tool_discover] has not. *)
Definition finish (tool_name key : string) (not_found : bool) (start_time : Q)
    (outcome : result json) (sv : Server) : response * Server :=
  let now := clock (process sv) in
  let latency := (now - start_time)%Q in
  match outcome with
  | Ok results =>
      (Answer (JObj [(key, results)]),
       with_metrics (Health.record_tool_call tool_name latency true) sv)
  | Raise e =>
      let failed := Health.record_tool_call tool_name latency false in
      if is_ValueError e then
        let error_msg := exn_text e in
        (if not_found && is_title_not_found e
         then HTTPException 404 "TITLE_NOT_FOUND"
         else HTTPException 400 error_msg,
         with_metrics
           (fun m => Health.record_error "ValueError" error_msg now (failed m)) sv)
      else
        match e with
        | RateLimitError _ =>
            (HTTPException 429 "RATE_LIMIT",
             with_metrics
               (fun m => Health.record_error "RateLimitError" "RATE_LIMIT" now
                           (failed m)) sv)
        | _ =>
            (HTTPException 500 (exn_text e),
             with_metrics
               (fun m => Health.record_error "Exception" (exn_text e) now
                           (failed m)) sv)
        end
  end.

(** The [try] block: the client, then the argument model, then the
    adapter. *)
Definition attempt {A} (args : result A) (tool : A -> M json) (sv : Server)
  : result json * Server :=
  match get_client sv with
  | (Ok _, sv1) =>
      match args with
      | Ok a => run (tool a) sv1
      | Raise ex => (Raise ex, sv1)
      end
  | (Raise ex, sv1) => (Raise ex, sv1)
  end.

Definition tool_search_title (query : string) (type : option string)
    (year : option Z) (language : option string) (sv : Server)
  : response * Server :=
  let start_time := clock (process sv) in
  let '(outcome, sv1) :=
    attempt (Tools.validate_optional_type type)
      (fun type => Tools.search_title transport query type year language) sv in
  finish "search_title" "results" true start_time outcome sv1.

Definition tool_get_recommendations (id : Z) (type : string) (sv : Server)
  : response * Server :=
  let start_time := clock (process sv) in
  let '(outcome, sv1) :=
    attempt (Tools.validate_type type)
      (fun type => Tools.get_recommendations transport id type) sv in
  finish "get_recommendations" "results" true start_time outcome sv1.

Definition tool_get_details (id : Z) (type : string) (sv : Server)
  : response * Server :=
  let start_time := clock (process sv) in
  let '(outcome, sv1) :=
    attempt (Tools.validate_type type)
      (fun type => Tools.get_details transport id type) sv in
  finish "get_details" "result" true start_time outcome sv1.

Definition tool_discover (type : string) (genre : option (list string))
    (year : option Z) (language sort_by : option string) (sv : Server)
  : response * Server :=
  let start_time := clock (process sv) in
  let '(outcome, sv1) :=
    attempt
      (rbind (Tools.validate_type type) (fun type =>
       rbind (Tools.validate_sort_by sort_by) (fun sort_by => Ok (type, sort_by))))
      (fun args =>
         Tools.discover transport (fst args) genre year language (snd args)) sv in
  finish "discover" "results" false start_time outcome sv1.

(** [GET /health] and [GET /health/metrics] *)
Definition health (sv : Server) : Health.HealthResponse :=
  Health.get_health_response (clock (process sv)) (_metrics sv).

Definition metrics (sv : Server) : Health.Metrics :=
  Health.get_metrics_response (_metrics sv).

End Endpoints.
End HttpServer.

(** ** Notions used to state the properties *)
Import Py ApiClient.
Open Scope list_scope.


(** *** Texts as character lists

    The fingerprint is a text; to compare two fingerprints they are read
    as lists of characters, from the last character to the first. *)
Definition chars_of (s : string) : list ascii := list_ascii_of_string s.

Definition rchars (s : string) : list ascii := rev (chars_of s).

(** Reading one escaped character back from the front of a [repr] body. *)
Definition unhex (c : ascii) : N :=
  if is_digit c then (code c - 48)%N else (code c - 87)%N.

Definition decode (l : list ascii) : option (ascii * list ascii) :=
  match l with
  | [] => None
  | c :: r =>
      if Ascii.eqb c backslash then
        match r with
        | [] => None
        | x :: r' =>
            if Ascii.eqb x "t" then Some (ascii_of_N 9, r')
            else if Ascii.eqb x "n" then Some (ascii_of_N 10, r')
            else if Ascii.eqb x "r" then Some (ascii_of_N 13, r')
            else if Ascii.eqb x "x" then
              match r' with
              | h1 :: h2 :: r'' => Some (ascii_of_N (16 * unhex h1 + unhex h2), r'')
              | _ => None
              end
            else Some (x, r')
        end
      else Some (c, r)
  end.

Definition is_quote (q : ascii) : Prop := q = squote \/ q = dquote.

(** In a reversed [repr] body every quote character is followed by a
    backslash. *)
Fixpoint guarded (q : ascii) (l : list ascii) : Prop :=
  match l with
  | [] => True
  | a :: l' => (a = q -> head l' = Some backslash) /\ guarded q l'
  end.

(** The characters of a decimal literal. *)
Definition numeric (c : ascii) : Prop := is_digit c = true \/ c = "-"%char.

(** The reversed text of one [(key, value)] tuple, and of
    [", ".join(...)] over the tuples taken last to first. *)
Definition ritem (kv : string * param) : list ascii :=
  ")"%char :: rchars (repr_param (snd kv)) ++
  " "%char :: ","%char :: rchars (repr_str (fst kv)) ++ ["("%char].

Fixpoint rjoin (items : params) : list ascii :=
  match items with
  | [] => []
  | [kv] => ritem kv
  | kv :: rest => ritem kv ++ " "%char :: ","%char :: rjoin rest
  end.

(** [needle in hay] *)
Definition contains (needle hay : string) : Prop :=
  exists pre post, hay = pre +:+ needle +:+ post.

(** Characters [repr] copies as they are: printable and neither a quote
    nor a backslash. *)
Definition plain (c : ascii) : bool :=
  is_printable c && negb (Ascii.eqb c squote) && negb (Ascii.eqb c dquote)
  && negb (Ascii.eqb c backslash).

Fixpoint all_plain (s : string) : bool :=
  match s with
  | EmptyString => true
  | String c s' => plain c && all_plain s'
  end.


(** *** The rate window *)

(** The client after one call of [_check_rate_limit]. *)
Definition admission (st : State) : State := (_check_rate_limit st).2.

(** [n] admissions issued back to back. *)
Fixpoint admissions (n : nat) (st : State) : State :=
  match n with
  | O => st
  | S n' => admission (admissions n' st)
  end.

(** The log as sequential use keeps it: in order, not ahead of the clock,
    and no longer than the budget. *)
Definition rate_wf (st : State) : Prop :=
  StronglySorted Qle (request_times st) /\
  Forall (fun t => (t <= clock st)%Q) (request_times st) /\
  (length (request_times st) <= RATE_LIMIT_WINDOW)%nat.

(** The timestamp logged last. *)
Definition stamp (st : State) : Q := List.last (request_times st) 0%Q.

(** [s] was logged [k] admissions ago: either it already left the
    window, or it is still in the log followed by the [k - 1] later
    timestamps. *)
Definition tracked (s : Q) (k : nat) (st : State) : Prop :=
  rate_wf st /\
  ((10 <= clock st - s)%Q \/
   exists pre post, request_times st = pre ++ s :: post /\ length post = (k - 1)%nat).

(** A client as [__init__] leaves it, at time [now]: empty log, empty
    cache, nothing sent yet. *)
Definition fresh (key : string) (now : Q) : State :=
  mkState key [] ∅ now 0 [].


(** *** Dispatches *)

(** The state right after a transport call, after a sleep, and after a
    cache write. *)
Definition sent (T : Transport) (req : Request) (st : State) : State :=
  mkState (api_key st) (request_times st) (_cache st)
    (clock st + (T (calls st) req).1)%Q (S (calls st)) (trace st ++ [Send req]).

Definition slept (seconds : Q) (st : State) : State := (sleep seconds st).2.

Definition cached (key : string) (data : json) (st : State) : State :=
  (cache_put key data st).2.

(** Events one dispatch of [req] may add to the trace. *)
Definition own_event (req : Request) (ev : event) : Prop :=
  match ev with
  | Sleep _ => True
  | Send r => r = req
  end.

(** What the reply to the last transport call of a dispatch settles:
    a 2xx reply with a JSON body is returned and, when caching is on,
    stored with the current time; any other reply leaves the cache alone. *)
Definition settles (use_cache : bool) (key : string) (rep : reply)
    (r : result json) (st st' : State) : Prop :=
  match rep with
  | Response status _ (Some data) =>
      if is_success status then
        r = Ok data /\
        _cache st' =
          (if use_cache then <[key := (data, clock st')]> (_cache st) else _cache st)
      else _cache st' = _cache st
  | _ => _cache st' = _cache st
  end.

(** Facts every step of a dispatch preserves: the credential, that the
    call counter only grows, and that the trace only gains own events. *)
Definition extends (req : Request) (st st' : State) : Prop :=
  api_key st' = api_key st /\
  (calls st <= calls st')%nat /\
  exists new, trace st' = trace st ++ new /\ Forall (own_event req) new.

(** Transports that give the same reply to every call, at once. *)
Definition always (rep : reply) : Transport := fun _ _ => (0%Q, rep).

(** A stand-in for the interpreter's float printer in the closed
    examples, none of which prints a float. *)
Definition sample_float_repr : FloatRepr := fun _ => "0.0".

(** *** Tool adapters *)

(** [fields.get(k, fallback)] on the fields of an object. *)
Definition field (fields : list (string * json)) (k : string) (fallback : json)
  : json :=
  default fallback (assoc k fields).

(** The date [format_title_result] reads the year from:
    [result.get("release_date") or result.get("first_air_date", "")]. *)
Definition date_of (fields : list (string * json)) : json :=
  por (field fields "release_date" JNull) (field fields "first_air_date" (JStr "")).

(** The reason text as the specification words it: the plain sentence,
    then one parenthetical holding the shared-genres qualifier and/or
    the rating qualifier, joined by a comma. *)
Definition reason_spec (title : string) (shared : list string) (high : bool)
  : string :=
  match shared, high with
  | [], false => "Similar to " +:+ title
  | [], true => "Similar to " +:+ title +:+ " (highly rated)"
  | _, false =>
      "Similar to " +:+ title +:+ " (shared " +:+ join ", " shared +:+ " genres)"
  | _, true =>
      "Similar to " +:+ title +:+ " (shared " +:+ join ", " shared
      +:+ " genres, highly rated)"
  end.

(** The genres of the source title and the genre ids of a candidate. *)
Definition source_genres (details : json) : result (list json) :=
  rbind (get details "genres" (JArr [])) iter.

Definition candidate_ids (r : json) : result (list json) :=
  rbind (get r "genre_ids" (JArr [])) iter.

(** [name] is the name of a genre of the source whose id the candidate
    lists too. *)
Definition shared_name (details r : json) (name : string) : Prop :=
  exists gs cand g id,
    source_genres details = Ok gs /\ candidate_ids r = Ok cand /\
    g ∈ gs /\ subscript g "name" = Ok (JStr name) /\
    subscript g "id" = Ok id /\ Tools.member id cand = true.

(** The candidate lists the id of some genre of the source. *)
Definition shares_genre (details r : json) : Prop :=
  exists gs cand g id,
    source_genres details = Ok gs /\ candidate_ids r = Ok cand /\
    g ∈ gs /\ subscript g "id" = Ok id /\ Tools.member id cand = true.

(** What the specification says of the item made for candidate [r] of a
    source with answer [details] and title [original_title]: its reason
    is the specified text over the qualifiers that apply. *)
Definition explains `{FloatRepr} (details original_title r item : json) : Prop :=
  exists fields reason vote rating shown,
    item = JObj fields /\
    assoc "reason" fields = Some (JStr reason) /\
    get r "vote_average" (JInt 0) = Ok vote /\ number vote = Some rating /\
    reason = reason_spec (str original_title) shown (Qle_bool 7.5 rating) /\
    (~ shares_genre details r -> shown = []) /\
    (shares_genre details r ->
     (1 <= length shown <= 2)%nat /\ Forall (shared_name details r) shown) /\
    (~ shares_genre details r -> Qle_bool 7.5 rating = false ->
     reason = "Similar to " +:+ str original_title).

(** *** Retries *)

(** Replies the loop answers with a backoff sleep and another turn: a
    transport error, or a status that is neither 2xx, 404 nor 429. *)
Definition transient (rep : reply) : bool :=
  match rep with
  | Failure => true
  | Response status _ _ =>
      negb (is_success status) && negb (status =? 404)%Z && negb (status =? 429)%Z
  end.

(** The exception the last turn raises for such a reply. *)
Definition transient_error (rep : reply) : exn :=
  match rep with
  | Failure => RequestError
  | Response status _ _ => HTTPStatusError status
  end.

(** The exceptions the embedded dispatch can end with. *)
Definition dispatch_error (ex : exn) : Prop :=
  match ex with
  | ValueError msg => msg = "TITLE_NOT_FOUND"
  | HTTPStatusError status =>
      is_success status = false /\ status <> 404%Z /\ status <> 429%Z
  | RequestError | JSONDecodeError | BadIntLiteral _ => True
  | _ => False
  end.

(** The errors the loop retries: they leave a dispatch only from its
    last turn. *)
Definition retried_error (ex : exn) : bool :=
  match ex with
  | HTTPStatusError _ | RequestError => true
  | _ => false
  end.

(** A [Retry-After] header whose value, once read by [int()], is a delay
    [asyncio.sleep] accepts: a text of at most 308 characters denotes an
    integer below the largest float. *)
Definition modest (retry_after : option string) : Prop :=
  match retry_after with
  | Some text => (String.length text <= 308)%nat
  | None => True
  end.

(** Transports that answer the first call with one reply and every later
    call with another, at once. *)
Definition first_then (first rest : reply) : Transport :=
  fun n _ => (0%Q, match n with O => first | _ => rest end).

(** *** Genre names *)

(** The listed genre [g] has identifier [id] and a name that equals
    [name] up to case. *)
Definition names_genre (g : json) (name : string) (id : json) : Prop :=
  exists s, subscript g "name" = Ok (JStr s) /\ lower s = lower name /\
            subscript g "id" = Ok id.

(** The genres of a genre-list body: [data.get("genres", [])]. *)
Definition listed_genres (data : json) : result (list json) :=
  rbind (get data "genres" (JArr [])) iter.

(** *** Exceptions of the adapters *)

(** Exceptions the code that reads an answer can raise: [.get] on a
    value that is not a dict, a subscript or a slice on the wrong kind
    of value, a missing key, [int()] on an unreadable text. *)
Definition reading_error (ex : exn) : Prop :=
  match ex with
  | AttributeError | TypeError | KeyError _ | BadIntLiteral _ => True
  | _ => False
  end.

(** A computation that raises nothing but such exceptions. *)
Definition reads {A} (r : result A) : Prop :=
  match r with
  | Ok _ => True
  | Raise ex => reading_error ex
  end.

(** Exceptions a client operation can end with. *)
Definition client_error (ex : exn) : Prop := dispatch_error ex \/ reading_error ex.

(** [c] raises only exceptions in [P]. *)
Definition raises_only {A} (P : exn -> Prop) (c : M A) : Prop :=
  forall st ex st', c st = (Raise ex, st') -> P ex.

(** What [search_title], [get_recommendations] and [get_details] of
    [tools.py] let out: the sentinel, [Invalid arguments: ...] around
    another [ValueError], or [API error: ...] around an exception that
    is neither a [ValueError] nor a [RateLimitError]. *)
Definition adapter_error (ex : exn) : Prop :=
  match ex with
  | ValueError msg => msg = "TITLE_NOT_FOUND"
  | InvalidArguments cause =>
      is_ValueError cause = true /\ is_title_not_found cause = false
  | ApiError cause =>
      is_ValueError cause = false /\ forall msg, cause <> RateLimitError msg
  | _ => False
  end.

(** What [discover] of [tools.py] lets out: every [ValueError] wrapped,
    the sentinel included. *)
Definition discover_error (ex : exn) : Prop :=
  match ex with
  | InvalidArguments cause => is_ValueError cause = true
  | ApiError cause =>
      is_ValueError cause = false /\ forall msg, cause <> RateLimitError msg
  | _ => False
  end.

(** [c] makes at most [n] transport calls. *)
Definition costs {A} (n : nat) (c : M A) : Prop :=
  forall st r st', c st = (r, st') -> (calls st <= calls st' <= calls st + n)%nat.

(** *** The metrics store *)

(** What the endpoints ask the store to record. *)
Inductive record : Type :=
| ToolCall (tool_name : string) (latency : Q) (success : bool)
| Error (error_type message : string) (now : Q).

Definition apply_record (m : Health.Metrics) (r : record) : Health.Metrics :=
  match r with
  | ToolCall tool_name latency success =>
      Health.record_tool_call tool_name latency success m
  | Error error_type message now => Health.record_error error_type message now m
  end.

(** The store after the records [rs], oldest first, in a process whose
    module was loaded at [start]. *)
Definition recorded (start : Q) (rs : list record) : Health.Metrics :=
  fold_left apply_record rs (Health.mkMetrics [] [] start).

(** The latency and outcome of the calls of one tool among [rs]. *)
Definition calls_of (tool_name : string) (rs : list record) : list (Q * bool) :=
  omap (fun r =>
          match r with
          | ToolCall n latency success =>
              if String.eqb n tool_name then Some (latency, success) else None
          | Error _ _ _ => None
          end) rs.

(** The errors among [rs]. *)
Definition errors_of (rs : list record) : list Health.ErrorEntry :=
  omap (fun r =>
          match r with
          | Error error_type message now =>
              Some (Health.mkErrorEntry error_type message now)
          | ToolCall _ _ _ => None
          end) rs.

Definition tally (b : bool) (calls : list (Q * bool)) : Z :=
  Z.of_nat (length (List.filter (fun c => Bool.eqb (snd c) b) calls)).

(** Counters that add up. *)
Definition stats_ok (s : Health.ToolStats) : Prop :=
  (Health.count s = Health.success_count s + Health.error_count s)%Z /\
  (0 <= Health.success_count s)%Z /\ (0 <= Health.error_count s)%Z /\
  (1 <= Health.count s)%Z.

(** *** The endpoints *)

(** A request to one of the four tool routes. *)
Inductive call : Type :=
| SearchTitle (query : string) (type : option string) (year : option Z)
    (language : option string)
| GetRecommendations (id : Z) (type : string)
| GetDetails (id : Z) (type : string)
| Discover (type : string) (genre : option (list string)) (year : option Z)
    (language sort_by : option string).

(** The route a request is posted to: [/tools/{tool_of c}]. *)
Definition tool_of (c : call) : string :=
  match c with
  | SearchTitle _ _ _ _ => "search_title"
  | GetRecommendations _ _ => "get_recommendations"
  | GetDetails _ _ => "get_details"
  | Discover _ _ _ _ _ => "discover"
  end.

Definition serve `{FloatRepr} `{HttpServer.ExnText} (T : Transport) (c : call)
  : HttpServer.Server -> HttpServer.response * HttpServer.Server :=
  match c with
  | SearchTitle query type year language =>
      HttpServer.tool_search_title T query type year language
  | GetRecommendations id type => HttpServer.tool_get_recommendations T id type
  | GetDetails id type => HttpServer.tool_get_details T id type
  | Discover type genre year language sort_by =>
      HttpServer.tool_discover T type genre year language sort_by
  end.

(** Whether the argument model of the route accepts the request. *)
Definition accepted (c : call) : bool :=
  match c with
  | SearchTitle _ type _ _ =>
      match Tools.validate_optional_type type with Ok _ => true | Raise _ => false end
  | GetRecommendations _ type | GetDetails _ type => Tools.is_kind type
  | Discover type _ _ _ sort_by =>
      Tools.is_kind type &&
      match Tools.validate_sort_by sort_by with Ok _ => true | Raise _ => false end
  end.

Definition answered (r : HttpServer.response) : bool :=
  match r with
  | HttpServer.Answer _ => true
  | HttpServer.HTTPException _ _ => false
  end.

Definition status_of (r : HttpServer.response) : Z :=
  match r with
  | HttpServer.Answer _ => 200
  | HttpServer.HTTPException status_code _ => status_code
  end.

(** A stand-in for [str(e)] in the closed examples. *)
Definition sample_exn_text : HttpServer.ExnText :=
  fun ex =>
    match ex with
    | ValueError msg | RateLimitError msg => msg
    | _ => "error"
    end.

(** A process that has its key in the environment and made no request
    yet. *)
Definition booted (key : string) (now : Q) : HttpServer.Server :=
  HttpServer.mkServer (Some key) false (fresh "" now) (Health.mkMetrics [] [] now).

(** ** Properties *)


(** *** Reading a fingerprint back

    The text of a fingerprint determines the endpoint and the sorted
    items: literals are matched from the end of the text, where both
    fingerprints close their list. *)

Lemma chars_of_app a b : chars_of (a +:+ b) = chars_of a ++ chars_of b.
Proof. induction a as [|c a IH]; simpl; [done|]. unfold chars_of in *. simpl. by rewrite IH. Qed.

Lemma chars_of_inj a b : chars_of a = chars_of b -> a = b.
Proof.
  intros E. rewrite <- (string_of_list_ascii_of_string a), <- (string_of_list_ascii_of_string b).
  unfold chars_of in E. by rewrite E.
Qed.

Lemma rchars_app a b : rchars (a +:+ b) = rchars b ++ rchars a.
Proof. unfold rchars. by rewrite chars_of_app, rev_app_distr. Qed.

Lemma rchars_cons c s : rchars (String c s) = rchars s ++ [c].
Proof. reflexivity. Qed.

Lemma rchars_inj a b : rchars a = rchars b -> a = b.
Proof.
  intros E. apply chars_of_inj. unfold rchars in E.
  rewrite <- (rev_involutive (chars_of a)), E. apply rev_involutive.
Qed.

(** [decode] undoes [escape_char]. *)
Lemma decode_escape q c r :
  is_quote q -> decode (chars_of (escape_char q c) ++ r) = Some (c, r).
Proof.
  intros [-> | ->]; destruct c as [[] [] [] [] [] [] [] []]; reflexivity.
Qed.

Lemma escape_nonempty q c : chars_of (escape_char q c) <> [].
Proof.
  unfold escape_char. repeat case_match; discriminate.
Qed.

Lemma repr_body_inj q s1 s2 :
  is_quote q -> repr_body q s1 = repr_body q s2 -> s1 = s2.
Proof.
  intros Hq. revert s2. induction s1 as [|c1 s1 IH]; intros [|c2 s2] E; simpl in E.
  - done.
  - apply (f_equal chars_of) in E. rewrite chars_of_app in E.
    destruct (chars_of (escape_char q c2)) eqn:X; [by apply escape_nonempty in X | discriminate].
  - apply (f_equal chars_of) in E. rewrite chars_of_app in E.
    destruct (chars_of (escape_char q c1)) eqn:X; [by apply escape_nonempty in X | discriminate].
  - apply (f_equal chars_of) in E. rewrite !chars_of_app in E.
    apply (f_equal decode) in E. rewrite !decode_escape in E by done.
    injection E as -> E. apply chars_of_inj in E. f_equal. auto.
Qed.

(** Appending an escaped character keeps a reversed body guarded. *)
Lemma guarded_app q l e :
  guarded q l -> guarded q e -> last l <> Some q -> guarded q (l ++ e).
Proof.
  induction l as [|a l IH]; simpl; [done|].
  intros [Ha Hl] He Hlast. split.
  - intros ->. destruct l as [|b l]; [by destruct Hlast | by apply Ha].
  - apply IH; [done..|]. destruct l; [done|]. exact Hlast.
Qed.

Lemma escape_guarded q c :
  is_quote q ->
  guarded q (rchars (escape_char q c)) /\
  (exists a l, chars_of (escape_char q c) = a :: l /\ a <> q).
Proof.
  intros [-> | ->]; destruct c as [[] [] [] [] [] [] [] []];
    (split; [cbv; intuition congruence | eexists _, _; split; [reflexivity | discriminate]]).
Qed.

Lemma repr_body_guarded q s :
  is_quote q ->
  guarded q (rchars (repr_body q s)) /\ last (rchars (repr_body q s)) <> Some q.
Proof.
  intros Hq. induction s as [|c s [IH1 IH2]]; simpl; [by split|].
  rewrite rchars_app.
  destruct (escape_guarded q c Hq) as [G (a & l & E & Ha)].
  split.
  - by apply guarded_app.
  - unfold rchars at 2. rewrite E. simpl. rewrite app_assoc, last_snoc. congruence.
Qed.

Lemma guarded_align q l1 l2 c1 c2 u w :
  guarded q l1 -> guarded q l2 -> c1 <> backslash -> c2 <> backslash ->
  l1 ++ q :: c1 :: u = l2 ++ q :: c2 :: w ->
  l1 = l2 /\ c1 :: u = c2 :: w.
Proof.
  revert l2. induction l1 as [|a l1 IH]; intros [|b l2]; simpl; intros G1 G2 H1 H2 E.
  - by injection E as -> ->.
  - injection E as <- E. destruct G2 as [G2 _]. specialize (G2 eq_refl).
    destruct l2 as [|x l2]; simpl in *; [discriminate|]. injection G2 as ->. by injection E as -> _.
  - injection E as -> E. destruct G1 as [G1 _]. specialize (G1 eq_refl).
    destruct l1 as [|x l1]; simpl in *; [discriminate|]. injection G1 as ->. by injection E as <- _.
  - injection E as -> E. destruct G1 as [_ G1], G2 as [_ G2].
    destruct (IH l2 G1 G2 H1 H2 E) as [-> ?]. done.
Qed.

Lemma pick_quote_is_quote s : is_quote (pick_quote s).
Proof. unfold pick_quote, is_quote. case_match; auto. Qed.

Lemma rchars_repr_str s :
  rchars (repr_str s) =
  pick_quote s :: rchars (repr_body (pick_quote s) s) ++ [pick_quote s].
Proof.
  unfold repr_str. simpl. rewrite rchars_cons, rchars_app. reflexivity.
Qed.

(** Two string literals that end at the same place, each preceded by a
    character other than a backslash, are the same literal. *)

Lemma repr_str_align s1 s2 c1 c2 u w :
  c1 <> backslash -> c2 <> backslash ->
  rchars (repr_str s1) ++ c1 :: u = rchars (repr_str s2) ++ c2 :: w ->
  s1 = s2 /\ c1 :: u = c2 :: w.
Proof.
  intros H1 H2. rewrite !rchars_repr_str. simpl. rewrite <- !app_assoc. simpl.
  intros E. injection E as Eq E.
  pose proof (pick_quote_is_quote s1) as Q1.
  pose proof (pick_quote_is_quote s2) as Q2.
  rewrite <- Eq in *.
  destruct (guarded_align _ _ _ _ _ _ _
              (proj1 (repr_body_guarded _ s1 Q1))
              (proj1 (repr_body_guarded _ s2 Q1)) H1 H2 E) as [E1 E2].
  split; [|done]. apply rchars_inj in E1. by apply repr_body_inj in E1.
Qed.

(** A decimal literal has only digits and, in front, a minus sign. *)
Lemma string_of_uint_numeric d :
  Forall numeric (chars_of (NilEmpty.string_of_uint d)).
Proof.
  induction d; simpl; constructor; try done; by left.
Qed.

Lemma repr_int_numeric z :
  Forall numeric (chars_of (repr_int z)) /\ chars_of (repr_int z) <> [].
Proof.
  unfold repr_int, NilZero.string_of_int.
  destruct (Z.to_int z) as [d|d].
  - destruct d; simpl; (split; [|discriminate]);
      repeat constructor; try (by left); apply string_of_uint_numeric.
  - simpl. split; [|discriminate]. constructor; [by right|].
    destruct d; simpl; repeat constructor; try (by left); apply string_of_uint_numeric.
Qed.

Lemma to_int_not_nil z :
  Z.to_int z <> Decimal.Pos Decimal.Nil /\ Z.to_int z <> Decimal.Neg Decimal.Nil.
Proof.
  destruct z as [|p|p]; simpl; split; try discriminate;
    intros E; injection E as E; by apply (Unsigned.to_uint_nonnil p).
Qed.

Lemma repr_int_inj z1 z2 : repr_int z1 = repr_int z2 -> z1 = z2.
Proof.
  unfold repr_int. intros E. apply (f_equal NilZero.int_of_string) in E.
  destruct (to_int_not_nil z1), (to_int_not_nil z2).
  rewrite !NilZero.isi in E by done. injection E as E. by apply DecimalZ.to_int_inj.
Qed.

Lemma split_at {A} (P : A -> Prop) (c : A) l1 l2 u w :
  Forall P l1 -> Forall P l2 -> ~ P c ->
  l1 ++ c :: u = l2 ++ c :: w -> l1 = l2 /\ u = w.
Proof.
  intros F1. revert l2. induction F1 as [|a l1 Pa F1 IH]; intros l2 F2 Hc E;
    destruct F2 as [|b l2 Pb F2]; simpl in E.
  - by injection E.
  - injection E as -> _. done.
  - injection E as -> _. done.
  - injection E as -> E. destruct (IH l2 F2 Hc E) as [-> ->]. done.
Qed.

Lemma Forall_rev_numeric z : Forall numeric (rchars (repr_int z)).
Proof. apply Forall_rev, repr_int_numeric. Qed.

Lemma rchars_repr_int_head z :
  exists d l, rchars (repr_int z) = d :: l /\ numeric d.
Proof.
  pose proof (Forall_rev_numeric z) as F.
  destruct (rchars (repr_int z)) as [|d l] eqn:E.
  - destruct (repr_int_numeric z) as [_ N]. unfold rchars in E.
    apply (f_equal (@rev _)) in E. rewrite rev_involutive in E. done.
  - exists d, l. split; [done|]. by inversion F.
Qed.

Lemma quote_not_numeric q : is_quote q -> ~ numeric q.
Proof. intros [-> | ->] [N | N]; discriminate. Qed.

Lemma repr_param_align v1 v2 u w :
  rchars (repr_param v1) ++ " "%char :: u = rchars (repr_param v2) ++ " "%char :: w ->
  v1 = v2 /\ u = w.
Proof.
  destruct v1 as [s1|z1], v2 as [s2|z2]; simpl; intros E.
  - apply repr_str_align in E as [-> E]; [|discriminate..]. by injection E as ->.
  - exfalso. destruct (rchars_repr_int_head z2) as (d & l & Ed & Nd).
    rewrite rchars_repr_str, Ed in E. simpl in E. injection E as Eq _.
    apply (quote_not_numeric _ (pick_quote_is_quote s1)). by rewrite Eq.
  - exfalso. destruct (rchars_repr_int_head z1) as (d & l & Ed & Nd).
    rewrite rchars_repr_str, Ed in E. simpl in E. injection E as Eq _.
    apply (quote_not_numeric _ (pick_quote_is_quote s2)). by rewrite <- Eq.
  - apply (split_at numeric) in E as [E ->];
      [| apply Forall_rev_numeric .. | intros [N | N]; discriminate].
    split; [|done]. f_equal. apply repr_int_inj. by apply rchars_inj.
Qed.

(** The reversed text of the list of items. *)
Lemma rchars_repr_item kv : rchars (repr_item kv) = ritem kv.
Proof.
  unfold repr_item, ritem. rewrite !rchars_app. simpl.
  rewrite <- !app_assoc. reflexivity.
Qed.

Lemma rjoin_snoc items kv :
  items <> [] -> rjoin (items ++ [kv]) = rjoin items ++ " "%char :: ","%char :: ritem kv.
Proof.
  induction items as [|a items IH]; [done|]. intros _.
  destruct items as [|b items]; [done|].
  change (rjoin ((a :: b :: items) ++ [kv]))
    with (ritem a ++ " "%char :: ","%char :: rjoin ((b :: items) ++ [kv])).
  rewrite IH by done. simpl. by rewrite <- !app_assoc.
Qed.

Lemma rchars_join items :
  rchars (join ", " (map repr_item items)) = rjoin (rev items).
Proof.
  induction items as [|a items IH]; [done|].
  destruct items as [|b items].
  - simpl. apply rchars_repr_item.
  - change (join ", " (map repr_item (a :: b :: items)))
      with (repr_item a +:+ ", " +:+ join ", " (map repr_item (b :: items))).
    rewrite !rchars_app, IH, rchars_repr_item.
    change (rev (a :: b :: items)) with (rev (b :: items) ++ [a]).
    rewrite rjoin_snoc; [by rewrite <- app_assoc|]. simpl. by destruct (rev items).
Qed.

Lemma rchars_repr_items items :
  rchars (repr_items items) = "]"%char :: rjoin (rev items) ++ ["["%char].
Proof.
  unfold repr_items. rewrite !rchars_app, rchars_join. reflexivity.
Qed.

Lemma ritem_align a b u w :
  ritem a ++ u = ritem b ++ w -> a = b /\ u = w.
Proof.
  destruct a as [ka va], b as [kb vb]. unfold ritem. simpl.
  rewrite <- !app_assoc. simpl. intros E. injection E as E.
  apply repr_param_align in E as [-> E]. injection E as E.
  rewrite <- !app_assoc in E. simpl in E.
  apply repr_str_align in E as [-> E]; [|discriminate..].
  by injection E as ->.
Qed.

Lemma ritem_head a : exists l, ritem a = ")"%char :: l.
Proof. unfold ritem. eauto. Qed.

Lemma rjoin_cons X x :
  rjoin (x :: X) =
  ritem x ++ match X with [] => [] | _ => " "%char :: ","%char :: rjoin X end.
Proof. destruct X; simpl; [by rewrite app_nil_r | done]. Qed.

Lemma rjoin_align A B u w :
  rjoin A ++ "["%char :: u = rjoin B ++ "["%char :: w -> A = B /\ u = w.
Proof.
  revert B. induction A as [|a A IH]; intros [|b B] E.
  - by injection E as ->.
  - exfalso. destruct (ritem_head b) as [l Hl].
    rewrite rjoin_cons, Hl in E. discriminate.
  - exfalso. destruct (ritem_head a) as [l Hl].
    rewrite rjoin_cons, Hl in E. discriminate.
  - rewrite !rjoin_cons, <- !app_assoc in E.
    apply ritem_align in E as [-> E].
    destruct A as [|a' A], B as [|b' B]; cbn [app] in E.
    + by injection E as ->.
    + discriminate.
    + discriminate.
    + injection E as E.
      change (rjoin (a' :: A) ++ "["%char :: u = rjoin (b' :: B) ++ "["%char :: w) in E.
      apply IH in E as [-> ->]. done.
Qed.

Lemma cache_key_inj e1 e2 p1 p2 :
  e1 +:+ ":" +:+ repr_items p1 = e2 +:+ ":" +:+ repr_items p2 ->
  e1 = e2 /\ p1 = p2.
Proof.
  intros E. apply (f_equal rchars) in E.
  rewrite !rchars_app, !rchars_repr_items in E. simpl in E.
  injection E as E. rewrite <- !app_assoc in E. simpl in E.
  apply rjoin_align in E as [E1 E2].
  split.
  - injection E2 as E2. by apply rchars_inj.
  - rewrite <- (rev_involutive p1), E1. apply rev_involutive.
Qed.

(** *** Sorting the items *)

Lemma item_le_transitive : Transitive item_le.
Proof. intros a b c. unfold item_le. apply (@transitivity _ String.le _). Qed.

Lemma item_le_total : Total item_le.
Proof. intros a b. unfold item_le. apply (total String.le). Qed.

Lemma sorted_strongly (p : params) : StronglySorted item_le (sorted p).
Proof.
  apply StronglySorted_merge_sort; [apply item_le_transitive | apply item_le_total].
Qed.

Lemma sorted_permutation (p : params) : sorted p ≡ₚ p.
Proof. apply merge_sort_Permutation. Qed.

Lemma unique_key_value (l : params) k v1 v2 :
  NoDup l.*1 -> (k, v1) ∈ l -> (k, v2) ∈ l -> v1 = v2.
Proof.
  induction l as [|[k' v'] l IH]; simpl; intros N I1 I2.
  - by apply elem_of_nil in I1.
  - apply NoDup_cons in N as [Nk N].
    apply elem_of_cons in I1 as [E1 | I1], I2 as [E2 | I2].
    + congruence.
    + injection E1 as -> ->. destruct Nk. apply list_elem_of_fmap. by exists (k', v2).
    + injection E2 as -> ->. destruct Nk. apply list_elem_of_fmap. by exists (k', v1).
    + auto.
Qed.

(** Two parameter dicts with the same items sort to the same list. *)
Lemma sorted_perm (p1 p2 : params) :
  NoDup p1.*1 -> p1 ≡ₚ p2 -> sorted p1 = sorted p2.
Proof.
  intros N P. apply (StronglySorted_unique_strong item_le);
    [| apply sorted_strongly .. |].
  - intros [k1 v1] [k2 v2] I1 I2 L1 L2. unfold item_le in *. simpl in *.
    assert (k1 = k2) as -> by (by apply (anti_symm String.le)).
    f_equal. apply (unique_key_value p1 k2); [done | |].
    + by rewrite <- (sorted_permutation p1).
    + by rewrite P, <- (sorted_permutation p2).
  - by rewrite !sorted_permutation.
Qed.


(** *** Admissions *)

Lemma ltb_lt a b : ltb a b = true <-> (a < b)%Q.
Proof.
  unfold ltb. rewrite negb_true_iff. split.
  - intros E. apply Qnot_le_lt. intros L. apply Qle_bool_iff in L. congruence.
  - intros L. destruct (Qle_bool b a) eqn:E; [|done].
    apply Qle_bool_iff in E. lra.
Qed.

Lemma ltb_ge a b : ltb a b = false <-> (b <= a)%Q.
Proof.
  unfold ltb. rewrite negb_false_iff. apply Qle_bool_iff.
Qed.

(** One admission, case by case. *)
Lemma check_rate_limit_below st :
  (length (recent (clock st) (request_times st)) < RATE_LIMIT_WINDOW)%nat ->
  _check_rate_limit st =
  (Ok tt, mkState (api_key st)
            (recent (clock st) (request_times st) ++ [clock st])
            (_cache st) (clock st) (calls st) (trace st)).
Proof.
  intros Hlen. unfold _check_rate_limit, mbind, M_bind, bind, time, get_request_times,
    set_request_times. cbn -[Nat.leb].
  destruct (RATE_LIMIT_WINDOW <=? _)%nat eqn:E.
  - apply Nat.leb_le in E. lia.
  - reflexivity.
Qed.

Lemma check_rate_limit_full st oldest rest :
  recent (clock st) (request_times st) = oldest :: rest ->
  (RATE_LIMIT_WINDOW <= length (oldest :: rest))%nat ->
  let d := (10 - (clock st - oldest))%Q in
  let now := (clock st + d)%Q in
  _check_rate_limit st =
  (Ok tt, mkState (api_key st) (recent now (oldest :: rest) ++ [now])
            (_cache st) now (calls st) (trace st ++ [Sleep d])).
Proof.
  intros Hk Hlen d now.
  assert (ltb (clock st - oldest) 10 = true) as Hold.
  { assert (In oldest (recent (clock st) (request_times st))) as I by (rewrite Hk; by left).
    apply filter_In in I as [_ I]. exact I. }
  assert (0 < d)%Q as Hd by (apply ltb_lt in Hold; unfold d; lra).
  unfold _check_rate_limit, mbind, M_bind, bind, time, get_request_times,
    set_request_times. cbn -[Nat.leb]. rewrite Hk.
  apply Nat.leb_le in Hlen. rewrite Hlen.
  fold d. rewrite (proj2 (ltb_lt 0 d) Hd).
  unfold sleep. cbn -[Nat.leb].
  assert (Qle_bool d 0 = false) as ->.
  { destruct (Qle_bool d 0) eqn:E; [|done]. apply Qle_bool_iff in E. lra. }
  reflexivity.
Qed.

Lemma recent_sorted now l : StronglySorted Qle l -> StronglySorted Qle (recent now l).
Proof.
  induction 1 as [|a l S IH F]; simpl; [constructor|].
  destruct (ltb (now - a) 10); [|done].
  constructor; [done|]. unfold recent. rewrite List.Forall_forall in *.
  intros x I. apply filter_In in I as [I _]. auto.
Qed.

Lemma recent_le now b l :
  Forall (fun t => (t <= b)%Q) l -> Forall (fun t => (t <= b)%Q) (recent now l).
Proof.
  rewrite !List.Forall_forall. intros F x I. apply filter_In in I as [I _]. auto.
Qed.

Lemma recent_length now l : (length (recent now l) <= length l)%nat.
Proof. apply filter_length_le. Qed.

Lemma sorted_snoc l x :
  StronglySorted Qle l -> Forall (fun t => (t <= x)%Q) l -> StronglySorted Qle (l ++ [x]).
Proof.
  induction 1 as [|a l S IH F]; intros B; simpl.
  - repeat constructor.
  - inversion B as [|?? Ba Bl]; subst. constructor; [auto|].
    apply Forall_app. split; [done|]. by constructor.
Qed.

(** After one admission the log ends with the time it was granted at,
    which is the clock. *)
Lemma admission_shape st :
  exists kept,
    request_times (admission st) = kept ++ [clock (admission st)] /\
    (clock st <= clock (admission st))%Q /\
    api_key (admission st) = api_key st /\ _cache (admission st) = _cache st /\
    calls (admission st) = calls st.
Proof.
  unfold admission.
  destruct (le_lt_dec RATE_LIMIT_WINDOW (length (recent (clock st) (request_times st)))) as [L|L].
  - destruct (recent (clock st) (request_times st)) as [|oldest rest] eqn:K.
    { simpl in L. unfold RATE_LIMIT_WINDOW in L. lia. }
    rewrite (check_rate_limit_full st oldest rest K L). simpl.
    eexists. split; [reflexivity|]. split; [|done].
    assert (In oldest (recent (clock st) (request_times st))) as I by (rewrite K; by left).
    apply filter_In in I as [_ I]. apply ltb_lt in I. lra.
  - rewrite (check_rate_limit_below st L). simpl.
    eexists. split; [reflexivity|]. split; [lra|done].
Qed.

Lemma admission_wf st : rate_wf st -> rate_wf (admission st).
Proof.
  intros (S & B & N). unfold admission, rate_wf.
  destruct (le_lt_dec RATE_LIMIT_WINDOW (length (recent (clock st) (request_times st)))) as [L|L].
  - destruct (recent (clock st) (request_times st)) as [|oldest rest] eqn:K.
    { simpl in L. unfold RATE_LIMIT_WINDOW in L. lia. }
    rewrite (check_rate_limit_full st oldest rest K L). simpl.
    assert (ltb (clock st - oldest) 10 = true) as Hold.
    { assert (In oldest (recent (clock st) (request_times st))) as I by (rewrite K; by left).
      apply filter_In in I as [_ I]. exact I. }
    apply ltb_lt in Hold.
    set (d := (10 - (clock st - oldest))%Q).
    set (now := (clock st + d)%Q).
    assert (ltb (now - oldest) 10 = false) as Hout.
    { apply ltb_ge. unfold now, d. lra. }
    rewrite Hout.
    pose proof (recent_sorted (clock st) _ S) as S'.
    pose proof (recent_le (clock st) _ _ B) as B'.
    rewrite K in S', B'.
    apply StronglySorted_inv in S' as [S' _].
    inversion B' as [|?? _ B'']; subst.
    assert (Forall (fun t => (t <= now)%Q) (recent now rest)) as Bn.
    { apply recent_le. eapply Forall_impl; [exact B''|]. simpl. intros. unfold now, d. lra. }
    split; [|split].
    + apply sorted_snoc; [by apply recent_sorted | done].
    + apply Forall_app. split; [done|]. constructor; [lra | constructor].
    + rewrite length_app. simpl.
      pose proof (recent_length now rest).
      pose proof (recent_length (clock st) (request_times st)) as Lk.
      rewrite K in Lk. simpl in Lk. lia.
  - rewrite (check_rate_limit_below st L). simpl.
    split; [|split].
    + apply sorted_snoc; [by apply recent_sorted | by apply recent_le].
    + apply Forall_app. split; [by apply recent_le|]. constructor; [lra | constructor].
    + rewrite length_app. simpl. lia.
Qed.

Lemma recent_keep now l :
  Forall (fun t => ltb (now - t) 10 = true) l -> recent now l = l.
Proof.
  induction 1 as [|a l Ha F IH]; simpl; [done|]. by rewrite Ha, IH.
Qed.

Lemma recent_app now l1 l2 : recent now (l1 ++ l2) = recent now l1 ++ recent now l2.
Proof. apply List.filter_app. Qed.

Lemma sorted_after pre s post :
  StronglySorted Qle (pre ++ s :: post) -> Forall (fun t => (s <= t)%Q) post.
Proof.
  intros S. apply StronglySorted_app_1_r in S. by apply StronglySorted_inv in S as [_ F].
Qed.

Lemma recent_tracked now pre s post :
  StronglySorted Qle (pre ++ s :: post) ->
  (now - s < 10)%Q ->
  recent now (pre ++ s :: post) = recent now pre ++ s :: post.
Proof.
  intros S Hs. rewrite recent_app. f_equal. simpl.
  rewrite (proj2 (ltb_lt _ _) Hs). f_equal. apply recent_keep.
  eapply Forall_impl; [exact (sorted_after _ _ _ S)|]. simpl. intros t Ht.
  apply ltb_lt. lra.
Qed.

Lemma tracked_admission s k st :
  (1 <= k)%nat -> tracked s k st -> tracked s (S k) (admission st).
Proof.
  intros Hk [W [Gone | (pre & post & E & Hlen)]]; (split; [by apply admission_wf|]).
  - left. destruct (admission_shape st) as (_ & _ & C & _). lra.
  - destruct W as (S & B & N).
    destruct (Qlt_le_dec (clock st - s) 10) as [In1 | Out1].
    2:{ left. destruct (admission_shape st) as (_ & _ & C & _). lra. }
    pose proof (recent_tracked (clock st) pre s post) as K1.
    rewrite <- E in K1. specialize (K1 S In1).
    unfold admission.
    destruct (le_lt_dec RATE_LIMIT_WINDOW (length (recent (clock st) (request_times st)))) as [L|L].
    + destruct (recent (clock st) (request_times st)) as [|oldest rest] eqn:K.
      { simpl in L. unfold RATE_LIMIT_WINDOW in L. lia. }
      rewrite (check_rate_limit_full st oldest rest K L). simpl.
      set (d := (10 - (clock st - oldest))%Q).
      set (now := (clock st + d)%Q).
      destruct (Qlt_le_dec (now - s) 10) as [In2 | Out2].
      * right.
        assert (StronglySorted Qle (recent (clock st) pre ++ s :: post)) as S2.
        { rewrite <- K1, <- K. by apply recent_sorted. }
        change (if ltb (now - oldest) 10 then oldest :: recent now rest else recent now rest)
          with (recent now (oldest :: rest)).
        rewrite K1, (recent_tracked now _ s post S2 In2).
        exists (recent now (recent (clock st) pre)), (post ++ [now]).
        split; [by rewrite <- app_assoc|]. rewrite length_app. simpl. lia.
      * left. done.
    + rewrite (check_rate_limit_below st L). simpl. right.
      rewrite K1. exists (recent (clock st) pre), (post ++ [clock st]).
      split; [by rewrite <- app_assoc|]. rewrite length_app. simpl. lia.
Qed.

Lemma admissions_S n st : admissions (S n) st = admission (admissions n st).
Proof. reflexivity. Qed.

Lemma tracked_iter s n k st :
  (1 <= k)%nat -> tracked s k st -> tracked s (k + n) (admissions n st).
Proof.
  intros Hk T. induction n as [|n IH].
  - by rewrite Nat.add_0_r.
  - rewrite Nat.add_succ_r, admissions_S. apply tracked_admission; [lia | done].
Qed.

Lemma tracked_first st : rate_wf st -> tracked (clock (admission st)) 1 (admission st).
Proof.
  intros W. split; [by apply admission_wf|]. right.
  destruct (admission_shape st) as (kept & E & _). exists kept, []. by split.
Qed.

Lemma stamp_admission st : stamp (admission st) = clock (admission st).
Proof.
  unfold stamp. destruct (admission_shape st) as (kept & -> & _). apply last_last.
Qed.

(** The admission that follows a full window waits until the oldest
    timestamp has left it. *)
Lemma tracked_full s st :
  tracked s RATE_LIMIT_WINDOW st -> (10 <= clock (admission st) - s)%Q.
Proof.
  intros [W [Gone | (pre & post & E & Hlen)]].
  - destruct (admission_shape st) as (_ & _ & C & _). lra.
  - destruct W as (S & B & N).
    assert (pre = []) as ->.
    { rewrite E, length_app in N. simpl in N. unfold RATE_LIMIT_WINDOW in *.
      destruct pre; [done|]. simpl in N. lia. }
    simpl in E.
    destruct (Qlt_le_dec (clock st - s) 10) as [In1 | Out1].
    2:{ destruct (admission_shape st) as (_ & _ & C & _). lra. }
    assert (recent (clock st) (request_times st) = s :: post) as K1.
    { rewrite E in S |- *. exact (recent_tracked (clock st) [] s post S In1). }
    assert (RATE_LIMIT_WINDOW <= length (s :: post))%nat as L.
    { simpl. rewrite Hlen. unfold RATE_LIMIT_WINDOW. lia. }
    unfold admission. rewrite (check_rate_limit_full st s post K1 L). simpl. lra.
Qed.

(** *** The retry loop *)

Lemma check_rate_limit_ok st : _check_rate_limit st = (Ok tt, admission st).
Proof.
  unfold admission.
  destruct (le_lt_dec RATE_LIMIT_WINDOW (length (recent (clock st) (request_times st)))) as [L|L].
  - destruct (recent (clock st) (request_times st)) as [|oldest rest] eqn:K.
    { simpl in L. unfold RATE_LIMIT_WINDOW in L. lia. }
    by rewrite (check_rate_limit_full st oldest rest K L).
  - by rewrite (check_rate_limit_below st L).
Qed.

Lemma admission_trace st :
  exists new, trace (admission st) = trace st ++ new /\
              Forall (fun ev => exists d, ev = Sleep d) new.
Proof.
  unfold admission.
  destruct (le_lt_dec RATE_LIMIT_WINDOW (length (recent (clock st) (request_times st)))) as [L|L].
  - destruct (recent (clock st) (request_times st)) as [|oldest rest] eqn:K.
    { simpl in L. unfold RATE_LIMIT_WINDOW in L. lia. }
    rewrite (check_rate_limit_full st oldest rest K L). simpl.
    eexists. split; [reflexivity|]. repeat constructor. eauto.
  - rewrite (check_rate_limit_below st L). simpl. exists []. by rewrite app_nil_r.
Qed.

Section DispatcherProofs.
Variable T : Transport.
Variables (m e : string) (p : params) (uc : bool) (key : string).
Local Abbreviation req := (mkRequest m e p).

Lemma attempt_once_eq attempt backoff st :
  attempt_once T m e p uc key attempt backoff st =
  let st1 := sent T req (admission st) in
  match (T (calls st) req).2 with
  | Response status retry_after body =>
      if (status =? 429)%Z then
        match retry_delay retry_after backoff with
        | Ok delay => (Ok (Continue backoff), slept (inject_Z delay) st1)
        | Raise ex => (Raise ex, st1)
        end
      else if is_success status then
        match body with
        | Some data =>
            (Ok (Return data), if uc then cached key data st1 else st1)
        | None => (Raise JSONDecodeError, st1)
        end
      else on_status_error status retry_after attempt backoff st1
  | Failure => on_request_error attempt backoff st1
  end.
Proof.
  unfold attempt_once, mbind, M_bind, bind. rewrite check_rate_limit_ok.
  unfold client_request, sent.
  destruct (admission_shape st) as (_ & _ & _ & _ & _ & Hc). rewrite Hc.
  destruct (T (calls st) req) as [lat [status h body|]]; simpl; [|done].
  destruct (status =? 429)%Z.
  - unfold lift. destruct (retry_delay h backoff); [|done]. unfold slept, sleep. done.
  - destruct (is_success status); [|done].
    destruct body; [|done]. destruct uc; done.
Qed.

Lemma extends_refl st : extends req st st.
Proof. split; [done|]. split; [done|]. exists []. by rewrite app_nil_r. Qed.

Lemma extends_trans a b c : extends req a b -> extends req b c -> extends req a c.
Proof.
  intros (K1 & C1 & n1 & E1 & F1) (K2 & C2 & n2 & E2 & F2).
  split; [congruence|]. split; [lia|]. exists (n1 ++ n2).
  split; [by rewrite E2, E1, app_assoc | by apply Forall_app].
Qed.

Lemma extends_admission st : extends req st (admission st).
Proof.
  destruct (admission_shape st) as (_ & _ & _ & K & _ & C).
  destruct (admission_trace st) as (new & E & F).
  split; [done|]. split; [lia|]. exists new. split; [done|].
  eapply Forall_impl; [exact F|]. by intros ? [d ->].
Qed.

Lemma extends_sent st : extends req st (sent T req st).
Proof.
  split; [done|]. split; [simpl; lia|]. exists [Send req]. split; [done|].
  by repeat constructor.
Qed.

Lemma extends_slept d st : extends req st (slept d st).
Proof.
  split; [done|]. split; [done|]. exists [Sleep d]. split; [done|].
  by repeat constructor.
Qed.

Lemma extends_cached k d st : extends req st (cached k d st).
Proof. split; [done|]. split; [done|]. exists []. by rewrite app_nil_r. Qed.

Lemma admission_cache st : _cache (admission st) = _cache st.
Proof. by destruct (admission_shape st) as (_ & _ & _ & _ & C & _). Qed.

Lemma admission_calls st : calls (admission st) = calls st.
Proof. by destruct (admission_shape st) as (_ & _ & _ & _ & _ & C). Qed.

(** One turn of the loop: where it leaves the state. *)
Lemma attempt_once_inv attempt backoff st t st' :
  attempt_once T m e p uc key attempt backoff st = (t, st') ->
  extends req st st' /\ calls st' = S (calls st) /\
  match t with
  | Ok (Return data) => settles uc key (T (calls st) req).2 (Ok data) st st'
  | _ =>
      _cache st' = _cache st /\
      forall r, settles uc key (T (calls st) req).2 r st st'
  end.
Proof.
  rewrite attempt_once_eq. cbv zeta.
  pose proof (extends_trans _ _ _ (extends_admission st) (extends_sent (admission st))) as X.
  assert (calls (sent T req (admission st)) = S (calls st)) as Cs
    by (simpl; by rewrite admission_calls).
  assert (_cache (sent T req (admission st)) = _cache st) as Ca
    by (simpl; by rewrite admission_cache).
  unfold settles.
  destruct (T (calls st) req).2 as [status h body|].
  - destruct (status =? 429)%Z eqn:E429.
    { assert (is_success status = false) as ->.
      { apply Z.eqb_eq in E429. by subst. }
      destruct (retry_delay h backoff); intros [= <- <-].
      - split; [eapply extends_trans; [exact X | apply extends_slept]|].
        split; [done|]. split; [done|]. by destruct body.
      - split; [done|]. split; [done|]. split; [done|]. by destruct body. }
    destruct (is_success status) eqn:Es.
    { destruct body as [data|]; intros [= <- <-].
      - split; [destruct uc; [eapply extends_trans; [exact X | apply extends_cached] | done]|].
        split; [by destruct uc|]. split; [done|].
        destruct uc; simpl; by rewrite ?admission_cache.
      - done. }
    unfold on_status_error, raise. rewrite E429.
    destruct (status =? 404)%Z; [intros [= <- <-]; split; [done|]; split; [done|]; split; [done|]; by destruct body|].
    destruct (attempt <? MAX_RETRIES - 1)%nat; [|intros [= <- <-]; split; [done|]; split; [done|]; split; [done|]; by destruct body].
    unfold mbind, M_bind, bind, sleep. cbn -[Nat.ltb Qmin]. intros [= <- <-].
    split; [eapply extends_trans; [exact X | apply (extends_slept backoff)]|].
    split; [done|]. split; [done|]. by destruct body.
  - unfold on_request_error, raise.
    destruct (attempt <? MAX_RETRIES - 1)%nat; [|by intros [= <- <-]].
    unfold mbind, M_bind, bind, sleep. cbn -[Nat.ltb Qmin]. intros [= <- <-].
    split; [eapply extends_trans; [exact X | apply (extends_slept backoff)]|].
    done.
Qed.

Lemma settles_rebase rep r st0 st1 st' :
  _cache st1 = _cache st0 -> settles uc key rep r st1 st' -> settles uc key rep r st0 st'.
Proof. unfold settles. by intros ->. Qed.

(** The whole loop: either no turn ran, or the reply to the last
    transport call settles the result and the cache. *)
Lemma attempts_inv range backoff st r st' :
  attempts T m e p uc key range backoff st = (r, st') ->
  extends req st st' /\
  ((range = [] /\ st' = st /\ r = Ok JNull) \/
   exists n, calls st' = S n /\ (calls st <= n)%nat /\
             settles uc key (T n req).2 r st st').
Proof.
  revert backoff st. induction range as [|attempt rest IH]; intros backoff st; simpl.
  - intros [= <- <-]. split; [apply extends_refl | by left].
  - unfold mbind, M_bind, bind.
    destruct (attempt_once T m e p uc key attempt backoff st) as [t st1] eqn:A.
    apply attempt_once_inv in A as (X & C & S).
    destruct t as [[backoff'|data]|ex].
    + intros R. apply IH in R as (X' & R). destruct S as [Sc S].
      split; [by eapply extends_trans|]. right.
      destruct R as [(_ & -> & ->) | (n & Cn & Ln & Sn)].
      * exists (calls st). split; [done|]. split; [done|]. apply S.
      * exists n. split; [done|]. split; [lia|]. by eapply settles_rebase.
    + intros [= <- <-]. split; [done|]. right. exists (calls st). by repeat split.
    + intros [= <- <-]. split; [done|]. right. exists (calls st).
      split; [done|]. split; [done|]. apply S.
Qed.

End DispatcherProofs.

(** *** Dispatches and parameter dicts *)

Lemma request_miss T m e popt uc st :
  let p := with_api_key popt st in
  let key := _get_cache_key e p in
  uc = false \/ cache_lookup key st = None ->
  _request T m e popt uc st =
  attempts T m e p uc key (seq 0 MAX_RETRIES) INITIAL_BACKOFF st.
Proof.
  intros p key H. unfold _request. fold p. fold key.
  destruct H as [-> | H]; [done|]. rewrite H. by destruct uc.
Qed.

Lemma request_hit T m e popt st data :
  cache_lookup (_get_cache_key e (with_api_key popt st)) st = Some data ->
  _request T m e popt true st = (Ok data, st).
Proof. intros H. unfold _request. by rewrite H. Qed.

Lemma assoc_dict_set {V} k (v : V) d : assoc k (dict_set k v d) = Some v.
Proof.
  induction d as [|[k' v'] d IH]; simpl.
  - by rewrite String.eqb_refl.
  - destruct (String.eqb k k') eqn:E; simpl; [by rewrite String.eqb_refl | by rewrite E].
Qed.

Lemma dict_set_elem {V} k (v : V) d : (k, v) ∈ dict_set k v d.
Proof.
  induction d as [|[k' v'] d IH]; simpl.
  - apply list_elem_of_here.
  - destruct (String.eqb k k'); [apply list_elem_of_here | by apply list_elem_of_further].
Qed.

Lemma dict_set_keys {V} k (v : V) d :
  (dict_set k v d).*1 = if bool_decide (k ∈ d.*1) then d.*1 else d.*1 ++ [k].
Proof.
  induction d as [|[k' v'] d IH]; [done|].
  cbn [dict_set]. destruct (String.eqb k k') eqn:E.
  - apply String.eqb_eq in E as ->. rewrite !fmap_cons. cbn [fst].
    rewrite bool_decide_eq_true_2; [done | apply list_elem_of_here].
  - apply String.eqb_neq in E. rewrite !fmap_cons, IH. cbn [fst].
    destruct (bool_decide (k ∈ d.*1)) eqn:B.
    + apply bool_decide_eq_true in B.
      rewrite bool_decide_eq_true_2; [done | by apply list_elem_of_further].
    + apply bool_decide_eq_false in B.
      rewrite bool_decide_eq_false_2; [done|].
      intros I. apply elem_of_cons in I as [?|?]; done.
Qed.

Lemma dict_set_NoDup {V} k (v : V) d : NoDup d.*1 -> NoDup (dict_set k v d).*1.
Proof.
  intros N. rewrite dict_set_keys. case_bool_decide as B; [done|].
  apply NoDup_app. split; [done|]. split; [|apply NoDup_singleton].
  intros x Hx Hk. apply list_elem_of_singleton in Hk as ->. done.
Qed.

Lemma dict_set_present {V} k (v : V) d :
  k ∈ d.*1 ->
  dict_set k v d = (fun kv => if String.eqb k kv.1 then (k, v) else kv) <$> d \/
  ~ NoDup d.*1.
Proof.
  induction d as [|[k' v'] d IH]; simpl; intros I.
  - by apply elem_of_nil in I.
  - destruct (String.eqb k k') eqn:E.
    + apply String.eqb_eq in E as ->.
      destruct (decide (k' ∈ d.*1)) as [I'|I'].
      * right. intros N. by apply NoDup_cons in N as [? _].
      * left. f_equal. clear IH I. induction d as [|[k2 v2] d IH']; simpl; [done|].
        simpl in I'. apply not_elem_of_cons in I' as [Ne I'].
        apply String.eqb_neq in Ne. rewrite Ne. f_equal. auto.
    + apply String.eqb_neq in E. apply elem_of_cons in I as [?|I]; [done|].
      destruct (IH I) as [-> | N]; [by left | right].
      intros N'. apply N. by apply NoDup_cons in N' as [_ ?].
Qed.

Lemma dict_set_absent {V} k (v : V) d :
  k ∉ d.*1 -> dict_set k v d = d ++ [(k, v)].
Proof.
  induction d as [|[k' v'] d IH]; simpl; intros I; [done|].
  apply not_elem_of_cons in I as [Ne I]. apply String.eqb_neq in Ne.
  rewrite Ne. f_equal. auto.
Qed.

Lemma dict_set_perm {V} k (v : V) d1 d2 :
  NoDup d1.*1 -> d1 ≡ₚ d2 -> dict_set k v d1 ≡ₚ dict_set k v d2.
Proof.
  intros N P.
  assert (NoDup d2.*1) as N2 by (by rewrite <- P).
  destruct (decide (k ∈ d1.*1)) as [I|I].
  - assert (k ∈ d2.*1) as I2 by (by rewrite <- P).
    destruct (dict_set_present k v d1 I) as [-> | ?]; [|done].
    destruct (dict_set_present k v d2 I2) as [-> | ?]; [|done].
    by apply fmap_Permutation.
  - assert (k ∉ d2.*1) as I2 by (by rewrite <- P).
    rewrite !dict_set_absent by done. by rewrite P.
Qed.

(** Identical parameter sets give one fingerprint, whatever the order
    the caller filled the dict in. *)
Lemma with_api_key_perm (p1 p2 : params) st1 st2 e :
  NoDup p1.*1 -> p1 ≡ₚ p2 -> api_key st2 = api_key st1 ->
  _get_cache_key e (with_api_key (Some p2) st2) =
  _get_cache_key e (with_api_key (Some p1) st1).
Proof.
  intros N P K. unfold with_api_key, _get_cache_key. simpl. rewrite K.
  do 3 f_equal. symmetry. apply sorted_perm.
  - by apply dict_set_NoDup.
  - by apply dict_set_perm.
Qed.

(** *** Request fingerprints *)

(** C7. The fingerprint of a request does not depend on the order in
    which the parameters were inserted, and two requests have the same
    fingerprint only if they have the same endpoint and the same
    key/value pairs: for parameter dicts (association lists with
    distinct keys), the cache keys are equal exactly when the endpoints
    are equal and one list of items is a permutation of the other. *)
Theorem cache_key_fingerprint (e1 e2 : string) (p1 p2 : params) :
  NoDup p1.*1 -> NoDup p2.*1 ->
  (_get_cache_key e1 p1 = _get_cache_key e2 p2 <-> e1 = e2 /\ p1 ≡ₚ p2).
Proof.
  intros N1 N2. unfold _get_cache_key. split.
  - intros E. apply cache_key_inj in E as [-> E]. split; [done|].
    by rewrite <- (sorted_permutation p1), E, sorted_permutation.
  - intros [-> P]. by rewrite (sorted_perm p1 p2).
Qed.

Lemma cache_key_fingerprint_witness :
  _get_cache_key "/search/movie" [("query", PStr "heat"); ("year", PInt 1995)] =
  _get_cache_key "/search/movie" [("year", PInt 1995); ("query", PStr "heat")]
  <-> "/search/movie" = "/search/movie" /\
      [("query", PStr "heat"); ("year", PInt 1995)]
      ≡ₚ [("year", PInt 1995); ("query", PStr "heat")].
Proof.
  apply cache_key_fingerprint; apply (bool_decide_unpack _); vm_compute; exact I.
Defined.

(** *** The rate window *)

(** C4. One admission drops the timestamps that are 10 seconds old or
    more; while fewer than 40 remain it logs the current time at once;
    when 40 or more remain it sleeps [10 - (now - oldest)] seconds,
    drops again at the new time and only then logs that time. For a
    client whose log is in order, not ahead of the clock and at most 40
    long (as every admission leaves it), 41 admissions issued back to
    back are such that the 41st is logged at least 10 seconds after the
    first: the oldest of the prior 40 has left the trailing window. *)
Theorem rate_window_admission (st : State) :
  rate_wf st ->
  let now := clock st in
  let kept := recent now (request_times st) in
  ((length kept < RATE_LIMIT_WINDOW)%nat ->
   _check_rate_limit st =
   (Ok tt, mkState (api_key st) (kept ++ [now]) (_cache st) now
             (calls st) (trace st))) /\
  (forall oldest rest,
     kept = oldest :: rest -> (RATE_LIMIT_WINDOW <= length kept)%nat ->
     let sleep_for := (10 - (now - oldest))%Q in
     let later := (now + sleep_for)%Q in
     _check_rate_limit st =
     (Ok tt, mkState (api_key st) (recent later kept ++ [later]) (_cache st)
               later (calls st) (trace st ++ [Sleep sleep_for])) /\
     ~ In oldest (recent later kept)) /\
  let first := admission st in
  let forty_first := admissions 40 first in
  (10 <= stamp forty_first - stamp first)%Q /\
  rate_wf forty_first.
Proof.
  intros W now kept. split; [|split].
  - apply check_rate_limit_below.
  - intros oldest rest K L sleep_for later. subst kept. rewrite K in L |- *. split.
    + by apply check_rate_limit_full.
    + intros I. apply filter_In in I as [_ I]. apply ltb_lt in I.
      unfold later, sleep_for in I. lra.
  - intros first forty_first. subst forty_first.
    pose proof (tracked_iter _ 39 1 first (le_n 1) (tracked_first st W)) as Tr.
    replace (1 + 39)%nat with RATE_LIMIT_WINDOW in Tr by reflexivity.
    rewrite (admissions_S 39). split.
    + apply tracked_full in Tr. rewrite stamp_admission.
      unfold first. by rewrite stamp_admission.
    + apply admission_wf. by destruct Tr.
Qed.

Lemma rate_window_admission_witness :
  rate_wf (fresh "k" 0) /\
  (10 <= stamp (admissions 40 (admission (fresh "k" 0)))
         - stamp (admission (fresh "k" 0)))%Q.
Proof.
  assert (rate_wf (fresh "k" 0)) as W.
  { split; [constructor | split; [constructor | simpl; unfold RATE_LIMIT_WINDOW; lia]]. }
  split; [exact W|].
  exact (proj1 (proj2 (proj2 (rate_window_admission (fresh "k" 0) W)))).
Defined.

(** *** HTTP 404 *)

Lemma bind_raise {A B} (c : M A) (k : A -> M B) st ex st' :
  c st = (Raise ex, st') -> (x ← c; k x) st = (Raise ex, st').
Proof. intros E. unfold mbind, M_bind, bind. by rewrite E. Qed.

Lemma bind_ok {A B} (c : M A) (k : A -> M B) st a st' :
  c st = (Ok a, st') -> (x ← c; k x) st = k a st'.
Proof. intros E. unfold mbind, M_bind, bind. by rewrite E. Qed.

Lemma catch_raise {A} (c : M A) (h : exn -> M A) st ex st' :
  c st = (Raise ex, st') -> catch c h st = h ex st'.
Proof. intros E. unfold catch. by rewrite E. Qed.

Lemma not_found_dispatch T m e popt uc st elapsed retry_after body :
  let p := with_api_key popt st in
  let key := _get_cache_key e p in
  let req := mkRequest m e p in
  uc = false \/ cache_lookup key st = None ->
  T (calls st) req = (elapsed, Response 404 retry_after body) ->
  _request T m e popt uc st =
  (Raise (ValueError "TITLE_NOT_FOUND"), sent T req (admission st)).
Proof.
  intros p key req Miss Rep. rewrite request_miss by exact Miss.
  fold p. fold key. cbn [seq MAX_RETRIES attempts].
  unfold mbind, M_bind, bind. rewrite attempt_once_eq. fold req. rewrite Rep. done.
Qed.

(** C6. A dispatch that misses the cache and whose first transport
    attempt is answered 404 makes exactly that one attempt: after the
    admission comes the send and nothing else (no sleep, no second send),
    and the dispatch raises [ValueError("TITLE_NOT_FOUND")]. The
    [search_title], [get_details] and [get_recommendations] adapters hand
    that exception on unchanged, whichever of their dispatches raised it:
    for [get_recommendations] the one for the details as well as, once
    the details were read, the one for the recommendations. The
    [discover] adapter wraps it, like any [ValueError], as
    [Invalid arguments: TITLE_NOT_FOUND]. *)
Theorem not_found_single_attempt `{FloatRepr} (T : Transport) (m e : string)
    (popt : option params) (uc : bool) (st : State)
    (elapsed : Q) (retry_after : option string) (body : option json) :
  let p := with_api_key popt st in
  let key := _get_cache_key e p in
  let req := mkRequest m e p in
  let not_found := ValueError "TITLE_NOT_FOUND" in
  uc = false \/ cache_lookup key st = None ->
  T (calls st) req = (elapsed, Response 404 retry_after body) ->
  (exists st',
     _request T m e popt uc st = (Raise not_found, st') /\
     calls st' = S (calls st) /\
     trace st' = trace (admission st) ++ [Send req] /\
     _cache st' = _cache st) /\
  (forall q ty y l s s',
     ApiClient.search_title T q ty y l s = (Raise not_found, s') ->
     Tools.search_title T q ty y l s = (Raise not_found, s')) /\
  (forall id ty s s',
     ApiClient.get_details T id ty s = (Raise not_found, s') ->
     Tools.get_details T id ty s = (Raise not_found, s') /\
     Tools.get_recommendations T id ty s = (Raise not_found, s')) /\
  (forall id ty s details s1 s' title genres,
     ApiClient.get_details T id ty s = (Ok details, s1) ->
     Tools.get_or details "title" "name" (JStr "Unknown") = Ok title ->
     Tools.pluck details "genres" "name" = Ok genres ->
     ApiClient.get_recommendations T id ty s1 = (Raise not_found, s') ->
     Tools.get_recommendations T id ty s = (Raise not_found, s')) /\
  (forall ty g y l sb s s',
     ApiClient.discover T ty g y l sb s = (Raise not_found, s') ->
     Tools.discover T ty g y l sb s =
     (Raise (InvalidArguments not_found), s')).
Proof.
  intros p key req not_found Miss Rep. split; [|split; [|split; [|split]]].
  - exists (sent T req (admission st)). split; [by eapply not_found_dispatch|].
    split; [simpl; by rewrite admission_calls|]. split; [done|].
    simpl. apply admission_cache.
  - intros q ty y l s s' E. unfold Tools.search_title.
    erewrite catch_raise; [|by apply bind_raise]. done.
  - intros id ty s s' E. split.
    + unfold Tools.get_details. erewrite catch_raise; [|by apply bind_raise]. done.
    + unfold Tools.get_recommendations.
      erewrite catch_raise; [|by apply bind_raise]. done.
  - intros id ty s details s1 s' title genres D Ti G R.
    unfold Tools.get_recommendations.
    rewrite (catch_raise _ _ s not_found s'); [done|].
    erewrite bind_ok by exact D.
    unfold mbind at 1 2, M_bind, bind, lift. rewrite Ti, G.
    by apply bind_raise.
  - intros ty g y l sb s s' E. unfold Tools.discover.
    erewrite catch_raise; [|by apply bind_raise]. done.
Qed.

Lemma not_found_single_attempt_witness :
  let details := JObj [("id", JInt 7); ("title", JStr "Heat")] in
  let T := first_then (Response 200 None (Some details)) (Response 404 None None) in
  let st := mkState "K" [] ∅ 0 1 [] in
  (exists st',
     _request T "GET" "/movie/0" None true st =
     (Raise (ValueError "TITLE_NOT_FOUND"), st') /\
     calls st' = 2%nat /\
     trace st' =
       trace (admission st)
       ++ [Send (mkRequest "GET" "/movie/0" (with_api_key None st))] /\
     _cache st' = _cache st) /\
  (@Tools.get_recommendations sample_float_repr T 7 "movie" (fresh "K" 0)).1
  = Raise (ValueError "TITLE_NOT_FOUND").
Proof.
  intros details T st.
  pose proof (@not_found_single_attempt sample_float_repr T "GET" "/movie/0"
                None true st 0%Q None None (or_intror eq_refl) eq_refl)
    as (One & _ & _ & Second & _).
  split; [exact One|].
  set (s1 := (ApiClient.get_details T 7 "movie" (fresh "K" 0)).2).
  set (s' := (ApiClient.get_recommendations T 7 "movie" s1).2).
  by rewrite (Second 7%Z "movie" (fresh "K" 0) details s1 s' (JStr "Heat") []
                eq_refl eq_refl eq_refl eq_refl).
Defined.

Lemma discover_wraps_not_found :
  (@Tools.discover sample_float_repr (always (Response 404 None None))
     "movie" None None None None (fresh "K" 0)).1
  = Raise (InvalidArguments (ValueError "TITLE_NOT_FOUND")).
Proof. vm_compute. reflexivity. Qed.

(** *** HTTP 429 *)

Lemma turn_429 T m e p uc key attempt backoff st elapsed hdr body delay :
  T (calls st) (mkRequest m e p) = (elapsed, Response 429 hdr body) ->
  retry_delay hdr backoff = Ok delay ->
  attempt_once T m e p uc key attempt backoff st =
  (Ok (Continue backoff),
   slept (inject_Z delay) (sent T (mkRequest m e p) (admission st))).
Proof.
  intros Rep D. rewrite attempt_once_eq, Rep. cbn [snd Z.eqb Pos.eqb].
  by rewrite D.
Qed.

Lemma calls_turn T req d st :
  calls (slept d (sent T req (admission st))) = S (calls st).
Proof. simpl. by rewrite admission_calls. Qed.

(** C1. When every transport attempt of a dispatch is answered 429, each
    of the three turns of the loop admits, sends, and sleeps
    [int(Retry-After)] seconds when the header is there and
    [int(backoff)] otherwise, where the backoff is still its initial
    1.0: this path never doubles it. The third sleep is followed by the
    end of the loop, so the dispatch returns [None]; it does not raise
    [RateLimitError]. *)
Theorem rate_limited_returns_none (T : Transport) (m e : string)
    (popt : option params) (uc : bool) (st : State) (delay : nat -> Z) :
  let p := with_api_key popt st in
  let key := _get_cache_key e p in
  let req := mkRequest m e p in
  uc = false \/ cache_lookup key st = None ->
  (forall n, exists elapsed hdr body,
      T n req = (elapsed, Response 429 hdr body) /\
      retry_delay hdr INITIAL_BACKOFF = Ok (delay n)) ->
  let turn s := slept (inject_Z (delay (calls s))) (sent T req (admission s)) in
  _request T m e popt uc st = (Ok JNull, turn (turn (turn st))) /\
  forall msg, (_request T m e popt uc st).1 <> Raise (RateLimitError msg).
Proof.
  intros p key req Miss All turn.
  assert (_request T m e popt uc st = (Ok JNull, turn (turn (turn st)))) as E.
  { rewrite request_miss by exact Miss. fold p. fold key.
    cbn [seq MAX_RETRIES attempts]. unfold mbind, M_bind, bind.
    destruct (All (calls st)) as (l1 & h1 & b1 & R1 & D1).
    rewrite (turn_429 _ _ _ _ _ _ _ _ _ _ _ _ _ R1 D1).
    fold req. fold (turn st).
    destruct (All (calls (turn st))) as (l2 & h2 & b2 & R2 & D2).
    rewrite (turn_429 _ _ _ _ _ _ _ _ _ _ _ _ _ R2 D2).
    fold req. fold (turn (turn st)).
    destruct (All (calls (turn (turn st)))) as (l3 & h3 & b3 & R3 & D3).
    rewrite (turn_429 _ _ _ _ _ _ _ _ _ _ _ _ _ R3 D3).
    reflexivity. }
  split; [exact E|]. intros msg. by rewrite E.
Qed.

Lemma rate_limited_returns_none_witness :
  let T := always (Response 429 None None) in
  let st := fresh "K" 0 in
  let req := mkRequest "GET" "/movie/1" (with_api_key None st) in
  let turn s := slept (inject_Z 1) (sent T req (admission s)) in
  _request T "GET" "/movie/1" None true st = (Ok JNull, turn (turn (turn st))).
Proof.
  intros T st req turn.
  refine (proj1 (rate_limited_returns_none T "GET" "/movie/1" None true st
                   (fun _ => 1%Z) _ _)).
  - right. reflexivity.
  - intros n. exists 0%Q, None, None. split; reflexivity.
Defined.

(** The same dispatch on a fresh client, event by event. *)
Example rate_limited_trace :
  let T := always (Response 429 None None) in
  let '(r, st') := _request T "GET" "/movie/1" None true (fresh "K" 0) in
  let send := Send (mkRequest "GET" "/movie/1" [("api_key", PStr "K")]) in
  r = Ok JNull /\
  trace st' = [send; Sleep 1; send; Sleep 1; send; Sleep 1] /\
  calls st' = 3%nat.
Proof. vm_compute. repeat split. Qed.

(** *** Cache writes *)

Lemma cache_lookup_fresh key data st :
  _cache st !! key = Some (data, clock st) -> cache_lookup key st = Some data.
Proof.
  intros E. unfold cache_lookup. rewrite E.
  assert (ltb (clock st - clock st) _cache_ttl = true) as ->; [|done].
  apply ltb_lt. unfold _cache_ttl. lra.
Qed.

(** What a dispatch that reached the network leaves behind. *)
Lemma request_settles T m e popt uc st r st' :
  let p := with_api_key popt st in
  let key := _get_cache_key e p in
  let req := mkRequest m e p in
  _request T m e popt uc st = (r, st') ->
  extends req st st' /\
  (st' = st \/
   exists n, calls st' = S n /\ (calls st <= n)%nat /\
             settles uc key (T n req).2 r st st').
Proof.
  intros p key req. unfold _request. fold p. fold key.
  destruct (if uc then cache_lookup key st else None) as [data|].
  - intros [= <- <-]. split; [apply extends_refl | by left].
  - intros E. apply attempts_inv in E as [X [(_ & -> & _) | R]].
    + split; [done | by left].
    + split; [done | by right].
Qed.

Lemma dispatch_settles_cache T m e popt uc st st' r n status retry_after data :
  let p := with_api_key popt st in
  let key := _get_cache_key e p in
  let req := mkRequest m e p in
  _request T m e popt uc st = (r, st') ->
  calls st' = S n -> (calls st <= n)%nat ->
  (T n req).2 = Response status retry_after (Some data) ->
  is_success status = true ->
  r = Ok data /\
  _cache st' = (if uc then <[key := (data, clock st')]> (_cache st) else _cache st).
Proof.
  intros p key req E C L Rep S.
  apply request_settles in E as [_ [-> | (n' & C' & _ & St)]]; [lia|].
  fold p key req in St.
  assert (n' = n) as -> by lia. unfold settles in St. by rewrite Rep, S in St.
Qed.

(** C2. When the last transport call of a dispatch is answered 2xx with
    a JSON body, the dispatch returns that body. With [use_cache] true it
    also stores the body under the request's fingerprint, stamped with
    the current time, so the entry is live; with [use_cache] false the
    cache is left exactly as it was. *)
Theorem dispatch_cache_write (T : Transport) (m e : string)
    (popt : option params) (uc : bool) (st st' : State) (r : result json)
    (n : nat) (status : Z) (retry_after : option string) (data : json) :
  let p := with_api_key popt st in
  let key := _get_cache_key e p in
  let req := mkRequest m e p in
  _request T m e popt uc st = (r, st') ->
  calls st' = S n -> (calls st <= n)%nat ->
  (T n req).2 = Response status retry_after (Some data) ->
  is_success status = true ->
  r = Ok data /\
  (uc = true ->
   _cache st' = <[key := (data, clock st')]> (_cache st) /\
   cache_lookup key st' = Some data) /\
  (uc = false -> _cache st' = _cache st).
Proof.
  intros p key req E C L Rep S.
  destruct (dispatch_settles_cache T m e popt uc st st' r n status retry_after
              data E C L Rep S) as [-> Ec].
  fold p key in Ec. split; [done|]. split.
  - intros ->. split; [done|]. apply cache_lookup_fresh.
    rewrite Ec. apply lookup_insert_eq.
  - by intros ->.
Qed.

Lemma dispatch_cache_write_witness :
  let T := always (Response 200 None (Some (JObj [("id", JInt 1)]))) in
  let st := fresh "K" 0 in
  let st' := (_request T "GET" "/movie/1" None true st).2 in
  let key := _get_cache_key "/movie/1" (with_api_key None st) in
  (_request T "GET" "/movie/1" None true st).1 = Ok (JObj [("id", JInt 1)]) /\
  (true = true ->
   _cache st' = <[key := (JObj [("id", JInt 1)], clock st')]> (_cache st) /\
   cache_lookup key st' = Some (JObj [("id", JInt 1)])) /\
  (true = false -> _cache st' = _cache st).
Proof.
  intros T st st' key.
  refine (dispatch_cache_write T "GET" "/movie/1" None true st st' _ 0 200 None
            (JObj [("id", JInt 1)]) _ _ _ _ _).
  - apply surjective_pairing.
  - reflexivity.
  - simpl. lia.
  - reflexivity.
  - reflexivity.
Defined.

(** With [use_cache] false a successful dispatch writes nothing. *)
Lemma uncached_dispatch_writes_nothing :
  let T := always (Response 200 None (Some (JObj [("id", JInt 1)]))) in
  let '(r, st') := _request T "GET" "/movie/1" None false (fresh "K" 0) in
  r = Ok (JObj [("id", JInt 1)]) /\
  _cache st' !! "/movie/1:[('api_key', 'K')]" = None /\
  _get_cache_key "/movie/1" (with_api_key None (fresh "K" 0))
  = "/movie/1:[('api_key', 'K')]".
Proof. vm_compute. repeat split. Qed.

(** *** Cache hits *)

(** C5. Take a dispatch made with [use_cache] true whose last transport
    call was answered 2xx with JSON [data]. A later dispatch for the same
    endpoint and the same parameter set (in any insertion order, with any
    method), made with [use_cache] true while the cache still holds that
    entry and less than 300 seconds after the answer was stored, returns
    [data] and leaves the whole state as it was: no transport call, no
    sleep, no admission. *)
Theorem cache_hit_skips_network (T : Transport) (m1 m2 e : string)
    (p1 p2 : params) (st st1 st2 : State) (r : result json)
    (n : nat) (status : Z) (retry_after : option string) (data : json) :
  let req := mkRequest m1 e (with_api_key (Some p1) st) in
  let key := _get_cache_key e (with_api_key (Some p1) st) in
  NoDup p1.*1 -> p1 ≡ₚ p2 ->
  _request T m1 e (Some p1) true st = (r, st1) ->
  calls st1 = S n -> (calls st <= n)%nat ->
  (T n req).2 = Response status retry_after (Some data) ->
  is_success status = true ->
  api_key st2 = api_key st1 ->
  _cache st2 !! key = _cache st1 !! key ->
  (clock st2 - clock st1 < _cache_ttl)%Q ->
  r = Ok data /\
  _request T m2 e (Some p2) true st2 = (Ok data, st2).
Proof.
  intros req key N P E C L Rep S K Ec Fresh.
  pose proof (request_settles _ _ _ _ _ _ _ _ E) as [(K1 & _) _].
  destruct (dispatch_settles_cache T m1 e (Some p1) true st st1 r n status
              retry_after data E C L Rep S) as (-> & Ei).
  split; [done|]. apply request_hit.
  rewrite (with_api_key_perm p1 p2 st st2 e N P) by congruence.
  fold key. unfold cache_lookup. rewrite Ec, Ei, lookup_insert_eq.
  by rewrite (proj2 (ltb_lt _ _) Fresh).
Qed.

Lemma cache_hit_skips_network_witness :
  let T := always (Response 200 None (Some (JObj [("id", JInt 1)]))) in
  let p1 := [("query", PStr "heat"); ("year", PInt 1995)] in
  let p2 := [("year", PInt 1995); ("query", PStr "heat")] in
  let st := fresh "K" 0 in
  let st1 := (_request T "GET" "/search/movie" (Some p1) true st).2 in
  (_request T "GET" "/search/movie" (Some p1) true st).1
  = Ok (JObj [("id", JInt 1)]) /\
  _request T "GET" "/search/movie" (Some p2) true st1
  = (Ok (JObj [("id", JInt 1)]), st1).
Proof.
  intros T p1 p2 st st1.
  refine (cache_hit_skips_network T "GET" "GET" "/search/movie" p1 p2 st st1 st1
            _ 0 200 None (JObj [("id", JInt 1)]) _ _ _ _ _ _ _ _ _ _).
  - apply (bool_decide_unpack _). vm_compute. exact I.
  - apply perm_swap.
  - apply surjective_pairing.
  - reflexivity.
  - simpl. lia.
  - reflexivity.
  - reflexivity.
  - reflexivity.
  - reflexivity.
  - vm_compute. reflexivity.
Defined.

(** *** The credential *)

Lemma append_assoc (a b c : string) : (a +:+ b) +:+ c = a +:+ (b +:+ c).
Proof.
  induction a as [|x a IH]; [done|].
  change (String x ((a +:+ b) +:+ c) = String x (a +:+ (b +:+ c))). by rewrite IH.
Qed.

Lemma append_empty_r (a : string) : a +:+ "" = a.
Proof.
  induction a as [|x a IH]; [done|].
  change (String x (a +:+ "") = String x a). by rewrite IH.
Qed.

Lemma contains_refl s : contains s s.
Proof. exists "", "". simpl. by rewrite append_empty_r. Qed.

Lemma contains_prepend n h x : contains n h -> contains n (x +:+ h).
Proof.
  intros (pre & post & ->). exists (x +:+ pre), post. by rewrite append_assoc.
Qed.

Lemma contains_append n h x : contains n h -> contains n (h +:+ x).
Proof.
  intros (pre & post & ->). exists pre, (post +:+ x). by rewrite !append_assoc.
Qed.

Lemma contains_cons n h c : contains n h -> contains n (String c h).
Proof. apply (contains_prepend n h (String c "")). Qed.

Lemma join_contains sep x (l : list string) : x ∈ l -> contains x (join sep l).
Proof.
  induction l as [|y l IH]; intros I; [by apply elem_of_nil in I|].
  apply elem_of_cons in I as [-> | I].
  - destruct l; [apply contains_refl | apply contains_append, contains_refl].
  - destruct l as [|z l]; [by apply elem_of_nil in I|].
    change (join sep (y :: z :: l)) with (y +:+ sep +:+ join sep (z :: l)).
    by apply contains_prepend, contains_prepend, IH.
Qed.

Lemma cache_key_contains e (p : params) k v :
  (k, v) ∈ p -> contains (repr_param v) (_get_cache_key e p).
Proof.
  intros I. unfold _get_cache_key, repr_items.
  apply contains_prepend, contains_prepend, contains_prepend, contains_append.
  assert (contains (repr_item (k, v)) (join ", " (map repr_item (sorted p)))) as C.
  { apply join_contains. apply list_elem_of_In, in_map, list_elem_of_In.
    by rewrite sorted_permutation. }
  destruct C as (pre & post & ->).
  apply contains_prepend, contains_append. unfold repr_item. simpl.
  apply contains_cons, contains_prepend, contains_prepend, contains_append,
    contains_refl.
Qed.

Lemma plain_escape q c :
  is_quote q -> plain c = true -> escape_char q c = String c "".
Proof.
  intros [-> | ->]; destruct c as [[] [] [] [] [] [] [] []]; intros E;
    try discriminate E; reflexivity.
Qed.

Lemma plain_no_quote q s :
  is_quote q -> all_plain s = true -> has_char q s = false.
Proof.
  intros Q. induction s as [|c s IH]; simpl; [done|].
  intros E. apply andb_prop in E as [Pc Ps]. rewrite (IH Ps), orb_false_r.
  destruct Q as [-> | ->]; destruct c as [[] [] [] [] [] [] [] []];
    try discriminate Pc; reflexivity.
Qed.

Lemma plain_repr_str s :
  all_plain s = true -> repr_str s = String squote (s +:+ String squote "").
Proof.
  intros E. unfold repr_str, pick_quote.
  rewrite (plain_no_quote squote s (or_introl eq_refl) E). simpl. do 2 f_equal.
  induction s as [|c s IH]; simpl in *; [done|].
  apply andb_prop in E as [Pc Ps].
  rewrite (plain_escape squote c (or_introl eq_refl) Pc). simpl. by rewrite IH.
Qed.

(** C3. Every outbound call of a dispatch carries the credential as the
    query parameter [api_key]. The fingerprint is computed from the
    parameters after the credential was added, so it contains the
    credential as [repr] quotes it (and so the credential itself when it
    has only plain characters); a dispatch adds no cache key other than
    that fingerprint, and the payload it stores under it is a body the
    transport returned. *)
Theorem credential_in_requests_and_keys (T : Transport) (m e : string)
    (popt : option params) (uc : bool) (st st' : State) (r : result json) :
  let p := with_api_key popt st in
  let key := _get_cache_key e p in
  let req := mkRequest m e p in
  _request T m e popt uc st = (r, st') ->
  assoc "api_key" (query req) = Some (PStr (api_key st)) /\
  (exists new, trace st' = trace st ++ new /\ Forall (own_event req) new) /\
  contains (repr_str (api_key st)) key /\
  (all_plain (api_key st) = true -> contains (api_key st) key) /\
  (forall k data ts,
     _cache st' !! k = Some (data, ts) ->
     _cache st !! k = Some (data, ts) \/
     k = key /\
     exists n status retry_after,
       (T n req).2 = Response status retry_after (Some data)).
Proof.
  intros p key req E.
  assert (contains (repr_str (api_key st)) key) as C.
  { apply (cache_key_contains e p "api_key" (PStr (api_key st))), dict_set_elem. }
  split; [apply assoc_dict_set|].
  apply request_settles in E as [(_ & _ & X) R]. fold req in X.
  split; [exact X|]. split; [exact C|]. split.
  - intros Pl. destruct C as (pre & post & ->). rewrite (plain_repr_str _ Pl).
    apply contains_prepend, contains_append, contains_cons, contains_append,
      contains_refl.
  - intros k data ts Hk. destruct R as [-> | (n & _ & _ & St)]; [by left|].
    fold p key req in St. unfold settles in St.
    destruct (T n req).2 as [status h [body|]|] eqn:Rep;
      [|rewrite St in Hk; by left..].
    destruct (is_success status); [|rewrite St in Hk; by left].
    destruct St as [_ St]. rewrite St in Hk.
    destruct uc; [|by left].
    destruct (decide (k = key)) as [-> | Ne].
    + rewrite lookup_insert_eq in Hk. injection Hk as <- <-.
      right. split; [done|]. eauto.
    + rewrite lookup_insert_ne in Hk by done. by left.
Qed.

Lemma credential_in_requests_and_keys_witness :
  let T := always (Response 200 None (Some (JObj [("id", JInt 1)]))) in
  let st := fresh "SECRET" 0 in
  let key := _get_cache_key "/movie/1" (with_api_key None st) in
  contains (repr_str "SECRET") key /\
  (all_plain "SECRET" = true -> contains "SECRET" key).
Proof.
  intros T st key.
  pose proof (credential_in_requests_and_keys T "GET" "/movie/1" None true st
                (_request T "GET" "/movie/1" None true st).2
                (_request T "GET" "/movie/1" None true st).1
                (surjective_pairing _)) as (_ & _ & C & P & _).
  exact (conj C P).
Defined.

(** The key a dispatch caches under spells the credential out. *)
Lemma cache_key_holds_credential :
  let T := always (Response 200 None (Some (JObj [("id", JInt 1)]))) in
  let st' := (_request T "GET" "/movie/1" None true (fresh "SECRET" 0)).2 in
  is_Some (_cache st' !! "/movie/1:[('api_key', 'SECRET')]") /\
  contains "SECRET" "/movie/1:[('api_key', 'SECRET')]".
Proof.
  split.
  - vm_compute. eexists. reflexivity.
  - exists "/movie/1:[('api_key', '", "')]". reflexivity.
Qed.

(** *** Answers without a [results] key *)

Lemma format_first_empty n f : Tools.format_first n f (JArr []) = Ok (JArr []).
Proof. unfold Tools.format_first. simpl. by rewrite firstn_nil. Qed.

Lemma results_default fields :
  assoc "results" fields = None ->
  get (JObj fields) "results" (JArr []) = Ok (JArr []).
Proof. intros E. simpl. by rewrite E. Qed.

Lemma get_not_object data k d :
  (forall fields, data <> JObj fields) -> get data k d = Raise AttributeError.
Proof. intros N. destruct data; try done. by destruct (N fields). Qed.

(** C9. When the dispatch behind a search, a recommendations or a
    discover call returns a JSON object without a [results] key, the
    client operation returns the empty list, and so does the tool adapter
    built on it; no exception is raised. For [discover] this is so once
    the genre lookup, if there is one, has returned. When the dispatch
    returns JSON that is not an object (a list, [null], a number, a
    text), which has no [results] key either, the three operations raise
    [AttributeError] instead, and the adapter turns it into
    [API error: ...]. *)
Theorem missing_results_is_empty `{FloatRepr} (T : Transport)
    (fields : list (string * json)) :
  assoc "results" fields = None ->
  (forall q ty y l st st',
     let endpoint := "/search/" +:+ default "movie" (nonempty ty) in
     let p := set_if "language" (PStr <$> nonempty l)
                (set_if "year" (PInt <$> nonzero y) [("query", PStr q)]) in
     _request T "GET" endpoint (Some p) true st = (Ok (JObj fields), st') ->
     ApiClient.search_title T q ty y l st = (Ok (JArr []), st') /\
     Tools.search_title T q ty y l st = (Ok (JArr []), st')) /\
  (forall id ty st st',
     let endpoint := "/" +:+ ty +:+ "/" +:+ repr_int id +:+ "/recommendations" in
     _request T "GET" endpoint None true st = (Ok (JObj fields), st') ->
     ApiClient.get_recommendations T id ty st = (Ok (JArr []), st')) /\
  (forall ty g y l sb st st1 st' genre_ids,
     match g with
     | Some (name :: names) => _get_genre_ids T ty (name :: names)
     | _ => ret []
     end st = (Ok genre_ids, st1) ->
     _request T "GET" ("/discover/" +:+ ty)
       (Some (discover_params ty genre_ids y l sb)) true st1
     = (Ok (JObj fields), st') ->
     ApiClient.discover T ty g y l sb st = (Ok (JArr []), st') /\
     Tools.discover T ty g y l sb st = (Ok (JArr []), st')) /\
  (forall data,
     (forall fields', data <> JObj fields') ->
     (forall q ty y l st st',
        let endpoint := "/search/" +:+ default "movie" (nonempty ty) in
        let p := set_if "language" (PStr <$> nonempty l)
                   (set_if "year" (PInt <$> nonzero y) [("query", PStr q)]) in
        _request T "GET" endpoint (Some p) true st = (Ok data, st') ->
        ApiClient.search_title T q ty y l st = (Raise AttributeError, st') /\
        Tools.search_title T q ty y l st = (Raise (ApiError AttributeError), st')) /\
     (forall id ty st st',
        let endpoint := "/" +:+ ty +:+ "/" +:+ repr_int id +:+ "/recommendations" in
        _request T "GET" endpoint None true st = (Ok data, st') ->
        ApiClient.get_recommendations T id ty st = (Raise AttributeError, st')) /\
     (forall ty g y l sb st st1 st' genre_ids,
        match g with
        | Some (name :: names) => _get_genre_ids T ty (name :: names)
        | _ => ret []
        end st = (Ok genre_ids, st1) ->
        _request T "GET" ("/discover/" +:+ ty)
          (Some (discover_params ty genre_ids y l sb)) true st1
        = (Ok data, st') ->
        ApiClient.discover T ty g y l sb st = (Raise AttributeError, st') /\
        Tools.discover T ty g y l sb st = (Raise (ApiError AttributeError), st'))).
Proof.
  intros E. split; [|split; [|split]].
  - intros q ty y l st st' endpoint p R.
    assert (ApiClient.search_title T q ty y l st = (Ok (JArr []), st')) as C.
    { unfold ApiClient.search_title. fold endpoint. fold p.
      erewrite bind_ok by exact R. unfold lift. by rewrite results_default. }
    split; [exact C|]. unfold Tools.search_title, catch.
    erewrite bind_ok by exact C. unfold lift. by rewrite format_first_empty.
  - intros id ty st st' endpoint R. unfold ApiClient.get_recommendations.
    fold endpoint. erewrite bind_ok by exact R. unfold lift.
    by rewrite results_default.
  - intros ty g y l sb st st1 st' genre_ids G R.
    assert (ApiClient.discover T ty g y l sb st = (Ok (JArr []), st')) as C.
    { unfold ApiClient.discover. erewrite bind_ok by exact G.
      erewrite bind_ok by exact R. unfold lift. by rewrite results_default. }
    split; [exact C|]. unfold Tools.discover, catch.
    erewrite bind_ok by exact C. unfold lift. by rewrite format_first_empty.
  - intros data N. split; [|split].
    + intros q ty y l st st' endpoint p R.
      assert (ApiClient.search_title T q ty y l st = (Raise AttributeError, st')) as C.
      { unfold ApiClient.search_title. fold endpoint. fold p.
        erewrite bind_ok by exact R. unfold lift. by rewrite get_not_object. }
      split; [exact C|]. unfold Tools.search_title.
      erewrite catch_raise; [|by apply bind_raise]. done.
    + intros id ty st st' endpoint R. unfold ApiClient.get_recommendations.
      fold endpoint. erewrite bind_ok by exact R. unfold lift.
      by rewrite get_not_object.
    + intros ty g y l sb st st1 st' genre_ids G R.
      assert (ApiClient.discover T ty g y l sb st = (Raise AttributeError, st')) as C.
      { unfold ApiClient.discover. erewrite bind_ok by exact G.
        erewrite bind_ok by exact R. unfold lift. by rewrite get_not_object. }
      split; [exact C|]. unfold Tools.discover.
      erewrite catch_raise; [|by apply bind_raise]. done.
Qed.

Lemma missing_results_is_empty_witness :
  let T := always (Response 200 None (Some (JObj [("page", JInt 1)]))) in
  let st := fresh "K" 0 in
  let st' := (_request T "GET" "/search/movie" (Some [("query", PStr "heat")])
                true st).2 in
  ApiClient.search_title T "heat" None None None st = (Ok (JArr []), st') /\
  Tools.search_title T "heat" None None None st = (Ok (JArr []), st').
Proof.
  intros T st st'.
  refine (proj1 (@missing_results_is_empty sample_float_repr T
                   [("page", JInt 1)] _)
            "heat" None None None st st' _).
  - reflexivity.
  - vm_compute. reflexivity.
Defined.

(** Answers that are 2xx, parse as JSON and have no [results] key, and
    yet make the operations raise: a list, on which [get] does not
    exist, and for [discover] a genre list whose entry has no [name]. *)
Lemma body_without_results_raises :
  let listing := always (Response 200 None (Some (JArr []))) in
  let nameless :=
    always (Response 200 None (Some (JObj [("genres", JArr [JObj [("id", JInt 28)]])])))
  in
  (ApiClient.search_title listing "heat" None None None (fresh "K" 0)).1
  = Raise AttributeError /\
  (ApiClient.get_recommendations listing 1 "movie" (fresh "K" 0)).1
  = Raise AttributeError /\
  (@ApiClient.discover listing sample_float_repr "movie" None None None None
     (fresh "K" 0)).1 = Raise AttributeError /\
  (@Tools.search_title listing "heat" None None None (fresh "K" 0)).1
  = Raise (ApiError AttributeError) /\
  (@ApiClient.discover nameless sample_float_repr "movie" (Some ["Action"]) None
     None None (fresh "K" 0)).1 = Raise (KeyError "name").
Proof. vm_compute. repeat split. Qed.

(** *** Normalising a title *)

Lemma get_or_fields fields first second fallback :
  Tools.get_or (JObj fields) first second fallback =
  Ok (por (field fields first JNull) (field fields second fallback)).
Proof.
  unfold Tools.get_or, get, field, por, rbind.
  destruct (assoc first fields) as [a|]; simpl; [|done].
  by destruct (truthy a).
Qed.

Lemma format_title_result_fields fields type :
  Tools.format_title_result (JObj fields) type =
  rbind (Tools.year_of (date_of fields)) (fun year =>
  match assoc "id" fields with
  | Some id =>
      Ok (JObj [("id", id);
                ("title", por (field fields "title" JNull)
                              (field fields "name" (JStr "Unknown")));
                ("type", JStr type); ("year", year);
                ("rating", field fields "vote_average" (JFloat 0));
                ("overview", field fields "overview" (JStr ""));
                ("poster_path", field fields "poster_path" JNull)])
  | None => Raise (KeyError "id")
  end).
Proof.
  unfold Tools.format_title_result. rewrite !get_or_fields. fold (date_of fields).
  unfold rbind at 1. destruct (Tools.year_of (date_of fields)) as [year|ex]; [|done].
  simpl. destruct (assoc "id" fields); done.
Qed.

(** C10. An item that has an [id] key is normalised successfully exactly
    when the year can be read from its date
    ([release_date] if truthy, else [first_air_date], else the empty
    string): the date is falsy, or shorter than 4, or a string whose
    first four characters [int()] accepts. Then every other missing field
    gets its default: title [Unknown] (when [title] and [name] are both
    missing), rating 0.0, overview the empty string, poster path [None],
    and the year is [None] when both date keys are missing or the date is
    a string shorter than 4 characters. Normalisation fails on an item
    without [id] and also on an item whose date cannot be read. *)
Theorem format_title_result_defaults (fields : list (string * json))
    (type : string) :
  let item := JObj fields in
  ((exists out, Tools.format_title_result item type = Ok out) <->
   is_Some (assoc "id" fields) /\
   exists year, Tools.year_of (date_of fields) = Ok year) /\
  (forall out,
     Tools.format_title_result item type = Ok out ->
     exists id title year rating overview poster_path,
       out = JObj [("id", id); ("title", title); ("type", JStr type);
                   ("year", year); ("rating", rating);
                   ("overview", overview); ("poster_path", poster_path)] /\
       assoc "id" fields = Some id /\
       Tools.year_of (date_of fields) = Ok year /\
       (assoc "title" fields = None -> assoc "name" fields = None ->
        title = JStr "Unknown") /\
       (assoc "vote_average" fields = None -> rating = JFloat 0) /\
       (assoc "overview" fields = None -> overview = JStr "") /\
       (assoc "poster_path" fields = None -> poster_path = JNull)) /\
  (assoc "release_date" fields = None -> assoc "first_air_date" fields = None ->
   Tools.year_of (date_of fields) = Ok JNull) /\
  (truthy (date_of fields) = false ->
   Tools.year_of (date_of fields) = Ok JNull) /\
  (forall s, date_of fields = JStr s -> (String.length s < 4)%nat ->
             Tools.year_of (date_of fields) = Ok JNull) /\
  (forall s, date_of fields = JStr s -> (4 <= String.length s)%nat ->
             Tools.year_of (date_of fields) =
             rbind (int_of_str (str_prefix 4 s)) (fun y => Ok (JInt y))).
Proof.
  intros item. subst item. split; [|split; [|split; [|split; [|split]]]].
  - rewrite format_title_result_fields. split.
    + intros [out E]. destruct (Tools.year_of (date_of fields)) as [year|ex];
        [|discriminate]. simpl in E.
      destruct (assoc "id" fields) as [id|]; [|discriminate]. eauto.
    + intros [[id Ei] [year Ey]]. rewrite Ey, Ei. simpl. eauto.
  - intros out E. rewrite format_title_result_fields in E.
    destruct (Tools.year_of (date_of fields)) as [year|ex]; [|discriminate].
    simpl in E. destruct (assoc "id" fields) as [id|]; [|discriminate].
    injection E as <-. do 6 eexists. split; [reflexivity|].
    split; [done|]. split; [done|]. unfold field.
    repeat split; intros; simplify_option_eq; done.
  - intros E1 E2. unfold date_of, field. by rewrite E1, E2.
  - intros Fa. unfold Tools.year_of. by rewrite Fa.
  - intros s -> L. unfold Tools.year_of.
    destruct (truthy (JStr s)); [|done]. unfold len, rbind.
    apply Nat.leb_gt in L. by rewrite L.
  - intros s -> L. unfold Tools.year_of.
    destruct (truthy (JStr s)) eqn:Tr.
    + unfold len, rbind at 1. apply Nat.leb_le in L. by rewrite L.
    + simpl in Tr. apply negb_false_iff, String.eqb_eq in Tr. subst. simpl in L. lia.
Qed.

Lemma format_title_result_defaults_witness :
  exists out,
    Tools.format_title_result (JObj [("id", JInt 603); ("name", JStr "The Matrix")])
      "movie" = Ok out.
Proof.
  apply (proj1 (format_title_result_defaults
                  [("id", JInt 603); ("name", JStr "The Matrix")] "movie")).
  split; [eexists; reflexivity | eexists; reflexivity].
Defined.

(** An item with an [id] whose date does not start with a number: the
    normalisation raises the [ValueError] of [int()]. *)
Lemma unreadable_date_fails :
  assoc "id" [("id", JInt 1); ("release_date", JStr "soon")] = Some (JInt 1) /\
  Tools.format_title_result
    (JObj [("id", JInt 1); ("release_date", JStr "soon")]) "movie"
  = Raise (BadIntLiteral "soon").
Proof. split; reflexivity. Qed.

Example inception_year :
  Tools.format_title_result
    (JObj [("id", JInt 27205); ("title", JStr "Inception");
           ("release_date", JStr "2010-07-16")]) "movie"
  = Ok (JObj [("id", JInt 27205); ("title", JStr "Inception");
              ("type", JStr "movie"); ("year", JInt 2010);
              ("rating", JFloat 0); ("overview", JStr "");
              ("poster_path", JNull)]).
Proof. reflexivity. Qed.

(** *** Recommendation reasons *)

Lemma mapM_Forall2 {A B} (f : A -> result B) xs ys :
  mapM f xs = Ok ys -> Forall2 (fun x y => f x = Ok y) xs ys.
Proof.
  revert ys. induction xs as [|x xs IH]; simpl; intros ys E.
  - injection E as <-. constructor.
  - destruct (f x) as [y|] eqn:Fx; [|discriminate]. simpl in E.
    destruct (mapM f xs) as [ys'|]; [|discriminate]. simpl in E.
    injection E as <-. constructor; auto.
Qed.

Lemma strs_ok parts ss : strs parts = Ok ss -> parts = map JStr ss.
Proof.
  revert ss. induction parts as [|x parts IH]; simpl; intros ss E.
  - by injection E as <-.
  - destruct x; try discriminate. destruct (strs parts) as [ss'|]; [|discriminate].
    simpl in E. injection E as <-. simpl. f_equal. auto.
Qed.

Lemma eqb_cases a b :
  eqb a b = true ->
  (exists x y, number a = Some x /\ number b = Some y /\ (x == y)%Q) \/
  (a = JNull /\ b = JNull) \/ (exists s, a = JStr s /\ b = JStr s).
Proof.
  unfold eqb. destruct (number a) as [x|] eqn:Na, (number b) as [y|] eqn:Nb;
    try discriminate.
  - intros E. apply Qeq_bool_iff in E. left. eauto.
  - destruct a, b; try discriminate; intros E.
    + right. by left.
    + apply String.eqb_eq in E as ->. right. right. eauto.
Qed.

Lemma eqb_refl x : hashable x = true -> eqb x x = true.
Proof.
  destruct x; try discriminate; intros _; unfold eqb; simpl;
    try reflexivity; try (apply Qeq_bool_iff; reflexivity).
  apply String.eqb_refl.
Qed.

Lemma eqb_trans a b c : eqb a b = true -> eqb b c = true -> eqb a c = true.
Proof.
  intros E1 E2. apply eqb_cases in E1, E2.
  destruct E1 as [(x & y & Na & Nb & Exy) | [[-> ->] | (s & -> & ->)]];
  destruct E2 as [(y' & z & Nb' & Nc & Eyz) | [[E ->] | (s' & E & ->)]];
    try (rewrite Nb' in Nb; injection Nb as <-);
    try discriminate; simplify_eq; try done.
  - unfold eqb. rewrite Na, Nc. apply Qeq_bool_iff. by rewrite Exy.
  - unfold eqb. simpl. apply String.eqb_refl.
Qed.

Lemma member_spec x l :
  Tools.member x l = true <-> exists y, In y l /\ eqb x y = true.
Proof. apply existsb_exists. Qed.

Lemma member_common id (ids cand : list json) :
  Tools.member id (List.filter (fun x => Tools.member x cand) ids) = true ->
  Tools.member id cand = true.
Proof.
  rewrite member_spec. intros (y & I & E). apply filter_In in I as [_ M].
  apply member_spec in M as (z & Iz & Ez). apply member_spec.
  exists z. split; [done|]. by eapply eqb_trans.
Qed.

Lemma Forall2_in_l {A B} (P : A -> B -> Prop) xs ys x :
  Forall2 P xs ys -> x ∈ xs -> exists y, y ∈ ys /\ P x y.
Proof.
  induction 1 as [|a b xs ys Pab F IH]; intros I; [by apply elem_of_nil in I|].
  apply elem_of_cons in I as [-> | I].
  - exists b. split; [apply list_elem_of_here | done].
  - destruct (IH I) as (y & Iy & Py). exists y.
    split; [by apply list_elem_of_further | done].
Qed.

Lemma Forall2_in_r {A B} (P : A -> B -> Prop) xs ys y :
  Forall2 P xs ys -> y ∈ ys -> exists x, x ∈ xs /\ P x y.
Proof.
  induction 1 as [|a b xs ys Pab F IH]; intros I; [by apply elem_of_nil in I|].
  apply elem_of_cons in I as [-> | I].
  - exists a. split; [apply list_elem_of_here | done].
  - destruct (IH I) as (x & Ix & Px). exists x.
    split; [by apply list_elem_of_further | done].
Qed.

Lemma pluck_source details key :
  Tools.pluck details "genres" key =
  rbind (source_genres details) (mapM (fun x => subscript x key)).
Proof.
  unfold Tools.pluck, source_genres.
  destruct (get details "genres" (JArr [])) as [listed|]; [|done]. simpl.
  by destruct (iter listed).
Qed.

Lemma common_names_source details common :
  Tools.common_names details common =
  rbind (source_genres details) (fun gs =>
  rbind (mapM (fun g =>
           rbind (subscript g "id") (fun id =>
           if Tools.member id common
           then rbind (subscript g "name") (fun name => Ok [name])
           else Ok [])) gs) (fun picked => Ok (concat picked))).
Proof.
  unfold Tools.common_names, source_genres.
  destruct (get details "genres" (JArr [])) as [listed|]; [|done]. simpl.
  by destruct (iter listed).
Qed.

(** The shared-genres qualifier: absent when no genre id is shared,
    otherwise one qualifier naming the first one or two shared genres. *)
Lemma shared_part_spec details r parts :
  Tools.shared_part details r = Ok parts ->
  (~ shares_genre details r /\ parts = []) \/
  (shares_genre details r /\
   exists shown,
     (1 <= length shown <= 2)%nat /\ Forall (shared_name details r) shown /\
     parts = ["shared " +:+ join ", " shown +:+ " genres"]).
Proof.
  unfold Tools.shared_part.
  destruct (get r "genre_ids" (JArr [])) as [rg|] eqn:Grg; [|discriminate].
  cbn [rbind]. rewrite pluck_source.
  destruct (source_genres details) as [gs|] eqn:Sg; [|discriminate].
  cbn [rbind].
  destruct (mapM (fun x => subscript x "id") gs) as [ids|] eqn:Mids; [|discriminate].
  cbn [rbind]. apply mapM_Forall2 in Mids.
  unfold Tools.common_ids, Tools.to_set.
  destruct (forallb hashable ids) eqn:Hh; cbn [rbind]; [|discriminate].
  destruct (iter rg) as [cand|] eqn:Icand; cbn [rbind]; [|discriminate].
  destruct (forallb hashable cand) eqn:Hc; cbn [rbind]; [|discriminate].
  assert (candidate_ids r = Ok cand) as Cr.
  { unfold candidate_ids. by rewrite Grg. }
  set (common := List.filter (fun x => Tools.member x cand) ids).
  assert (shares_genre details r -> common <> []) as S1.
  { intros (gs' & cand' & g & id & Sg' & Cr' & Ig & Eid & M) E.
    rewrite Sg in Sg'. injection Sg' as <-. rewrite Cr in Cr'. injection Cr' as <-.
    destruct (Forall2_in_l _ _ _ _ Mids Ig) as (y & Iy & Ey). cbv beta in Ey.
    rewrite Eid in Ey. injection Ey as <-.
    assert (In id common) as I.
    { apply filter_In. split; [by apply list_elem_of_In | done]. }
    rewrite E in I. destruct I. }
  destruct common as [|c cs] eqn:Ecommon.
  { intros [= <-]. left. split; [|done]. intros S. by apply S1 in S. }
  rewrite common_names_source, Sg. cbn [rbind].
  destruct (mapM _ gs) as [picked|] eqn:Mp; [|discriminate]. cbn [rbind].
  apply mapM_Forall2 in Mp.
  assert (In c common) as Ic by (rewrite Ecommon; by left).
  pose proof Ic as Ic'. unfold common in Ic'. apply filter_In in Ic' as [Ici Mc].
  apply list_elem_of_In in Ici.
  destruct (Forall2_in_r _ _ _ _ Mids Ici) as (g & Ig & Eg). cbv beta in Eg.
  assert (Tools.member c (c :: cs) = true) as Mcc.
  { apply member_spec. exists c. split; [by left|]. apply eqb_refl.
    rewrite forallb_forall in Hh. apply Hh. by apply list_elem_of_In. }
  assert (shares_genre details r) as Sh.
  { exists gs, cand, g, c. by repeat split. }
  assert (forall s, JStr s ∈ concat picked -> shared_name details r s) as Named.
  { intros s Is. apply list_elem_of_In, in_concat in Is as (pk & Ipk & Is).
    apply list_elem_of_In in Ipk, Is.
    destruct (Forall2_in_r _ _ _ _ Mp Ipk) as (g' & Ig' & Eg'). cbv beta in Eg'.
    destruct (subscript g' "id") as [id|] eqn:Eid; cbn [rbind] in Eg';
      [|discriminate Eg'].
    destruct (Tools.member id (c :: cs)) eqn:Mid.
    - destruct (subscript g' "name") as [name|] eqn:En; cbn [rbind] in Eg';
        [|discriminate Eg'].
      injection Eg' as <-. apply list_elem_of_singleton in Is as <-.
      exists gs, cand, g', id. repeat split; try done.
      rewrite <- Ecommon in Mid. by apply member_common in Mid.
    - injection Eg' as <-. by apply elem_of_nil in Is. }
  destruct (concat picked) as [|n1 rest] eqn:Enames.
  { exfalso. destruct (Forall2_in_l _ _ _ _ Mp Ig) as (pk & Ipk & Epk). cbv beta in Epk.
    rewrite Eg in Epk. cbn [rbind] in Epk. rewrite Mcc in Epk.
    destruct (subscript g "name") as [name|]; cbn [rbind] in Epk;
      [|discriminate Epk].
    injection Epk as <-.
    assert (name ∈ concat picked) as I.
    { apply list_elem_of_In, in_concat. exists [name].
      split; [by apply list_elem_of_In | by left]. }
    rewrite Enames in I. by apply elem_of_nil in I. }
  destruct (strs (firstn 2 (n1 :: rest))) as [shown|] eqn:Es; [|discriminate].
  intros [= <-]. right. split; [exact Sh|]. exists shown.
  apply strs_ok in Es.
  split; [|split; [|done]].
  - apply (f_equal (@length _)) in Es. rewrite length_map in Es. rewrite <- Es.
    rewrite length_firstn. cbn [length]. lia.
  - apply Forall_forall. intros s Is. apply Named.
    assert (JStr s ∈ firstn 2 (n1 :: rest)) as I.
    { rewrite Es. apply list_elem_of_fmap. by exists s. }
    by apply (subseteq_take 2 (n1 :: rest)).
Qed.

(** The items [get_recommendations] returns are the loop body applied to
    the first ten candidates, in order. *)
Lemma get_recommendations_items `{FloatRepr} T id ty st out st' :
  Tools.get_recommendations T id ty st = (Ok out, st') ->
  exists details st1 original_title results rs items,
    ApiClient.get_details T id ty st = (Ok details, st1) /\
    Tools.get_or details "title" "name" (JStr "Unknown") = Ok original_title /\
    ApiClient.get_recommendations T id ty st1 = (Ok results, st') /\
    rbind (slice_prefix 10 results) iter = Ok rs /\
    out = JArr items /\
    Forall2 (fun r item => Tools.recommendation details original_title r = Ok item)
      rs items.
Proof.
  unfold Tools.get_recommendations, catch, mbind, M_bind, bind, lift, raise.
  destruct (ApiClient.get_details T id ty st) as [[details|ex] st1] eqn:D;
    [|discriminate].
  destruct (Tools.get_or details "title" "name" (JStr "Unknown"))
    as [original_title|] eqn:Ti; [|discriminate].
  destruct (Tools.pluck details "genres" "name"); [|discriminate].
  destruct (ApiClient.get_recommendations T id ty st1) as [[results|ex] st2] eqn:R;
    [|discriminate].
  unfold Tools.format_first.
  destruct (slice_prefix 10 results) as [page|] eqn:Sl; cbn [rbind]; [|discriminate].
  destruct (iter page) as [rs|] eqn:It; cbn [rbind]; [|discriminate].
  destruct (mapM (Tools.recommendation details original_title) rs) as [items|] eqn:Mp;
    cbn [rbind]; [|discriminate].
  intros [= <- <-]. apply mapM_Forall2 in Mp.
  exists details, st1, original_title, results, rs, items.
  repeat split; try done. by rewrite Sl.
Qed.

(** The loop body: the reason it builds is the specified one. *)
Lemma recommendation_explained `{FloatRepr} (details original_title r item : json) :
  Tools.recommendation details original_title r = Ok item ->
  explains details original_title r item.
Proof.
  unfold explains, Tools.recommendation.
  destruct (Tools.get_or r "release_date" "first_air_date" (JStr ""))
    as [release_date|]; cbn [rbind]; [|discriminate].
  destruct (Tools.year_of release_date) as [year|]; cbn [rbind]; [|discriminate].
  destruct (Tools.shared_part details r) as [parts|] eqn:Sp; cbn [rbind];
    [|discriminate].
  unfold Tools.highly_rated.
  destruct (get r "vote_average" (JInt 0)) as [vote|] eqn:Gv; cbn [rbind];
    [|discriminate].
  unfold ge_float. destruct (number vote) as [rating|] eqn:Nv; cbn [rbind];
    [|discriminate].
  destruct (subscript r "id") as [id|]; cbn [rbind]; [|discriminate].
  destruct (Tools.get_or r "title" "name" (JStr "Unknown")) as [title|];
    cbn [rbind]; [|discriminate].
  intros [= <-].
  apply shared_part_spec in Sp.
  destruct Sp as [[No ->] | (Yes & shown & Len & Names & ->)].
  - eexists _, _, vote, rating, [].
    split; [reflexivity|]. split; [reflexivity|]. split; [done|]. split; [done|].
    split; [|split; [done|split; [done|]]].
    + destruct (Qle_bool 7.5 rating); cbn [app reason_spec];
        [reflexivity | by rewrite append_empty_r].
    + intros _ ->. cbn [app]. by rewrite append_empty_r.
  - eexists _, _, vote, rating, shown.
    split; [reflexivity|]. split; [reflexivity|]. split; [done|]. split; [done|].
    split; [|split; [done|split; [done|done]]].
    destruct shown as [|s1 shown']; [simpl in Len; lia|].
    set (names := join ", " (s1 :: shown')).
    destruct (Qle_bool 7.5 rating); cbn [app reason_spec].
    + change (join ", " ["shared " +:+ names +:+ " genres"; "highly rated"])
        with (("shared " +:+ names +:+ " genres") +:+ ", " +:+ "highly rated").
      rewrite !append_assoc. reflexivity.
    + change (join ", " ["shared " +:+ names +:+ " genres"])
        with ("shared " +:+ names +:+ " genres").
      rewrite !append_assoc. reflexivity.
Qed.


(** C8. Every item [get_recommendations] returns is made from one of
    the first ten candidates the client returned for the title, in
    order, with the details and the title the client returned for that
    same title as the source. Its reason is the plain sentence
    [Similar to {original_title}] when no genre id is shared and the
    rating is below 7.5; when the candidate lists the id of a genre of
    the source, a qualifier naming one or two of the shared genres is
    included; when the rating is at least 7.5, [highly rated] is
    included; the qualifiers that apply sit, joined by a comma, in one
    parenthetical appended to the sentence, and there is no parenthetical
    when none applies. *)
Theorem recommendation_reason `{FloatRepr} (T : Transport) (id : Z)
    (type : string) (st st' : State) (out : json) :
  Tools.get_recommendations T id type st = (Ok out, st') ->
  exists details st1 original_title results candidates items,
    ApiClient.get_details T id type st = (Ok details, st1) /\
    Tools.get_or details "title" "name" (JStr "Unknown") = Ok original_title /\
    ApiClient.get_recommendations T id type st1 = (Ok results, st') /\
    rbind (slice_prefix 10 results) iter = Ok candidates /\
    out = JArr items /\
    Forall2 (explains details original_title) candidates items.
Proof.
  intros E.
  apply get_recommendations_items in E
    as (details & st1 & original_title & results & rs & items
        & D & Ti & R & Sl & -> & F).
  exists details, st1, original_title, results, rs, items.
  repeat (split; [done|]).
  eapply Forall2_impl; [exact F|]. intros r item. apply recommendation_explained.
Qed.

Lemma recommendation_reason_witness :
  let source :=
    JObj [("title", JStr "Heat");
          ("genres", JArr [JObj [("id", JInt 28); ("name", JStr "Action")];
                           JObj [("id", JInt 80); ("name", JStr "Crime")]])] in
  let r := JObj [("id", JInt 7); ("title", JStr "Ronin");
                 ("genre_ids", JArr [JInt 28; JInt 53]);
                 ("vote_average", JFloat 8.1)] in
  let T := first_then (Response 200 None (Some source))
             (Response 200 None (Some (JObj [("results", JArr [r])]))) in
  let st := fresh "K" 0 in
  let st' := (@Tools.get_recommendations sample_float_repr T 949 "movie" st).2 in
  let out :=
    JArr [JObj [("id", JInt 7); ("title", JStr "Ronin"); ("year", JNull);
                ("reason",
                 JStr "Similar to Heat (shared Action genres, highly rated)")]] in
  (@Tools.get_recommendations sample_float_repr T 949 "movie" st).1 = Ok out /\
  exists details st1 original_title results candidates items,
    ApiClient.get_details T 949 "movie" st = (Ok details, st1) /\
    Tools.get_or details "title" "name" (JStr "Unknown") = Ok original_title /\
    ApiClient.get_recommendations T 949 "movie" st1 = (Ok results, st') /\
    rbind (slice_prefix 10 results) iter = Ok candidates /\
    out = JArr items /\
    Forall2 (@explains sample_float_repr details original_title) candidates items.
Proof.
  intros source r T st st' out.
  assert (@Tools.get_recommendations sample_float_repr T 949 "movie" st = (Ok out, st'))
    as E by (vm_compute; reflexivity).
  split; [by rewrite E|].
  exact (@recommendation_reason sample_float_repr T 949 "movie" st st' out E).
Defined.

(** *** Retries with backoff *)

Lemma sent_cache T req st : _cache (sent T req st) = _cache st.
Proof. reflexivity. Qed.

Lemma slept_cache d st : _cache (slept d st) = _cache st.
Proof. reflexivity. Qed.

Lemma sent_calls T req st : calls (sent T req st) = S (calls st).
Proof. reflexivity. Qed.

Lemma slept_calls d st : calls (slept d st) = calls st.
Proof. reflexivity. Qed.

Lemma cached_calls k d st : calls (cached k d st) = calls st.
Proof. reflexivity. Qed.

Create Rewrite HintDb steps.
#[global] Hint Rewrite sent_cache slept_cache admission_cache sent_calls
  slept_calls admission_calls cached_calls : steps.

Lemma turn_transient T m e p uc key attempt backoff st :
  let req := mkRequest m e p in
  let rep := (T (calls st) req).2 in
  transient rep = true ->
  attempt_once T m e p uc key attempt backoff st =
  if (attempt <? MAX_RETRIES - 1)%nat
  then (Ok (Continue (Qmin (backoff * 2) MAX_BACKOFF)),
        slept backoff (sent T req (admission st)))
  else (Raise (transient_error rep), sent T req (admission st)).
Proof.
  intros req rep Tr. rewrite attempt_once_eq. cbv zeta. fold req. fold rep.
  destruct rep as [status h body|]; cbn [transient transient_error] in *.
  - apply andb_prop in Tr as [Tr N429]. apply andb_prop in Tr as [Ns N404].
    apply negb_true_iff in Ns, N404, N429. rewrite N429, Ns.
    unfold on_status_error. rewrite N404, N429.
    destruct (attempt <? MAX_RETRIES - 1)%nat; reflexivity.
  - unfold on_request_error. destruct (attempt <? MAX_RETRIES - 1)%nat; reflexivity.
Qed.

Lemma turn_success T m e p uc key attempt backoff st status hdr data :
  let req := mkRequest m e p in
  (T (calls st) req).2 = Response status hdr (Some data) ->
  is_success status = true ->
  attempt_once T m e p uc key attempt backoff st =
  (Ok (Return data),
   if uc then cached key data (sent T req (admission st))
   else sent T req (admission st)).
Proof.
  intros req Rep S. rewrite attempt_once_eq. cbv zeta. fold req. rewrite Rep.
  assert ((status =? 429)%Z = false) as ->.
  { destruct (status =? 429)%Z eqn:E; [|done]. apply Z.eqb_eq in E. by subst. }
  by rewrite S.
Qed.

(** X1. When the replies to all three attempts of a dispatch are
    transport errors or statuses other than 2xx, 404 and 429, the
    dispatch sends three times, sleeps 1 second after the first send and
    2 seconds after the second, does not sleep after the third, and
    raises the error of the third reply; the cache is left as it was. *)
Theorem transient_errors_exhaust_retries (T : Transport) (m e : string)
    (popt : option params) (uc : bool) (st : State) :
  let p := with_api_key popt st in
  let key := _get_cache_key e p in
  let req := mkRequest m e p in
  uc = false \/ cache_lookup key st = None ->
  (forall n, transient (T n req).2 = true) ->
  let first := sent T req (admission st) in
  let second := sent T req (admission (slept 1 first)) in
  let third := sent T req (admission (slept 2 second)) in
  _request T m e popt uc st =
    (Raise (transient_error (T (calls st + 2)%nat req).2), third) /\
  calls third = (calls st + 3)%nat /\
  _cache third = _cache st.
Proof.
  intros p key req Miss All first second third.
  assert (calls first = S (calls st)) as C1 by (unfold first; by (autorewrite with steps)).
  assert (calls second = S (S (calls st))) as C2
    by (unfold second; autorewrite with steps; by rewrite C1).
  split; [|split].
  - rewrite request_miss by exact Miss. fold p. fold key.
    cbn [seq MAX_RETRIES attempts]. unfold mbind, M_bind, bind.
    rewrite turn_transient by apply All. cbn [Nat.ltb Nat.leb Nat.sub MAX_RETRIES].
    fold req. fold first.
    rewrite turn_transient by apply All. cbn [Nat.ltb Nat.leb Nat.sub MAX_RETRIES].
    fold req.
    change (slept INITIAL_BACKOFF first) with (slept 1 first). fold second.
    rewrite turn_transient by apply All. cbn [Nat.ltb Nat.leb Nat.sub MAX_RETRIES].
    fold req.
    change (slept (Qmin (INITIAL_BACKOFF * 2) MAX_BACKOFF) second)
      with (slept 2 second).
    fold third.
    replace (calls (slept 2 second)) with (calls st + 2)%nat by (autorewrite with steps; lia).
    reflexivity.
  - unfold third. autorewrite with steps. lia.
  - unfold third, second, first. by (autorewrite with steps).
Qed.

Lemma transient_errors_exhaust_retries_witness :
  let T := always (Response 503 None None) in
  let st := fresh "K" 0 in
  let req := mkRequest "GET" "/movie/1" (with_api_key None st) in
  let first := sent T req (admission st) in
  let second := sent T req (admission (slept 1 first)) in
  let third := sent T req (admission (slept 2 second)) in
  _request T "GET" "/movie/1" None true st = (Raise (HTTPStatusError 503), third) /\
  calls third = 3%nat /\
  _cache third = _cache st.
Proof.
  intros T st req first second third.
  refine (transient_errors_exhaust_retries T "GET" "/movie/1" None true st _ _).
  - right. reflexivity.
  - intros n. reflexivity.
Defined.

(** The same dispatches on a fresh client, event by event. *)
Example server_error_trace :
  let T := always (Response 500 None None) in
  let '(r, st') := _request T "GET" "/movie/1" None true (fresh "K" 0) in
  let send := Send (mkRequest "GET" "/movie/1" [("api_key", PStr "K")]) in
  r = Raise (HTTPStatusError 500) /\
  trace st' = [send; Sleep 1; send; Sleep 2; send] /\
  clock st' = 3%Q.
Proof. vm_compute. repeat split. Qed.

Example transport_error_trace :
  let T := always Failure in
  let '(r, st') := _request T "GET" "/movie/1" None true (fresh "K" 0) in
  let send := Send (mkRequest "GET" "/movie/1" [("api_key", PStr "K")]) in
  r = Raise RequestError /\
  trace st' = [send; Sleep 1; send; Sleep 2; send].
Proof. vm_compute. repeat split. Qed.

(** X2. When the first attempt of a dispatch fails with a transport
    error or a status other than 2xx, 404 and 429, and the second is
    answered 2xx with a JSON body, the dispatch sleeps 1 second between
    the two sends and returns the body; with [use_cache] true the body is
    cached as after a first-attempt success. *)
Theorem transient_error_then_success (T : Transport) (m e : string)
    (popt : option params) (uc : bool) (st : State)
    (status : Z) (hdr : option string) (data : json) :
  let p := with_api_key popt st in
  let key := _get_cache_key e p in
  let req := mkRequest m e p in
  uc = false \/ cache_lookup key st = None ->
  transient (T (calls st) req).2 = true ->
  (T (S (calls st)) req).2 = Response status hdr (Some data) ->
  is_success status = true ->
  let first := sent T req (admission st) in
  let second := sent T req (admission (slept 1 first)) in
  _request T m e popt uc st =
    (Ok data, if uc then cached key data second else second) /\
  calls second = (calls st + 2)%nat.
Proof.
  intros p key req Miss Tr Rep Hs first second.
  assert (calls first = S (calls st)) as C1 by (unfold first; by (autorewrite with steps)).
  split.
  - rewrite request_miss by exact Miss. fold p. fold key.
    cbn [seq MAX_RETRIES attempts]. unfold mbind, M_bind, bind.
    rewrite turn_transient by exact Tr. cbn [Nat.ltb Nat.leb Nat.sub MAX_RETRIES].
    fold req. fold first.
    change (slept INITIAL_BACKOFF first) with (slept 1 first).
    rewrite (turn_success T m e p uc key 1 _ (slept 1 first) status hdr data);
      [reflexivity | | exact Hs].
    autorewrite with steps. by rewrite C1.
  - unfold second. autorewrite with steps. lia.
Qed.

Lemma transient_error_then_success_witness :
  let T := first_then Failure (Response 200 None (Some (JObj [("id", JInt 1)]))) in
  let st := fresh "K" 0 in
  let req := mkRequest "GET" "/movie/1" (with_api_key None st) in
  let key := _get_cache_key "/movie/1" (with_api_key None st) in
  let second := sent T req (admission (slept 1 (sent T req (admission st)))) in
  _request T "GET" "/movie/1" None true st =
    (Ok (JObj [("id", JInt 1)]), cached key (JObj [("id", JInt 1)]) second) /\
  calls second = 2%nat.
Proof.
  intros T st req key second.
  refine (transient_error_then_success T "GET" "/movie/1" None true st 200 None
            (JObj [("id", JInt 1)]) _ _ _ _).
  - right. reflexivity.
  - reflexivity.
  - reflexivity.
  - reflexivity.
Defined.

(** *** What a dispatch costs and what it can raise *)

Lemma attempts_calls T m e p uc key range backoff st r st' :
  attempts T m e p uc key range backoff st = (r, st') ->
  (calls st <= calls st' <= calls st + length range)%nat /\
  (range <> [] -> (calls st < calls st')%nat).
Proof.
  revert backoff st. induction range as [|attempt rest IH]; intros backoff st; simpl.
  - intros [= <- <-]. split; [lia | done].
  - unfold mbind, M_bind, bind.
    destruct (attempt_once T m e p uc key attempt backoff st) as [t st1] eqn:A.
    apply attempt_once_inv in A as (_ & C & _).
    destruct t as [[backoff'|data]|ex].
    + intros R. apply IH in R as [B _]. split; [lia | intros _; lia].
    + intros [= <- <-]. split; [lia | intros _; lia].
    + intros [= <- <-]. split; [lia | intros _; lia].
Qed.

(** X3. A dispatch that is not served from the cache (caching off, no
    entry, or an expired one) makes at least one and at most
    [MAX_RETRIES] = 3 transport calls, whatever the transport answers. *)
Theorem dispatch_call_bound (T : Transport) (m e : string)
    (popt : option params) (uc : bool) (st st' : State) (r : result json) :
  let key := _get_cache_key e (with_api_key popt st) in
  uc = false \/ cache_lookup key st = None ->
  _request T m e popt uc st = (r, st') ->
  (calls st + 1 <= calls st' <= calls st + MAX_RETRIES)%nat.
Proof.
  intros key Miss E. rewrite request_miss in E by exact Miss.
  apply attempts_calls in E as [B L]. rewrite length_seq in B.
  assert (calls st < calls st')%nat by (apply L; discriminate).
  unfold MAX_RETRIES in *. lia.
Qed.

Lemma dispatch_call_bound_witness :
  let T := first_then (Response 429 (Some "0") None) Failure in
  let st := fresh "K" 0 in
  let st' := (_request T "GET" "/tv/7" None true st).2 in
  (calls st + 1 <= calls st' <= calls st + MAX_RETRIES)%nat.
Proof.
  intros T st st'.
  refine (dispatch_call_bound T "GET" "/tv/7" None true st st'
            (_request T "GET" "/tv/7" None true st).1 _ _).
  - right. reflexivity.
  - apply surjective_pairing.
Defined.

(** X4. A dispatch never drops or alters a cache entry stored under
    another fingerprint than its own, and an entry under its own is only
    ever replaced, not removed; a dispatch that raises leaves the whole
    cache exactly as it was. *)
Theorem dispatch_cache_frame (T : Transport) (m e : string)
    (popt : option params) (uc : bool) (st st' : State) (r : result json) :
  let key := _get_cache_key e (with_api_key popt st) in
  _request T m e popt uc st = (r, st') ->
  (forall k, k <> key -> _cache st' !! k = _cache st !! k) /\
  (forall k, is_Some (_cache st !! k) -> is_Some (_cache st' !! k)) /\
  (forall ex, r = Raise ex -> _cache st' = _cache st).
Proof.
  intros key E.
  assert (_cache st' = _cache st \/
          exists data, r = Ok data /\ uc = true /\
                       _cache st' = <[key := (data, clock st')]> (_cache st)) as [C | C].
  { apply request_settles in E as [_ [-> | (n & _ & _ & St)]]; [by left|].
    fold key in St. unfold settles in St.
    destruct (T n _).2 as [status h [data|]|]; [|by left..].
    destruct (is_success status); [|by left].
    destruct St as [-> St]. destruct uc; [|by left]. right. by exists data. }
  - rewrite C. done.
  - destruct C as (data & -> & _ & C). rewrite C. split; [|split].
    + intros k Ne. by rewrite lookup_insert_ne.
    + intros k I. destruct (decide (k = key)) as [-> | Ne].
      * rewrite lookup_insert_eq. by eexists.
      * by rewrite lookup_insert_ne.
    + intros ex [=].
Qed.

Lemma dispatch_cache_frame_witness :
  let T := always (Response 200 None (Some (JInt 7))) in
  let st := mkState "K" [] {[ "other" := (JNull, 0%Q) ]} 0 0 [] in
  let st' := (_request T "GET" "/movie/1" None true st).2 in
  let key := _get_cache_key "/movie/1" (with_api_key None st) in
  (forall k, k <> key -> _cache st' !! k = _cache st !! k) /\
  (forall k, is_Some (_cache st !! k) -> is_Some (_cache st' !! k)) /\
  (forall ex, (_request T "GET" "/movie/1" None true st).1 = Raise ex ->
              _cache st' = _cache st).
Proof.
  intros T st st' key.
  exact (dispatch_cache_frame T "GET" "/movie/1" None true st st'
           (_request T "GET" "/movie/1" None true st).1 (surjective_pairing _)).
Defined.

Lemma int_of_str_raises s ex : int_of_str s = Raise ex -> ex = BadIntLiteral s.
Proof.
  unfold int_of_str.
  destruct (match strip s with
            | String "-" s' => option_map Z.opp (digits 0 false s')
            | String "+" s' => digits 0 false s'
            | _ => digits 0 false (strip s)
            end); [discriminate | by intros [= <-]].
Qed.

Lemma attempt_once_raises T m e p uc key attempt backoff st ex st' :
  attempt_once T m e p uc key attempt backoff st = (Raise ex, st') ->
  dispatch_error ex.
Proof.
  rewrite attempt_once_eq. cbv zeta.
  destruct (T (calls st) (mkRequest m e p)).2 as [status h body|].
  - destruct (status =? 429)%Z eqn:E429.
    { destruct (retry_delay h backoff) as [delay|ex'] eqn:D; [discriminate|].
      intros [= <- <-]. destruct h as [text|]; [|discriminate D].
      apply int_of_str_raises in D as ->. exact I. }
    destruct (is_success status) eqn:Es.
    { destruct body; [discriminate|]. by intros [= <- <-]. }
    unfold on_status_error, raise. rewrite E429.
    destruct (status =? 404)%Z eqn:E404; [by intros [= <- <-]|].
    destruct (attempt <? MAX_RETRIES - 1)%nat; [discriminate|].
    intros [= <- <-]. split; [done|]. split; intros ->; discriminate.
  - unfold on_request_error, raise.
    destruct (attempt <? MAX_RETRIES - 1)%nat; [discriminate|]. by intros [= <- <-].
Qed.

Lemma attempts_raises T m e p uc key range backoff st ex st' :
  attempts T m e p uc key range backoff st = (Raise ex, st') ->
  dispatch_error ex.
Proof.
  revert backoff st. induction range as [|attempt rest IH]; intros backoff st; simpl.
  - discriminate.
  - unfold mbind, M_bind, bind.
    destruct (attempt_once T m e p uc key attempt backoff st) as [t st1] eqn:A.
    destruct t as [[backoff'|data]|ex'].
    + apply IH.
    + discriminate.
    + intros [= <- <-]. by eapply attempt_once_raises.
Qed.

Lemma request_raises T m e popt uc st ex st' :
  _request T m e popt uc st = (Raise ex, st') -> dispatch_error ex.
Proof.
  unfold _request.
  destruct (if uc then cache_lookup _ st else None); [discriminate|].
  apply attempts_raises.
Qed.

Lemma attempts_last_turn T m e p uc key first turns backoff st ex st' :
  attempts T m e p uc key (seq first turns) backoff st = (Raise ex, st') ->
  retried_error ex = true -> (first + turns = MAX_RETRIES)%nat ->
  calls st' = (calls st + turns)%nat.
Proof.
  revert first backoff st.
  induction turns as [|turns IH]; intros first backoff st; [discriminate|].
  cbn [seq attempts]. unfold mbind, M_bind, bind.
  destruct (attempt_once T m e p uc key first backoff st) as [t st1] eqn:A.
  pose proof A as A'. apply attempt_once_inv in A' as (_ & C & _).
  destruct t as [[backoff'|data]|ex'].
  - intros R Re L. rewrite (IH (S first) backoff' st1 R Re) by lia. lia.
  - discriminate.
  - intros [= <- <-] Re L. rewrite C. rewrite attempt_once_eq in A. cbv zeta in A.
    assert ((first <? MAX_RETRIES - 1)%nat = false -> turns = 0%nat) as Last.
    { intros F. apply Nat.ltb_ge in F. unfold MAX_RETRIES in *. lia. }
    destruct (T (calls st) (mkRequest m e p)).2 as [status h body|].
    + destruct (status =? 429)%Z.
      { destruct (retry_delay h backoff) as [|ex1] eqn:D; [discriminate A|].
        destruct h as [text|]; [|discriminate D].
        apply int_of_str_raises in D as ->. injection A as <- _. discriminate Re. }
      destruct (is_success status).
      { destruct body; [discriminate A|]. injection A as <- _. discriminate Re. }
      unfold on_status_error, raise, mbind, M_bind, bind, lift in A.
      destruct (status =? 404)%Z; [injection A as <- _; discriminate Re|].
      destruct (status =? 429)%Z.
      * destruct (first <? MAX_RETRIES - 1)%nat eqn:F.
        -- destruct (retry_delay h backoff) as [|ex1] eqn:D; [discriminate A|].
           destruct h as [text|]; [|discriminate D].
           apply int_of_str_raises in D as ->. injection A as <- _. discriminate Re.
        -- injection A as <- _. discriminate Re.
      * destruct (first <? MAX_RETRIES - 1)%nat eqn:F; [discriminate A|].
        rewrite (Last eq_refl). lia.
    + unfold on_request_error, raise, mbind, M_bind, bind in A.
      destruct (first <? MAX_RETRIES - 1)%nat eqn:F; [discriminate A|].
      rewrite (Last eq_refl). lia.
Qed.

(** X5. Whatever the transport answers, a dispatch never raises
    [RateLimitError]: the only place that raises it is never reached. An
    [HTTPStatusError] that leaves a dispatch has a status that is
    neither 2xx, 404 nor 429, and an [HTTPStatusError] or a
    [RequestError] leaves it only from the last turn of the loop, after
    exactly three transport calls. *)
Theorem dispatch_never_rate_limit_error (T : Transport) (m e : string)
    (popt : option params) (uc : bool) (st st' : State) (ex : exn) :
  _request T m e popt uc st = (Raise ex, st') ->
  (forall msg, ex <> RateLimitError msg) /\
  (forall status,
     ex = HTTPStatusError status ->
     is_success status = false /\ status <> 404%Z /\ status <> 429%Z) /\
  (retried_error ex = true -> calls st' = (calls st + 3)%nat).
Proof.
  intros E. pose proof (request_raises _ _ _ _ _ _ _ _ E) as D.
  split; [|split].
  - intros msg ->. exact D.
  - intros status ->. exact D.
  - intros Re. revert E. unfold _request.
    destruct (if uc then cache_lookup _ st else None); [discriminate|].
    intros E. by apply (attempts_last_turn _ _ _ _ _ _ 0 3 _ _ _ _ E Re).
Qed.

Lemma dispatch_never_rate_limit_error_witness :
  let T := always (Response 503 None None) in
  let st := fresh "K" 0 in
  let st' := (_request T "GET" "/movie/1" None true st).2 in
  (forall msg, HTTPStatusError 503 <> RateLimitError msg) /\
  (forall status,
     HTTPStatusError 503 = HTTPStatusError status ->
     is_success status = false /\ status <> 404%Z /\ status <> 429%Z) /\
  (retried_error (HTTPStatusError 503) = true -> calls st' = (calls st + 3)%nat).
Proof.
  intros T st st'.
  refine (dispatch_never_rate_limit_error T "GET" "/movie/1" None true st st'
            (HTTPStatusError 503) _).
  vm_compute. reflexivity.
Defined.

(** X6. A 2xx reply whose body is not JSON ends the dispatch at once:
    [response.json()] raises, nothing catches it, there is no retry and
    no sleep, and nothing is cached. *)
Theorem malformed_body_not_retried (T : Transport) (m e : string)
    (popt : option params) (uc : bool) (st : State)
    (status : Z) (hdr : option string) :
  let p := with_api_key popt st in
  let key := _get_cache_key e p in
  let req := mkRequest m e p in
  uc = false \/ cache_lookup key st = None ->
  (T (calls st) req).2 = Response status hdr None ->
  is_success status = true ->
  _request T m e popt uc st = (Raise JSONDecodeError, sent T req (admission st)).
Proof.
  intros p key req Miss Rep Hs. rewrite request_miss by exact Miss.
  fold p. fold key. cbn [seq MAX_RETRIES attempts].
  unfold mbind, M_bind, bind. rewrite attempt_once_eq. cbv zeta. fold req.
  rewrite Rep, Hs.
  assert ((status =? 429)%Z = false) as ->; [|done].
  destruct (status =? 429)%Z eqn:E; [|done]. apply Z.eqb_eq in E. by subst.
Qed.

Lemma malformed_body_not_retried_witness :
  let T := always (Response 200 None None) in
  let st := fresh "K" 0 in
  let req := mkRequest "GET" "/movie/1" (with_api_key None st) in
  _request T "GET" "/movie/1" None true st =
  (Raise JSONDecodeError, sent T req (admission st)).
Proof.
  intros T st req.
  refine (malformed_body_not_retried T "GET" "/movie/1" None true st 200 None _ _ _).
  - right. reflexivity.
  - reflexivity.
  - reflexivity.
Defined.

(** X7. A 429 reply whose [Retry-After] header [int()] does not accept
    (an HTTP date, for one) ends the dispatch at once with the
    [ValueError] of [int()]: no sleep, no retry, nothing cached. *)
Theorem unreadable_retry_after_raises (T : Transport) (m e : string)
    (popt : option params) (uc : bool) (st : State)
    (text : string) (body : option json) :
  let p := with_api_key popt st in
  let key := _get_cache_key e p in
  let req := mkRequest m e p in
  uc = false \/ cache_lookup key st = None ->
  (T (calls st) req).2 = Response 429 (Some text) body ->
  (forall z, int_of_str text <> Ok z) ->
  _request T m e popt uc st = (Raise (BadIntLiteral text), sent T req (admission st)).
Proof.
  intros p key req Miss Rep Bad. rewrite request_miss by exact Miss.
  fold p. fold key. cbn [seq MAX_RETRIES attempts].
  unfold mbind, M_bind, bind. rewrite attempt_once_eq. cbv zeta. fold req.
  rewrite Rep. cbn [Z.eqb Pos.eqb retry_delay].
  destruct (int_of_str text) as [z|ex] eqn:D; [by destruct (Bad z)|].
  by apply int_of_str_raises in D as ->.
Qed.

Lemma unreadable_retry_after_raises_witness :
  let text := "Wed, 21 Oct 2015 07:28:00 GMT" in
  let T := always (Response 429 (Some text) None) in
  let st := fresh "K" 0 in
  let req := mkRequest "GET" "/movie/1" (with_api_key None st) in
  _request T "GET" "/movie/1" None true st =
  (Raise (BadIntLiteral text), sent T req (admission st)).
Proof.
  intros text T st req.
  refine (unreadable_retry_after_raises T "GET" "/movie/1" None true st text None _ _ _).
  - right. reflexivity.
  - reflexivity.
  - intros z. vm_compute. discriminate.
Defined.

(** X8. An entry that is 300 seconds old or older is not served: the
    dispatch goes to the network, and a 2xx JSON reply to its first
    attempt is returned and replaces the entry, which is live again. *)
Theorem expired_entry_refreshed (T : Transport) (m e : string)
    (popt : option params) (st : State) (old : json) (ts : Q)
    (status : Z) (hdr : option string) (data : json) :
  let p := with_api_key popt st in
  let key := _get_cache_key e p in
  let req := mkRequest m e p in
  _cache st !! key = Some (old, ts) ->
  (_cache_ttl <= clock st - ts)%Q ->
  (T (calls st) req).2 = Response status hdr (Some data) ->
  is_success status = true ->
  let st' := cached key data (sent T req (admission st)) in
  _request T m e popt true st = (Ok data, st') /\
  _cache st' !! key = Some (data, clock st') /\
  cache_lookup key st' = Some data.
Proof.
  intros p key req Old Age Rep Hs st'.
  assert (cache_lookup key st = None) as Miss.
  { unfold cache_lookup. rewrite Old. by rewrite (proj2 (ltb_ge _ _) Age). }
  assert (_cache st' !! key = Some (data, clock st')) as New.
  { unfold st', cached, cache_put. cbn [snd _cache clock]. apply lookup_insert_eq. }
  split; [|split; [exact New | by apply cache_lookup_fresh]].
  rewrite request_miss by (right; exact Miss). fold p. fold key.
  cbn [seq MAX_RETRIES attempts]. unfold mbind, M_bind, bind.
  by rewrite (turn_success T m e p true key 0 _ st status hdr data Rep Hs).
Qed.

Lemma expired_entry_refreshed_witness :
  let T := always (Response 200 None (Some (JStr "new"))) in
  let key := "/movie/1:[('api_key', 'K')]" in
  let st := mkState "K" [] {[ key := (JStr "old", 0%Q) ]} 300 0 [] in
  let req := mkRequest "GET" "/movie/1" (with_api_key None st) in
  let st' := cached key (JStr "new") (sent T req (admission st)) in
  _request T "GET" "/movie/1" None true st = (Ok (JStr "new"), st') /\
  _cache st' !! key = Some (JStr "new", clock st') /\
  cache_lookup key st' = Some (JStr "new").
Proof.
  intros T key st req st'.
  refine (expired_entry_refreshed T "GET" "/movie/1" None st (JStr "old") 0 200 None
            (JStr "new") _ _ _ _).
  - vm_compute. reflexivity.
  - vm_compute. discriminate.
  - reflexivity.
  - reflexivity.
Defined.

(** *** The rate log across a dispatch *)

Lemma rate_wf_later st st' :
  rate_wf st -> request_times st' = request_times st ->
  (clock st <= clock st')%Q -> rate_wf st'.
Proof.
  intros (S & B & N) E L. unfold rate_wf. rewrite E. split; [done|]. split; [|done].
  eapply Forall_impl; [exact B|]. simpl. intros t Ht. lra.
Qed.

Lemma slept_clock d st : (clock st <= clock (slept d st))%Q.
Proof.
  unfold slept, sleep. cbn [snd clock].
  destruct (Qle_bool d 0) eqn:E; [lra|].
  assert (0 < d)%Q; [|lra]. apply Qnot_le_lt. intros L.
  apply Qle_bool_iff in L. congruence.
Qed.

Lemma admission_clock st : (clock st <= clock (admission st))%Q.
Proof. by destruct (admission_shape st) as (_ & _ & C & _). Qed.

Section RateLog.
Variable T : Transport.
Hypothesis elapsed_nonneg : forall n req, (0 <= (T n req).1)%Q.

Lemma sent_clock req st : (clock st <= clock (sent T req st))%Q.
Proof. cbn [sent clock]. pose proof (elapsed_nonneg (calls st) req). lra. Qed.

Lemma attempt_once_rate m e p uc key attempt backoff st t st' :
  rate_wf st ->
  attempt_once T m e p uc key attempt backoff st = (t, st') ->
  rate_wf st' /\ (clock st <= clock st')%Q.
Proof.
  intros W. rewrite attempt_once_eq. cbv zeta.
  set (req := mkRequest m e p).
  set (st1 := sent T req (admission st)).
  assert (rate_wf st1 /\ (clock st <= clock st1)%Q) as [W1 L1].
  { pose proof (admission_wf st W). pose proof (admission_clock st).
    pose proof (sent_clock req (admission st)).
    split; [by eapply rate_wf_later | unfold st1; lra]. }
  assert (forall d, rate_wf (slept d st1) /\ (clock st <= clock (slept d st1))%Q) as Sl.
  { intros d. pose proof (slept_clock d st1).
    split; [by eapply rate_wf_later | lra]. }
  destruct (T (calls st) req).2 as [status h body|].
  - destruct (status =? 429)%Z.
    { destruct (retry_delay h backoff); intros [= <- <-]; [apply Sl | done]. }
    destruct (is_success status).
    { destruct body; intros [= <- <-]; [|done]. by destruct uc. }
    unfold on_status_error, raise.
    destruct (status =? 404)%Z; [by intros [= <- <-]|].
    destruct (status =? 429)%Z.
    + destruct (attempt <? MAX_RETRIES - 1)%nat; [|by intros [= <- <-]].
      unfold mbind, M_bind, bind, lift.
      destruct (retry_delay h backoff); intros [= <- <-]; [apply Sl | done].
    + destruct (attempt <? MAX_RETRIES - 1)%nat; intros [= <- <-]; [apply Sl | done].
  - unfold on_request_error, raise.
    destruct (attempt <? MAX_RETRIES - 1)%nat; intros [= <- <-]; [apply Sl | done].
Qed.

Lemma attempts_rate m e p uc key range backoff st r st' :
  rate_wf st ->
  attempts T m e p uc key range backoff st = (r, st') ->
  rate_wf st' /\ (clock st <= clock st')%Q.
Proof.
  revert backoff st. induction range as [|attempt rest IH]; intros backoff st W; simpl.
  - intros [= <- <-]. split; [done | lra].
  - unfold mbind, M_bind, bind.
    destruct (attempt_once T m e p uc key attempt backoff st) as [t st1] eqn:A.
    apply attempt_once_rate in A as [W1 L1]; [|done].
    destruct t as [[backoff'|data]|ex].
    + intros R. apply IH in R as [W2 L2]; [|done]. split; [done | lra].
    + by intros [= <- <-].
    + by intros [= <- <-].
Qed.

(** X9. With a transport whose calls take no negative time, a dispatch
    keeps the rate log as every admission leaves it: in increasing
    order, not ahead of the clock, and never longer than
    [RATE_LIMIT_WINDOW] = 40 timestamps, however many turns the retry
    loop takes; and the clock never runs backwards. *)
Theorem dispatch_keeps_rate_log (m e : string) (popt : option params)
    (uc : bool) (st st' : State) (r : result json) :
  rate_wf st ->
  _request T m e popt uc st = (r, st') ->
  rate_wf st' /\
  (length (request_times st') <= RATE_LIMIT_WINDOW)%nat /\
  (clock st <= clock st')%Q.
Proof.
  intros W. unfold _request.
  assert (forall s, rate_wf s /\ (clock st <= clock s)%Q ->
                    rate_wf s /\ (length (request_times s) <= RATE_LIMIT_WINDOW)%nat /\
                    (clock st <= clock s)%Q) as K.
  { intros s [Ws L]. split; [done|]. split; [by destruct Ws as (_ & _ & N) | done]. }
  destruct (if uc then cache_lookup _ st else None).
  - intros [= <- <-]. apply K. split; [done | lra].
  - intros E. apply K. by eapply attempts_rate.
Qed.

End RateLog.

Lemma dispatch_keeps_rate_log_witness :
  let T := always (Response 429 (Some "3") None) in
  let st := fresh "K" 0 in
  let st' := (_request T "GET" "/movie/1" None true st).2 in
  rate_wf st' /\
  (length (request_times st') <= RATE_LIMIT_WINDOW)%nat /\
  (clock st <= clock st')%Q.
Proof.
  intros T st st'.
  refine (dispatch_keeps_rate_log T _ "GET" "/movie/1" None true st st'
            (_request T "GET" "/movie/1" None true st).1 _ (surjective_pairing _)).
  - intros n req. simpl. lra.
  - split; [constructor | split; [constructor | simpl; unfold RATE_LIMIT_WINDOW; lia]].
Defined.

(** *** Resolving genre names *)

Lemma assoc_dict_set_ne {V} k k' (v : V) d :
  k' <> k -> assoc k' (dict_set k v d) = assoc k' d.
Proof.
  intros Ne. induction d as [|[k2 v2] d IH]; simpl.
  - apply String.eqb_neq in Ne. by rewrite Ne.
  - destruct (String.eqb k k2) eqn:E; simpl.
    + apply String.eqb_eq in E as <-. apply String.eqb_neq in Ne. by rewrite Ne.
    + by rewrite IH.
Qed.

Lemma assoc_app {V} k (d1 d2 : list (string * V)) :
  assoc k (d1 ++ d2) = match assoc k d1 with Some v => Some v | None => assoc k d2 end.
Proof.
  induction d1 as [|[k' v'] d1 IH]; simpl; [done|].
  by destruct (String.eqb k k').
Qed.

Lemma assoc_elem {V} k (v : V) d : assoc k d = Some v -> (k, v) ∈ d.
Proof.
  induction d as [|[k' v'] d IH]; simpl; [done|].
  destruct (String.eqb k k') eqn:E.
  - apply String.eqb_eq in E as ->. intros [= ->]. apply list_elem_of_here.
  - intros H. apply list_elem_of_further. auto.
Qed.

Lemma elem_assoc {V} k (v : V) d : (k, v) ∈ d -> is_Some (assoc k d).
Proof.
  induction d as [|[k' v'] d IH]; intros I.
  - by apply elem_of_nil in I.
  - simpl. destruct (String.eqb k k') eqn:E; [by eexists|].
    apply elem_of_cons in I as [[= -> ->] | I]; [|auto].
    by rewrite String.eqb_refl in E.
Qed.

(** The dict comprehension: a later entry replaces an earlier one with
    the same key. *)
Lemma comprehension_assoc {V} k (entries d0 : list (string * V)) :
  assoc k (fold_left (fun d kv => dict_set kv.1 kv.2 d) entries d0) =
  match assoc k (rev entries) with
  | Some v => Some v
  | None => assoc k d0
  end.
Proof.
  revert d0. induction entries as [|[k' v'] entries IH]; intros d0; [done|].
  cbn [fold_left rev fst snd]. rewrite IH, assoc_app.
  destruct (assoc k (rev entries)); [done|]. simpl.
  destruct (String.eqb k k') eqn:E.
  - apply String.eqb_eq in E as ->. apply assoc_dict_set.
  - apply String.eqb_neq in E. by apply assoc_dict_set_ne.
Qed.

Lemma omap_length {A B} (f : A -> option B) l : (length (omap f l) <= length l)%nat.
Proof.
  induction l as [|x l IH]; [done|]. csimpl. destruct (f x); simpl; lia.
Qed.

Lemma elem_of_rev {A} (x : A) l : x ∈ rev l <-> x ∈ l.
Proof. rewrite !list_elem_of_In. symmetry. apply in_rev. Qed.

Lemma genre_entry_ok g key id :
  genre_entry g = Ok (key, id) ->
  exists s, subscript g "name" = Ok (JStr s) /\ key = lower s /\
            subscript g "id" = Ok id.
Proof.
  unfold genre_entry.
  destruct (subscript g "name") as [name|]; cbn [rbind]; [|discriminate].
  destruct name as [| | | |s| |]; try discriminate.
  destruct (subscript g "id") as [id'|]; cbn [rbind]; [|discriminate].
  intros [= <- <-]. by exists s.
Qed.

Lemma get_genre_ids_ok T type names st ids st' :
  _get_genre_ids T type names st = (Ok ids, st') ->
  exists data listed entries,
    _request T "GET" ("/genre/" +:+ type +:+ "/list") None true st = (Ok data, st') /\
    listed_genres data = Ok listed /\
    Forall2 (fun g kv => genre_entry g = Ok kv) listed entries /\
    ids = omap (fun name => assoc (lower name) (rev entries)) names.
Proof.
  unfold _get_genre_ids, mbind, M_bind, bind, lift, ret.
  destruct (_request T "GET" _ None true st) as [[data|ex] st1]; [|discriminate].
  change (rbind (get data "genres" (JArr [])) iter) with (listed_genres data).
  destruct (listed_genres data) as [listed|] eqn:L; [|discriminate].
  destruct (mapM genre_entry listed) as [entries|] eqn:Mp; [|discriminate].
  intros [= <- <-]. exists data, listed, entries.
  split; [done|]. split; [done|]. split; [by apply mapM_Forall2|].
  induction names as [|name names IH]; [done|]. csimpl.
  rewrite (comprehension_assoc _ entries []), IH.
  by destruct (assoc (lower name) (rev entries)).
Qed.

(** X10. When [_get_genre_ids] returns, it did one dispatch for the
    genre list of the type and then, for each requested name in order,
    looked its lowercase form up among the lowercased listed names: a
    name that matches no listed genre is dropped without an error (so
    the result is never longer than the request), every returned id is
    the id of a listed genre whose name equals a requested name up to
    case, and every requested name that matches a listed genre up to
    case contributes such an id. *)
Theorem genre_names_resolved (T : Transport) (type : string)
    (names : list string) (st st' : State) (ids : list json) :
  _get_genre_ids T type names st = (Ok ids, st') ->
  exists data listed,
    _request T "GET" ("/genre/" +:+ type +:+ "/list") None true st = (Ok data, st') /\
    listed_genres data = Ok listed /\
    (length ids <= length names)%nat /\
    (forall id, id ∈ ids ->
       exists g name, g ∈ listed /\ name ∈ names /\ names_genre g name id) /\
    (forall g name id0,
       g ∈ listed -> name ∈ names -> names_genre g name id0 ->
       exists g' id, g' ∈ listed /\ id ∈ ids /\ names_genre g' name id).
Proof.
  intros E. apply get_genre_ids_ok in E as (data & listed & entries & R & L & F & ->).
  exists data, listed. split; [done|]. split; [done|].
  assert (forall key id, (key, id) ∈ entries ->
            exists g s, g ∈ listed /\ subscript g "name" = Ok (JStr s) /\
                        key = lower s /\ subscript g "id" = Ok id) as Src.
  { intros key id I. destruct (Forall2_in_r _ _ _ _ F I) as (g & Ig & Eg).
    apply genre_entry_ok in Eg as (s & ? & ? & ?). by exists g, s. }
  split; [|split].
  - apply omap_length.
  - intros id I. apply list_elem_of_omap in I as (name & In & A).
    apply assoc_elem in A. apply (proj1 (elem_of_rev _ _)) in A.
    destruct (Src _ _ A) as (g & s & Ig & Nm & Lw & Id).
    exists g, name. split; [done|]. split; [done|]. by exists s.
  - intros g name id0 Ig In (s & Nm & Lw & Id).
    destruct (Forall2_in_l _ _ _ _ F Ig) as ([key v] & Ie & Eg).
    pose proof Eg as Eg'. apply genre_entry_ok in Eg' as (s' & Nm' & -> & _).
    rewrite Nm in Nm'. injection Nm' as <-.
    assert (is_Some (assoc (lower name) (rev entries))) as [id A].
    { rewrite <- Lw. apply (elem_assoc _ v). by apply (proj2 (elem_of_rev _ _)). }
    pose proof A as A'. apply assoc_elem in A'. apply (proj1 (elem_of_rev _ _)) in A'.
    destruct (Src _ _ A') as (g' & s' & Ig' & Nm' & Lw' & Id').
    exists g', id. split; [done|]. split.
    + apply list_elem_of_omap. by exists name.
    + by exists s'.
Qed.

Lemma genre_names_resolved_witness :
  let body :=
    JObj [("genres",
           JArr [JObj [("id", JInt 28); ("name", JStr "Action")];
                 JObj [("id", JInt 18); ("name", JStr "Drama")]])] in
  let T := always (Response 200 None (Some body)) in
  let st := fresh "K" 0 in
  let out := _get_genre_ids T "movie" ["DRAMA"; "polka"; "action"] st in
  out.1 = Ok [JInt 18; JInt 28] /\
  exists data listed,
    _request T "GET" "/genre/movie/list" None true st = (Ok data, out.2) /\
    listed_genres data = Ok listed /\
    (length [JInt 18; JInt 28] <= 3)%nat.
Proof.
  intros body T st out.
  assert (out = (Ok [JInt 18; JInt 28], out.2)) as E by reflexivity.
  split; [reflexivity|].
  destruct (genre_names_resolved T "movie" ["DRAMA"; "polka"; "action"] st out.2
              [JInt 18; JInt 28] E) as (data & listed & R & L & N & _).
  exists data, listed. split; [exact R|]. split; [exact L | exact N].
Defined.

Lemma genre_entry_named g s id :
  subscript g "name" = Ok (JStr s) -> subscript g "id" = Ok id ->
  genre_entry g = Ok (lower s, id).
Proof. intros N I. unfold genre_entry. by rewrite N, I. Qed.

(** X11. When the genre list of the type is well formed (every entry has
    a text [name] and an [id]) and none of the genre names given to
    [discover] equals a listed name up to case, the names are dropped
    and the discover request goes out without a [with_genres] filter:
    after the genre-list dispatch the call is the very call a [discover]
    without genres makes. *)
Theorem unknown_genres_unfiltered `{FloatRepr} (T : Transport) (type name : string)
    (names : list string) (year : option Z) (language sort_by : option string)
    (st st1 : State) (data : json) (listed : list json) :
  _request T "GET" ("/genre/" +:+ type +:+ "/list") None true st = (Ok data, st1) ->
  listed_genres data = Ok listed ->
  Forall (fun g => exists s id, subscript g "name" = Ok (JStr s) /\
                                subscript g "id" = Ok id) listed ->
  (forall g n id, g ∈ listed -> n ∈ name :: names -> ~ names_genre g n id) ->
  _get_genre_ids T type (name :: names) st = (Ok [], st1) /\
  ApiClient.discover T type (Some (name :: names)) year language sort_by st =
  ApiClient.discover T type None year language sort_by st1.
Proof.
  intros R L Wf No.
  assert (exists entries, mapM genre_entry listed = Ok entries) as [entries Mp].
  { clear L No. induction Wf as [|g gs (s & id & N & I) _ [es IH]]; [by eexists|].
    simpl. rewrite (genre_entry_named g s id N I), IH. by eexists. }
  assert (exists ids, _get_genre_ids T type (name :: names) st = (Ok ids, st1))
    as [ids G].
  { unfold _get_genre_ids. erewrite bind_ok by exact R.
    unfold mbind, M_bind, bind, lift, ret.
    change (rbind (get data "genres" (JArr [])) iter) with (listed_genres data).
    rewrite L, Mp. by eexists. }
  assert (ids = []) as ->.
  { destruct ids as [|id ids]; [done|]. exfalso.
    pose proof G as G'.
    apply get_genre_ids_ok in G' as (data' & listed' & entries' & R' & L' & F & E).
    rewrite R in R'. injection R' as <-. rewrite L in L'. injection L' as <-.
    assert (id ∈ omap (fun n => assoc (lower n) (rev entries')) (name :: names)) as I
      by (rewrite <- E; apply list_elem_of_here).
    apply list_elem_of_omap in I as (n & In & A).
    apply assoc_elem in A. apply (proj1 (elem_of_rev _ _)) in A.
    destruct (Forall2_in_r _ _ _ _ F A) as (g & Ig & Eg).
    apply genre_entry_ok in Eg as (s & Nm & Lw & Id).
    apply (No g n id Ig In). by exists s. }
  split; [exact G|]. unfold ApiClient.discover.
  erewrite bind_ok by exact G. reflexivity.
Qed.

Lemma unknown_genres_unfiltered_witness :
  let genres := [JObj [("id", JInt 28); ("name", JStr "Action")]] in
  let body := JObj [("genres", JArr genres)] in
  let T := always (Response 200 None (Some body)) in
  let st := fresh "K" 0 in
  let st1 := (_request T "GET" "/genre/movie/list" None true st).2 in
  _get_genre_ids T "movie" ["polka"] st = (Ok [], st1) /\
  @ApiClient.discover T sample_float_repr "movie" (Some ["polka"]) None None None st =
  @ApiClient.discover T sample_float_repr "movie" None None None None st1.
Proof.
  intros genres body T st st1.
  refine (@unknown_genres_unfiltered sample_float_repr T "movie" "polka" [] None
            None None st st1 body genres _ _ _ _).
  - reflexivity.
  - reflexivity.
  - repeat constructor. by exists "Action", (JInt 28).
  - intros g n id Ig In (s & Nm & Lw & _).
    apply list_elem_of_singleton in Ig as ->. apply list_elem_of_singleton in In as ->.
    injection Nm as <-. discriminate Lw.
Defined.

(** *** What the adapters raise *)

Lemma reads_rbind {A B} (r : result A) (k : A -> result B) :
  reads r -> (forall a, reads (k a)) -> reads (rbind r k).
Proof. destruct r; simpl; auto. Qed.

Lemma reads_if {A} (b : bool) (x y : result A) :
  reads x -> reads y -> reads (if b then x else y).
Proof. by destruct b. Qed.

Lemma reads_Ok {A} (a : A) : reads (Ok a).
Proof. exact I. Qed.

Lemma reads_get x k d : reads (get x k d).
Proof. by destruct x. Qed.

Lemma reads_subscript x k : reads (subscript x k).
Proof. destruct x; try done. simpl. by destruct (assoc k fields). Qed.

Lemma reads_len x : reads (len x).
Proof. by destruct x. Qed.

Lemma reads_slice_prefix n x : reads (slice_prefix n x).
Proof. by destruct x. Qed.

Lemma reads_int_of x : reads (int_of x).
Proof.
  destruct x; try done. simpl.
  destruct (int_of_str s) eqn:E; [done|]. apply int_of_str_raises in E as ->. exact I.
Qed.

Lemma reads_iter x : reads (iter x).
Proof. by destruct x. Qed.

Lemma reads_ge_float x b : reads (ge_float x b).
Proof. unfold ge_float. by destruct (number x). Qed.

Lemma reads_strs l : reads (strs l).
Proof.
  induction l as [|x l IH]; [done|]. destruct x; try done. simpl.
  apply reads_rbind; [done | by intros].
Qed.

Lemma reads_mapM {A B} (f : A -> result B) xs :
  (forall x, reads (f x)) -> reads (mapM f xs).
Proof.
  intros F. induction xs as [|x xs IH]; [done|]. simpl.
  apply reads_rbind; [done|]. intros y. apply reads_rbind; [done | by intros].
Qed.

Lemma reads_to_set xs : reads (Tools.to_set xs).
Proof. unfold Tools.to_set. by destruct (forallb hashable xs). Qed.

Create HintDb reads.
#[global] Hint Resolve reads_Ok reads_get reads_subscript reads_len
  reads_slice_prefix reads_int_of reads_iter reads_ge_float reads_strs
  reads_to_set : reads.

Ltac reads_step :=
  first
    [ apply reads_rbind; [|intros ?]
    | apply reads_if
    | apply reads_mapM; intros ?
    | solve [auto with reads]
    | exact I
    | match goal with |- reads (match ?l with _ => _ end) => destruct l end ].

Lemma reads_get_or x a b d : reads (Tools.get_or x a b d).
Proof. unfold Tools.get_or. repeat reads_step. Qed.

Lemma reads_year_of x : reads (Tools.year_of x).
Proof. unfold Tools.year_of. repeat reads_step. Qed.

Lemma reads_pluck x a b : reads (Tools.pluck x a b).
Proof. unfold Tools.pluck. repeat reads_step. Qed.

#[global] Hint Resolve reads_get_or reads_year_of reads_pluck : reads.

Lemma reads_format_title_result r type : reads (Tools.format_title_result r type).
Proof. unfold Tools.format_title_result. repeat reads_step. Qed.

Lemma reads_format_first n f results :
  (forall r, reads (f r)) -> reads (Tools.format_first n f results).
Proof. intros F. unfold Tools.format_first. repeat reads_step. Qed.

Lemma reads_shared_part details r : reads (Tools.shared_part details r).
Proof.
  unfold Tools.shared_part, Tools.common_ids, Tools.common_names.
  repeat reads_step.
Qed.

Lemma reads_highly_rated r : reads (Tools.highly_rated r).
Proof. unfold Tools.highly_rated. repeat reads_step. Qed.

#[global] Hint Resolve reads_format_title_result reads_shared_part
  reads_highly_rated : reads.

Lemma reads_recommendation `{FloatRepr} details title r :
  reads (Tools.recommendation details title r).
Proof. unfold Tools.recommendation. repeat reads_step. Qed.

Lemma reads_format_details details type : reads (Tools.format_details details type).
Proof. unfold Tools.format_details. repeat reads_step. Qed.

Lemma reads_genre_entry g : reads (genre_entry g).
Proof.
  unfold genre_entry. apply reads_rbind; [auto with reads|]. intros name.
  destruct name; try done. repeat reads_step.
Qed.

(** Client operations. *)
Lemma raises_bind {A B} (P : exn -> Prop) (c : M A) (k : A -> M B) :
  raises_only P c -> (forall a, raises_only P (k a)) ->
  raises_only P (x ← c; k x).
Proof.
  intros Hc Hk st ex st'. unfold mbind, M_bind, bind.
  destruct (c st) as [[a|ex'] st1] eqn:E.
  - apply Hk.
  - intros [= <- <-]. by eapply Hc.
Qed.

Lemma raises_lift {A} (r : result A) : reads r -> raises_only client_error (lift r).
Proof. intros R st ex st'. unfold lift. intros [= -> <-]. by right. Qed.

Lemma raises_ret {A} (P : exn -> Prop) (a : A) : raises_only P (ret a).
Proof. intros st ex st'. discriminate. Qed.

Lemma raises_request T m e popt uc :
  raises_only client_error (_request T m e popt uc).
Proof. intros st ex st' E. left. by eapply request_raises. Qed.

Lemma raises_client_search T q ty y l :
  raises_only client_error (ApiClient.search_title T q ty y l).
Proof.
  unfold ApiClient.search_title. apply raises_bind; [apply raises_request|].
  intros data. apply raises_lift. auto with reads.
Qed.

Lemma raises_client_recommendations T id ty :
  raises_only client_error (ApiClient.get_recommendations T id ty).
Proof.
  unfold ApiClient.get_recommendations. apply raises_bind; [apply raises_request|].
  intros data. apply raises_lift. auto with reads.
Qed.

Lemma raises_client_details T id ty :
  raises_only client_error (ApiClient.get_details T id ty).
Proof. apply raises_request. Qed.

Lemma raises_genre_ids T ty names :
  raises_only client_error (_get_genre_ids T ty names).
Proof.
  unfold _get_genre_ids. apply raises_bind; [apply raises_request|]. intros data.
  apply raises_bind; [apply raises_lift; repeat reads_step|]. intros listed.
  apply raises_bind; [apply raises_lift, reads_mapM, reads_genre_entry|].
  intros entries. apply raises_ret.
Qed.

Lemma raises_client_discover `{FloatRepr} T ty g y l sb :
  raises_only client_error (ApiClient.discover T ty g y l sb).
Proof.
  unfold ApiClient.discover. apply raises_bind.
  - destruct g as [[|name names]|]; [apply raises_ret | apply raises_genre_ids
                                     | apply raises_ret].
  - intros ids. apply raises_bind; [apply raises_request|].
    intros data. apply raises_lift. auto with reads.
Qed.

Lemma client_error_not_rate_limit ex :
  client_error ex -> forall msg, ex <> RateLimitError msg.
Proof. intros [D | R] msg ->; [exact D | exact R]. Qed.

Lemma reraise_adapter ex :
  (forall msg, ex <> RateLimitError msg) -> adapter_error (Tools.reraise ex).
Proof.
  intros N. unfold Tools.reraise.
  destruct (is_ValueError ex) eqn:V.
  - destruct (is_title_not_found ex) eqn:S; [|by split].
    destruct ex; try discriminate S. simpl in *. by apply String.eqb_eq in S.
  - destruct ex; try discriminate V; try (by split). by destruct (N msg).
Qed.

Lemma reraise_discover_adapter ex :
  (forall msg, ex <> RateLimitError msg) -> discover_error (Tools.reraise_discover ex).
Proof.
  intros N. unfold Tools.reraise_discover.
  destruct (is_ValueError ex) eqn:V; [done|].
  destruct ex; try discriminate V; try (by split). by destruct (N msg).
Qed.

Lemma reraise_client ex : client_error ex -> adapter_error (Tools.reraise ex).
Proof. intros C. by apply reraise_adapter, client_error_not_rate_limit. Qed.

Lemma reraise_discover_client ex :
  client_error ex -> discover_error (Tools.reraise_discover ex).
Proof. intros C. by apply reraise_discover_adapter, client_error_not_rate_limit. Qed.

Lemma catch_reraise {A} (c : M A) (f : exn -> exn) (P Q : exn -> Prop) :
  raises_only P c -> (forall ex, P ex -> Q (f ex)) ->
  raises_only Q (catch c (fun e => raise (f e))).
Proof.
  intros Hc Hf st ex st'. unfold catch, raise.
  destruct (c st) as [[a|ex'] st1] eqn:E; [discriminate|].
  intros [= <- <-]. apply Hf. by eapply Hc.
Qed.

Lemma adapter_error_value ex :
  adapter_error ex -> is_ValueError ex = true /\ forall msg, ex <> RateLimitError msg.
Proof. destruct ex; try done. all: intros _; split; [done | discriminate]. Qed.

Lemma discover_error_value ex :
  discover_error ex ->
  is_ValueError ex = true /\ is_title_not_found ex = false /\
  forall msg, ex <> RateLimitError msg.
Proof. destruct ex; try done. all: intros _; split; [done|]; split; [done | discriminate]. Qed.

Section AdapterErrors.
Context `{FloatRepr}.
Variable T : Transport.

Lemma raises_tool_search q ty y l :
  raises_only adapter_error (Tools.search_title T q ty y l).
Proof.
  unfold Tools.search_title.
  apply (catch_reraise _ Tools.reraise client_error); [|apply reraise_client].
  apply raises_bind; [apply raises_client_search|]. intros results.
  apply raises_lift, reads_format_first. auto with reads.
Qed.

Lemma raises_tool_recommendations id ty :
  raises_only adapter_error (Tools.get_recommendations T id ty).
Proof.
  unfold Tools.get_recommendations.
  apply (catch_reraise _ Tools.reraise client_error); [|apply reraise_client].
  apply raises_bind; [apply raises_client_details|]. intros details.
  apply raises_bind; [apply raises_lift; auto with reads|]. intros title.
  apply raises_bind; [apply raises_lift; auto with reads|]. intros _.
  apply raises_bind; [apply raises_client_recommendations|]. intros results.
  apply raises_lift, reads_format_first. intros r. apply reads_recommendation.
Qed.

Lemma raises_tool_details id ty :
  raises_only adapter_error (Tools.get_details T id ty).
Proof.
  unfold Tools.get_details.
  apply (catch_reraise _ Tools.reraise client_error); [|apply reraise_client].
  apply raises_bind; [apply raises_client_details|]. intros details.
  apply raises_lift, reads_format_details.
Qed.

Lemma raises_tool_discover ty g y l sb :
  raises_only discover_error (Tools.discover T ty g y l sb).
Proof.
  unfold Tools.discover.
  apply (catch_reraise _ Tools.reraise_discover client_error);
    [|apply reraise_discover_client].
  apply raises_bind; [apply raises_client_discover|]. intros results.
  apply raises_lift, reads_format_first. auto with reads.
Qed.

End AdapterErrors.

(** X12. Whatever the provider answers, what leaves the tool adapters
    is a [ValueError] of one of three shapes: the [TITLE_NOT_FOUND]
    sentinel, [Invalid arguments: ...] around another [ValueError], or
    [API error: ...] around an exception that is neither a [ValueError]
    nor a [RateLimitError]. From [discover] the sentinel only comes
    wrapped. No adapter ever raises [RateLimitError], and no exception
    of the client or of the formatting code leaves an adapter
    unwrapped. *)
Theorem adapters_raise_value_errors `{FloatRepr} (T : Transport)
    (st st' : State) (ex : exn) :
  (forall q ty y l,
     Tools.search_title T q ty y l st = (Raise ex, st') -> adapter_error ex) /\
  (forall id ty,
     Tools.get_recommendations T id ty st = (Raise ex, st') -> adapter_error ex) /\
  (forall id ty,
     Tools.get_details T id ty st = (Raise ex, st') -> adapter_error ex) /\
  (forall ty g y l sb,
     Tools.discover T ty g y l sb st = (Raise ex, st') -> discover_error ex) /\
  (adapter_error ex \/ discover_error ex ->
   is_ValueError ex = true /\ forall msg, ex <> RateLimitError msg).
Proof.
  split; [|split; [|split; [|split]]].
  - intros q ty y l. apply raises_tool_search.
  - intros id ty. apply raises_tool_recommendations.
  - intros id ty. apply raises_tool_details.
  - intros ty g y l sb. apply raises_tool_discover.
  - intros [A | D]; [by apply adapter_error_value|].
    apply discover_error_value in D as (? & _ & ?). done.
Qed.

Lemma adapters_raise_value_errors_witness :
  let T := always (Response 500 None None) in
  let ex := ApiError (HTTPStatusError 500) in
  adapter_error ex /\ is_ValueError ex = true.
Proof.
  intros T ex.
  pose proof (@adapters_raise_value_errors sample_float_repr T (fresh "K" 0)
                (@Tools.search_title T "heat" None None None (fresh "K" 0)).2 ex)
    as (S & _ & _ & _ & V).
  assert (adapter_error ex) as A
    by (apply (S "heat" None None None); vm_compute; reflexivity).
  split; [exact A | exact (proj1 (V (or_introl A)))].
Defined.

(** *** Pages of results *)

Lemma Forall2_mapM {A B} (f : A -> result B) xs ys :
  Forall2 (fun x y => f x = Ok y) xs ys -> mapM f xs = Ok ys.
Proof. induction 1 as [|x y xs ys E _ IH]; simpl; [done|]. by rewrite E, IH. Qed.

Lemma mapM_raise {A B} (f : A -> result B) xs x ex :
  x ∈ xs -> f x = Raise ex -> exists ex', mapM f xs = Raise ex'.
Proof.
  intros I E. induction xs as [|x' xs IH]; [by apply elem_of_nil in I|].
  simpl. destruct (f x') as [y|ex1] eqn:E1; [|by eexists].
  apply elem_of_cons in I as [-> | I]; [congruence|].
  destruct (IH I) as [ex' ->]. by eexists.
Qed.

Lemma format_first_list n f rs :
  Tools.format_first n f (JArr rs) =
  rbind (mapM f (firstn n rs)) (fun items => Ok (JArr items)).
Proof. reflexivity. Qed.

Lemma page_ok (c : M json) (h : exn -> M json) n f rs items (st st' : State) :
  c st = (Ok (JArr rs), st') ->
  Forall2 (fun r item => f r = Ok item) (firstn n rs) items ->
  catch (results ← c; lift (Tools.format_first n f results)) h st
  = (Ok (JArr items), st') /\ length items = Nat.min n (length rs).
Proof.
  intros E F. split.
  - unfold catch. erewrite bind_ok by exact E. unfold lift.
    by rewrite format_first_list, (Forall2_mapM _ _ _ F).
  - apply Forall2_length in F. by rewrite <- F, length_firstn.
Qed.

Lemma page_raise (c : M json) (g : exn -> exn) n f rs r ex (st st' : State) :
  c st = (Ok (JArr rs), st') ->
  r ∈ firstn n rs -> f r = Raise ex ->
  exists ex',
    catch (results ← c; lift (Tools.format_first n f results))
      (fun e => raise (g e)) st = (Raise ex', st').
Proof.
  intros E I R. unfold catch. erewrite bind_ok by exact E. unfold lift.
  rewrite format_first_list. destruct (mapM_raise f _ r ex I R) as [ex' ->].
  by eexists.
Qed.

(** X13. When the client hands a list of results to [search_title] or
    [discover] of [tools.py], only the first 10 (for [discover] the first
    20) are looked at: if each of them can be normalised, the adapter
    returns exactly their normalised forms, in order, so the page has
    [min(10, len)] (or [min(20, len)]) items and later results cannot
    affect or fail the call; if one of them cannot be normalised, the
    whole call raises instead of skipping the item. *)
Theorem result_pages `{FloatRepr} (T : Transport) (st st' : State)
    (rs : list json) :
  (forall q ty y l,
     let type_str := default "movie" (nonempty ty) in
     let page := firstn 10 rs in
     ApiClient.search_title T q ty y l st = (Ok (JArr rs), st') ->
     (forall items,
        Forall2 (fun r item => Tools.format_title_result r type_str = Ok item)
          page items ->
        Tools.search_title T q ty y l st = (Ok (JArr items), st') /\
        length items = Nat.min 10 (length rs)) /\
     (forall r ex,
        r ∈ page -> Tools.format_title_result r type_str = Raise ex ->
        exists ex', Tools.search_title T q ty y l st = (Raise ex', st'))) /\
  (forall ty g y l sb,
     let page := firstn 20 rs in
     ApiClient.discover T ty g y l sb st = (Ok (JArr rs), st') ->
     (forall items,
        Forall2 (fun r item => Tools.format_title_result r ty = Ok item)
          page items ->
        Tools.discover T ty g y l sb st = (Ok (JArr items), st') /\
        length items = Nat.min 20 (length rs)) /\
     (forall r ex,
        r ∈ page -> Tools.format_title_result r ty = Raise ex ->
        exists ex', Tools.discover T ty g y l sb st = (Raise ex', st'))).
Proof.
  split.
  - intros q ty y l type_str page E. split.
    + intros items F. by apply (page_ok _ _ 10 _ rs).
    + intros r ex I R. by apply (page_raise _ Tools.reraise 10 _ rs r ex).
  - intros ty g y l sb page E. split.
    + intros items F. by apply (page_ok _ _ 20 _ rs).
    + intros r ex I R. by apply (page_raise _ Tools.reraise_discover 20 _ rs r ex).
Qed.

Lemma result_pages_witness :
  let item n := JObj [("id", JInt n)] in
  let rs := map item [1; 2; 3; 4; 5; 6; 7; 8; 9; 10; 11; 12]%Z in
  let T := always (Response 200 None (Some (JObj [("results", JArr rs)]))) in
  let st := fresh "K" 0 in
  let out := @Tools.search_title T "heat" None None None st in
  exists items, out.1 = Ok (JArr items) /\ length items = 10%nat.
Proof.
  intros item rs T st out.
  pose proof (@result_pages sample_float_repr T st
                (ApiClient.search_title T "heat" None None None st).2 rs)
    as [S _].
  specialize (S "heat" None None None eq_refl) as [S _].
  eexists. refine (let P := S _ _ in conj (f_equal fst (proj1 P)) (proj2 P)).
  repeat (constructor; [reflexivity|]). constructor.
Defined.

(** *** The year of a date *)

Lemma prefix_append a b c d rest :
  str_prefix 4 (String a (String b (String c (String d ""))) +:+ rest) =
  String a (String b (String c (String d ""))).
Proof. by destruct rest. Qed.

Lemma four_digit_years :
  forallb (fun n =>
     let y := (1000 + Z.of_nat n)%Z in
     match repr_int y with
     | String a (String b (String c (String d ""))) =>
         match int_of_str (repr_int y) with
         | Ok z => (z =? y)%Z
         | Raise _ => false
         end
     | _ => false
     end) (seq 0 (Z.to_nat 9000)) = true.
Proof. vm_compute. reflexivity. Qed.

(** X14. A date that starts with a four-digit year, as in
    [YYYY-MM-DD], yields that year: for every year from 1000 to 9999 and
    whatever follows the four digits, [year_of] returns the year as an
    [int]. *)
Theorem iso_date_year (y : Z) (rest : string) :
  (1000 <= y <= 9999)%Z ->
  Tools.year_of (JStr (repr_int y +:+ rest)) = Ok (JInt y).
Proof.
  intros R. pose proof four_digit_years as F. rewrite forallb_forall in F.
  specialize (F (Z.to_nat (y - 1000))).
  replace (1000 + Z.of_nat (Z.to_nat (y - 1000)))%Z with y in F by lia.
  cbv zeta in F. specialize (F ltac:(apply in_seq; lia)).
  destruct (repr_int y) as [|a [|b [|c [|d [|]]]]] eqn:E; try discriminate F.
  destruct (int_of_str (String a (String b (String c (String d "")))))
    as [z|] eqn:I; [|discriminate F].
  apply Z.eqb_eq in F as ->.
  unfold Tools.year_of.
  change (truthy (JStr (String a (String b (String c (String d ""))) +:+ rest)))
    with true.
  cbn [len rbind]. 
  replace (4 <=? String.length (String a (String b (String c (String d ""))) +:+ rest))%nat
    with true by (by destruct rest).
  cbn [slice_prefix rbind]. rewrite prefix_append. cbn [int_of]. by rewrite I.
Qed.

Lemma iso_date_year_witness :
  Tools.year_of (JStr (repr_int 2010 +:+ "-07-16")) = Ok (JInt 2010).
Proof. apply iso_date_year. lia. Defined.

(** *** Asking again *)

Lemma attempts_ok_cached T m e p key range backoff st d st' :
  attempts T m e p true key range backoff st = (Ok d, st') ->
  d = JNull \/ _cache st' !! key = Some (d, clock st').
Proof.
  revert backoff st. induction range as [|attempt rest IH]; intros backoff st; simpl.
  - intros [= <- <-]. by left.
  - unfold mbind, M_bind, bind.
    destruct (attempt_once T m e p true key attempt backoff st) as [t st1] eqn:A.
    destruct t as [[backoff'|data]|ex]; [apply IH | | discriminate].
    intros [= <- <-]. right. rewrite attempt_once_eq in A. cbv zeta in A.
    destruct (T (calls st) (mkRequest m e p)).2 as [status h body|].
    + destruct (status =? 429)%Z.
      { destruct (retry_delay h backoff); discriminate A. }
      destruct (is_success status).
      * destruct body as [data'|]; [|discriminate A].
        injection A as <- <-. apply lookup_insert_eq.
      * unfold on_status_error, raise, mbind, M_bind, bind, lift in A.
        destruct (status =? 404)%Z; [discriminate A|].
        destruct (status =? 429)%Z.
        { destruct (attempt <? MAX_RETRIES - 1)%nat; [|discriminate A].
          destruct (retry_delay h backoff); discriminate A. }
        destruct (attempt <? MAX_RETRIES - 1)%nat; discriminate A.
    + unfold on_request_error, raise, mbind, M_bind, bind in A.
      destruct (attempt <? MAX_RETRIES - 1)%nat; discriminate A.
Qed.

(** A dispatch that returned a value other than [None] can be repeated at
    once: the answer is in the cache. *)
Lemma request_repeat T m e popt st d st' :
  _request T m e popt true st = (Ok d, st') -> d <> JNull ->
  _request T m e popt true st' = (Ok d, st').
Proof.
  intros E Nn.
  pose proof (request_settles _ _ _ _ _ _ _ _ E) as [(K & _) _].
  assert (with_api_key popt st' = with_api_key popt st) as W
    by (unfold with_api_key; by rewrite K).
  revert E. unfold _request at 1.
  destruct (cache_lookup _ st) as [data|] eqn:L.
  - intros [= <- <-]. unfold _request. by rewrite L.
  - intros E. apply attempts_ok_cached in E as [-> | C]; [done|].
    apply request_hit. rewrite W. by apply cache_lookup_fresh.
Qed.

Lemma get_not_null x k d v : get x k d = Ok v -> x <> JNull.
Proof. by destruct x. Qed.

(** X15. A [search_title] or [get_details] tool call that returned can
    be repeated at once at no cost: the second call returns the same
    value and leaves the client exactly as it was, without a transport
    call, a sleep or an admission. *)
Theorem answered_call_repeats `{FloatRepr} (T : Transport) (st st' : State)
    (out : json) :
  (forall q ty y l,
     Tools.search_title T q ty y l st = (Ok out, st') ->
     Tools.search_title T q ty y l st' = (Ok out, st')) /\
  (forall id ty,
     Tools.get_details T id ty st = (Ok out, st') ->
     Tools.get_details T id ty st' = (Ok out, st')).
Proof.
  split.
  - intros q ty y l. unfold Tools.search_title, ApiClient.search_title, catch,
      mbind, M_bind, bind, lift, raise.
    destruct (_request T "GET" _ _ true st) as [[data|ex] st1] eqn:R; [|discriminate].
    destruct (get data "results" (JArr [])) as [results|] eqn:G; [|discriminate].
    destruct (Tools.format_first 10 _ results) as [page|] eqn:P; [|discriminate].
    intros [= <- <-]. apply get_not_null in G as Nn.
    by rewrite (request_repeat _ _ _ _ _ _ _ R Nn), G, P.
  - intros id ty. unfold Tools.get_details, ApiClient.get_details, catch,
      mbind, M_bind, bind, lift, raise.
    destruct (_request T "GET" _ _ true st) as [[data|ex] st1] eqn:R; [|discriminate].
    destruct (Tools.format_details data ty) as [formatted|] eqn:P; [|discriminate].
    intros [= <- <-].
    assert (data <> JNull) as Nn by (intros ->; discriminate P).
    by rewrite (request_repeat _ _ _ _ _ _ _ R Nn), P.
Qed.

Lemma answered_call_repeats_witness :
  let body := JObj [("id", JInt 27205); ("title", JStr "Inception")] in
  let T := always (Response 200 None (Some body)) in
  let first := @Tools.get_details T 27205 "movie" (fresh "K" 0) in
  exists out, first.1 = Ok out /\
              @Tools.get_details T 27205 "movie" first.2 = (Ok out, first.2).
Proof.
  intros body T first.
  pose proof (@answered_call_repeats sample_float_repr T (fresh "K" 0) first.2)
    as R.
  eexists. split; [reflexivity|].
  apply (proj2 (R _)). reflexivity.
Defined.

(** *** The metrics store *)

Lemma last_n_all {A} n (l : list A) : (length l <= n)%nat -> Health.last_n n l = l.
Proof.
  intros L. unfold Health.last_n. by replace (length l - n)%nat with 0%nat by lia.
Qed.

Lemma last_n_length {A} n (l : list A) :
  length (Health.last_n n l) = Nat.min n (length l).
Proof. unfold Health.last_n. rewrite length_skipn. lia. Qed.

Lemma last_n_snoc {A} n (l : list A) x :
  Health.last_n (S n) (Health.last_n (S n) l ++ [x]) = Health.last_n (S n) (l ++ [x]).
Proof.
  destruct (le_lt_dec (length l) (S n)) as [L|L].
  - by rewrite (last_n_all (S n) l L).
  - set (k := (length l - S n)%nat).
    assert (Health.last_n (S n) l = skipn k l) as -> by reflexivity.
    unfold Health.last_n. rewrite !length_app, length_skipn. simpl length.
    replace (length l - k + 1 - S n)%nat with 1%nat by lia.
    replace (length l + 1 - S n)%nat with (1 + k)%nat by lia.
    rewrite !skipn_app, length_skipn, skipn_skipn.
    replace (1 - (length l - k))%nat with 0%nat by lia.
    replace (1 + k - length l)%nat with 0%nat by lia.
    reflexivity.
Qed.

Lemma record_error_log t msg now m :
  Health.errors (Health.record_error t msg now m) =
  Health.last_n 100 (Health.errors m ++ [Health.mkErrorEntry t msg now]).
Proof.
  unfold Health.record_error. cbn [Health.errors].
  destruct (100 <? _)%nat eqn:E; [done|].
  apply Nat.ltb_ge in E. by rewrite last_n_all.
Qed.

Lemma recorded_snoc start rs r :
  recorded start (rs ++ [r]) = apply_record (recorded start rs) r.
Proof. unfold recorded. by rewrite fold_left_app. Qed.

Lemma last_n_last_n {A} n k (l : list A) :
  (n <= k)%nat -> Health.last_n n (Health.last_n k l) = Health.last_n n l.
Proof.
  intros L. unfold Health.last_n. rewrite length_skipn, skipn_skipn. f_equal. lia.
Qed.

Lemma errors_of_snoc rs r :
  errors_of (rs ++ [r]) =
  errors_of rs ++ match r with
                  | Error t msg now => [Health.mkErrorEntry t msg now]
                  | ToolCall _ _ _ => []
                  end.
Proof. unfold errors_of. rewrite omap_app. by destruct r. Qed.

Lemma calls_of_snoc name rs r :
  calls_of name (rs ++ [r]) =
  calls_of name rs ++ match r with
                      | ToolCall n latency ok =>
                          if String.eqb n name then [(latency, ok)] else []
                      | Error _ _ _ => []
                      end.
Proof.
  unfold calls_of. rewrite omap_app. destruct r as [n l ok|]; [|done].
  csimpl. by destruct (String.eqb n name).
Qed.

Lemma recorded_errors start rs :
  Health.errors (recorded start rs) = Health.last_n 100 (errors_of rs).
Proof.
  induction rs as [|r rs IH] using rev_ind; [done|].
  rewrite recorded_snoc, errors_of_snoc. destruct r as [n l s | t msg now].
  - rewrite app_nil_r. exact IH.
  - cbn [apply_record]. by rewrite record_error_log, IH, last_n_snoc.
Qed.

(** X16. The error log is a sliding window: after any sequence of
    recorded calls and errors, it holds the last 100 recorded errors, in
    the order they were recorded, and nothing else; so it never holds
    more than 100 entries and the newest error is always in it. *)
Theorem error_log_window (start : Q) (rs : list record) :
  let m := recorded start rs in
  Health.errors m = Health.last_n 100 (errors_of rs) /\
  (length (Health.errors m) <= 100)%nat /\
  (forall t msg now,
     List.last (Health.errors (recorded start (rs ++ [Error t msg now])))
       (Health.mkErrorEntry "" "" 0)
     = Health.mkErrorEntry t msg now).
Proof.
  intros m.
  pose proof (recorded_errors start rs) as E. fold m in E.
  split; [exact E|]. split.
  - rewrite E, last_n_length. lia.
  - intros t msg now. rewrite recorded_errors, errors_of_snoc. unfold Health.last_n.
    set (l := errors_of rs). rewrite skipn_app, length_app. simpl length.
    replace (length l + 1 - 100 - length l)%nat with 0%nat by lia.
    cbn [skipn]. apply last_last.
Qed.

(** The counters of one tool. *)
Lemma record_tool_call_same name latency ok m :
  assoc name (Health.tool_calls (Health.record_tool_call name latency ok m)) =
  let s := default (Health.mkToolStats 0 0 0 0) (assoc name (Health.tool_calls m)) in
  Some (Health.mkToolStats (Health.count s + 1) (Health.total_latency s + latency)
          (if ok then Health.success_count s + 1 else Health.success_count s)
          (if ok then Health.error_count s else Health.error_count s + 1))%Z.
Proof. unfold Health.record_tool_call. cbn [Health.tool_calls]. apply assoc_dict_set. Qed.

Lemma record_tool_call_other name other latency ok m :
  other <> name ->
  assoc other (Health.tool_calls (Health.record_tool_call name latency ok m)) =
  assoc other (Health.tool_calls m).
Proof.
  intros Ne. unfold Health.record_tool_call. cbn [Health.tool_calls].
  by apply assoc_dict_set_ne.
Qed.

Lemma tally_snoc b calls latency ok :
  tally b (calls ++ [(latency, ok)]) =
  (tally b calls + if Bool.eqb ok b then 1 else 0)%Z.
Proof.
  unfold tally. rewrite List.filter_app, length_app. simpl.
  destruct (Bool.eqb ok b); simpl; lia.
Qed.

(** X17. The counters of a tool add up: after any sequence of recorded
    calls and errors, a tool that was never called has no entry, and the
    entry of a tool that was called holds the number of its calls, the
    number of those that succeeded, the number of those that failed and
    the sum of their latencies; so [count] is always
    [success_count + error_count] and at least 1. *)
Theorem tool_counters_add_up (start : Q) (rs : list record) (tool_name : string) :
  let calls := calls_of tool_name rs in
  match assoc tool_name (Health.tool_calls (recorded start rs)) with
  | None => calls = []
  | Some s =>
      calls <> [] /\
      Health.count s = Z.of_nat (length calls) /\
      Health.success_count s = tally true calls /\
      Health.error_count s = tally false calls /\
      Health.total_latency s = fold_left Qplus (map fst calls) 0%Q /\
      stats_ok s
  end.
Proof.
  cbv zeta. induction rs as [|r rs IH] using rev_ind; [done|].
  rewrite recorded_snoc, calls_of_snoc.
  destruct r as [n latency ok | t msg now]; cbn [apply_record].
  2:{ rewrite app_nil_r. exact IH. }
  destruct (String.eqb n tool_name) eqn:En.
  - apply String.eqb_eq in En as ->. rewrite record_tool_call_same. cbv zeta.
    set (calls := calls_of tool_name rs) in *.
    assert (forall b, (0 <= tally b calls)%Z) as Pos by (intros b; unfold tally; lia).
    assert (forall b, (0 <= tally b (calls ++ [(latency, ok)]))%Z) as Pos'
      by (intros b; unfold tally; lia).
    split; [by destruct calls|].
    rewrite length_app, map_app, fold_left_app, !tally_snoc. simpl.
    destruct (assoc tool_name (Health.tool_calls (recorded start rs))) as [s|].
    + destruct IH as (_ & C & S & E & L & Ok1 & Ok2 & Ok3 & Ok4). cbn [from_option id].
      rewrite C, S, E, L.
      split; [lia|]. split; [by destruct ok; simpl; lia|].
      split; [by destruct ok; simpl; lia|]. split; [done|].
      unfold stats_ok. cbn [Health.count Health.success_count Health.error_count].
      rewrite S, E in *. destruct ok; lia.
    + rewrite IH. cbn [from_option id Health.count Health.success_count Health.error_count
                         Health.total_latency length map fold_left tally].
      split; [done|]. split; [by destruct ok|]. split; [by destruct ok|].
      split; [done|]. unfold stats_ok. simpl. destruct ok; lia.
  - rewrite app_nil_r. apply String.eqb_neq in En.
    rewrite record_tool_call_other by done. exact IH.
Qed.

Lemma dict_set_Forall {V} (P : string * V -> Prop) k v d :
  Forall P d -> P (k, v) -> Forall P (dict_set k v d).
Proof.
  intros F Pv. induction F as [|[k' v'] d Pk F IH]; simpl; [by constructor|].
  destruct (String.eqb k k'); by constructor.
Qed.

Lemma recorded_stats_ok start rs :
  Forall (fun kv => stats_ok kv.2) (Health.tool_calls (recorded start rs)).
Proof.
  induction rs as [|r rs IH] using rev_ind; [constructor|].
  rewrite recorded_snoc. destruct r as [n latency ok | t msg now]; [|exact IH].
  cbn [apply_record]. unfold Health.record_tool_call. cbn [Health.tool_calls].
  apply dict_set_Forall; [exact IH|]. cbn [snd].
  destruct (assoc n (Health.tool_calls (recorded start rs))) as [s|] eqn:A.
  - apply assoc_elem in A. rewrite List.Forall_forall in IH.
    apply list_elem_of_In in A. specialize (IH _ A). cbn [snd from_option id] in *.
    destruct IH as (C & S & E & N). unfold stats_ok. simpl. destruct ok; lia.
  - unfold stats_ok. simpl. destruct ok; lia.
Qed.

Lemma recorded_start start rs : Health.start_time (recorded start rs) = start.
Proof.
  induction rs as [|r rs IH] using rev_ind; [done|].
  rewrite recorded_snoc. by destruct r.
Qed.

(** X18. In the health report every tool has been called at least once,
    so its average latency is its total latency divided by its count and
    its success rate is the share of its calls that succeeded, a number
    between 0 and 1; the report counts at most 100 errors and shows the
    last 10 of them. The reported uptime is the time since the module
    was loaded. *)
Theorem health_report_rates (start now : Q) (rs : list record) :
  let m := recorded start rs in
  let report := Health.get_health_response now m in
  Forall2 (fun stats line =>
             line.1 = stats.1 /\
             (1 <= Health.calls_count line.2)%Z /\
             Health.calls_count line.2 = Health.count stats.2 /\
             Health.avg_latency line.2 =
               (Health.total_latency stats.2 / inject_Z (Health.count stats.2))%Q /\
             Health.success_rate line.2 =
               (inject_Z (Health.success_count stats.2)
                / inject_Z (Health.count stats.2))%Q /\
             (0 <= Health.success_rate line.2 <= 1)%Q)
    (Health.tool_calls m) (Health.metrics_tool_calls report) /\
  (Health.metrics_error_count report <= 100)%nat /\
  Health.metrics_recent_errors report = Health.last_n 10 (errors_of rs) /\
  Health.uptime report = (now - start)%Q.
Proof.
  intros m report. split; [|split; [|split]].
  - unfold report, Health.get_health_response. cbn [Health.metrics_tool_calls].
    pose proof (recorded_stats_ok start rs) as F. fold m in F.
    induction F as [|[name s] d (C & S & E & N) F IH]; [constructor|].
    rewrite map_cons. constructor; [|exact IH].
    cbn [fst snd] in *. unfold Health.summary.
    cbn [Health.calls_count Health.avg_latency Health.success_rate].
    assert ((0 <? Health.count s)%Z = true) as -> by (apply Z.ltb_lt; lia).
    split; [done|]. split; [done|]. split; [done|]. split; [done|]. split; [done|].
    assert (0 < inject_Z (Health.count s))%Q as Pc.
    { change 0%Q with (inject_Z 0). rewrite <- Zlt_Qlt. lia. }
    split.
    + apply Qle_shift_div_l; [done|]. rewrite Qmult_0_l.
      change 0%Q with (inject_Z 0). rewrite <- Zle_Qle. lia.
    + apply Qle_shift_div_r; [done|]. rewrite Qmult_1_l. rewrite <- Zle_Qle. lia.
  - unfold report. cbn [Health.get_health_response Health.metrics_error_count].
    unfold m. rewrite recorded_errors, last_n_length. lia.
  - unfold report. cbn [Health.get_health_response Health.metrics_recent_errors].
    unfold m. rewrite recorded_errors. apply last_n_last_n. lia.
  - unfold report. cbn [Health.get_health_response Health.uptime].
    unfold m. by rewrite recorded_start.
Qed.

(** *** The tool endpoints *)

Lemma get_client_inv sv r sv' :
  HttpServer.get_client sv = (r, sv') ->
  calls (HttpServer.process sv') = calls (HttpServer.process sv) /\
  trace (HttpServer.process sv') = trace (HttpServer.process sv) /\
  clock (HttpServer.process sv') = clock (HttpServer.process sv) /\
  HttpServer._metrics sv' = HttpServer._metrics sv /\
  match r with
  | Ok _ => HttpServer._client sv' = true
  | Raise ex =>
      ex = ValueError "TMDB_API_KEY environment variable is required" /\
      sv' = sv /\ HttpServer._client sv = false /\
      nonempty (HttpServer.environ sv) = None
  end.
Proof.
  unfold HttpServer.get_client, __init__. destruct sv as [env made st m].
  cbn [HttpServer._client HttpServer.environ HttpServer.process HttpServer._metrics].
  destruct made; [by intros [= <- <-]|].
  cbn [nonempty]. destruct (nonempty env) as [k|]; by intros [= <- <-].
Qed.

Lemma missing_key_not_sentinel :
  is_title_not_found (ValueError "TMDB_API_KEY environment variable is required")
  = false.
Proof. reflexivity. Qed.

Lemma get_client_ready sv : HttpServer._client sv = true -> HttpServer.get_client sv = (Ok tt, sv).
Proof. unfold HttpServer.get_client. by intros ->. Qed.

Lemma validate_optional_type_raises v ex :
  Tools.validate_optional_type v = Raise ex ->
  is_ValueError ex = true /\ is_title_not_found ex = false.
Proof.
  unfold Tools.validate_optional_type. destruct (nonempty v) as [t|]; [|discriminate].
  destruct (Tools.is_kind t); [discriminate|]. by intros [= <-].
Qed.

Lemma validate_type_raises v ex :
  Tools.validate_type v = Raise ex ->
  is_ValueError ex = true /\ is_title_not_found ex = false.
Proof.
  unfold Tools.validate_type. destruct (Tools.is_kind v); [discriminate|].
  by intros [= <-].
Qed.

Lemma validate_sort_by_raises v ex :
  Tools.validate_sort_by v = Raise ex ->
  is_ValueError ex = true /\ is_title_not_found ex = false.
Proof.
  unfold Tools.validate_sort_by. destruct (nonempty v) as [t|]; [|discriminate].
  destruct (Tools.is_order t); [discriminate|]. by intros [= <-].
Qed.

Section Endpoint.
Context `{FloatRepr} `{HttpServer.ExnText}.
Context {A : Type}.
Variables (args : result A) (tool : A -> M json).
Variables (tool_name key : string) (not_found : bool).

(** The shape the four endpoints share. *)
Local Abbreviation endpoint sv :=
  (let '(outcome, sv1) := HttpServer.attempt args tool sv in
   HttpServer.finish tool_name key not_found (clock (HttpServer.process sv))
     outcome sv1).

Hypothesis args_raise :
  forall ex, args = Raise ex -> is_ValueError ex = true /\ is_title_not_found ex = false.
Hypothesis tool_raises :
  forall a, raises_only (fun ex => is_ValueError ex = true) (tool a).

Lemma attempt_raises sv ex sv' :
  HttpServer.attempt args tool sv = (Raise ex, sv') -> is_ValueError ex = true.
Proof.
  unfold HttpServer.attempt.
  destruct (HttpServer.get_client sv) as [[[]|ex0] sv1] eqn:G.
  - destruct args as [a|ex1] eqn:Ea.
    + unfold HttpServer.run. destruct (tool a _) as [r st] eqn:R.
      intros [= -> <-]. by eapply tool_raises.
    + intros [= <- <-]. by apply args_raise.
  - intros [= <- <-]. by apply get_client_inv in G as (_ & _ & _ & _ & -> & _).
Qed.

Lemma endpoint_status sv :
  let r := (endpoint sv).1 in
  (answered r = true /\ status_of r = 200%Z) \/
  (answered r = false /\
   (status_of r = 400%Z \/
    status_of r = 404%Z /\ not_found = true /\
    r = HttpServer.HTTPException 404 "TITLE_NOT_FOUND")).
Proof.
  cbv zeta. destruct (HttpServer.attempt args tool sv) as [[out|ex] sv1] eqn:E.
  - left. done.
  - right. apply attempt_raises in E. unfold HttpServer.finish. rewrite E.
    cbn [fst]. destruct not_found; cbn [andb]; [|by auto].
    destruct (is_title_not_found ex); by auto.
Qed.

Lemma endpoint_metrics sv :
  let r := (endpoint sv).1 in
  let sv' := (endpoint sv).2 in
  let latency := (clock (HttpServer.process sv') - clock (HttpServer.process sv))%Q in
  exists tail,
    HttpServer._metrics sv' =
      fold_left apply_record (ToolCall tool_name latency (answered r) :: tail)
        (HttpServer._metrics sv) /\
    if answered r then tail = []
    else exists msg,
        tail = [Error "ValueError" msg (clock (HttpServer.process sv'))].
Proof.
  cbv zeta. destruct (HttpServer.attempt args tool sv) as [[out|ex] sv1] eqn:E.
  - assert (HttpServer._metrics sv1 = HttpServer._metrics sv) as M.
    { unfold HttpServer.attempt in E.
      destruct (HttpServer.get_client sv) as [[[]|ex0] sv0] eqn:G; [|discriminate].
      apply get_client_inv in G as (_ & _ & _ & Gm & _).
      destruct args as [a|]; [|discriminate]. unfold HttpServer.run in E.
      destruct (tool a _) as [r st]. by injection E as _ <-. }
    exists []. cbn [HttpServer.finish fst snd answered HttpServer.with_metrics
                    HttpServer._metrics HttpServer.process fold_left apply_record].
    by rewrite M.
  - assert (HttpServer._metrics sv1 = HttpServer._metrics sv) as M.
    { unfold HttpServer.attempt in E.
      destruct (HttpServer.get_client sv) as [[[]|ex0] sv0] eqn:G.
      - apply get_client_inv in G as (_ & _ & _ & Gm & _).
        destruct args as [a|]; [|by injection E as _ <-]. unfold HttpServer.run in E.
        destruct (tool a _) as [r st]. by injection E as _ <-.
      - apply get_client_inv in G as (_ & _ & _ & Gm & _). by injection E as _ <-. }
    apply attempt_raises in E. unfold HttpServer.finish. rewrite E.
    exists [Error "ValueError" (HttpServer.exn_text ex) (clock (HttpServer.process sv1))].
    cbn [fst snd HttpServer.with_metrics HttpServer._metrics HttpServer.process
         fold_left apply_record].
    rewrite M. split; [|destruct (not_found && is_title_not_found ex); by eexists].
    by destruct (not_found && is_title_not_found ex).
Qed.

Lemma endpoint_rejects sv ex :
  args = Raise ex ->
  let r := (endpoint sv).1 in
  let sv' := (endpoint sv).2 in
  status_of r = 400%Z /\
  calls (HttpServer.process sv') = calls (HttpServer.process sv) /\
  trace (HttpServer.process sv') = trace (HttpServer.process sv) /\
  clock (HttpServer.process sv') = clock (HttpServer.process sv).
Proof.
  intros Ea. cbv zeta. unfold HttpServer.attempt. rewrite Ea.
  destruct (HttpServer.get_client sv) as [[[]|ex0] sv1] eqn:G;
    apply get_client_inv in G as (Gc & Gt & Gk & _ & G).
  - destruct (args_raise ex Ea) as [V N]. unfold HttpServer.finish.
    rewrite V, N, andb_false_r. done.
  - destruct G as (-> & -> & _). unfold HttpServer.finish.
    rewrite missing_key_not_sentinel, andb_false_r. done.
Qed.

Lemma endpoint_without_key sv :
  HttpServer._client sv = false -> nonempty (HttpServer.environ sv) = None ->
  let err := ValueError "TMDB_API_KEY environment variable is required" in
  (endpoint sv).1 = HttpServer.HTTPException 400 (HttpServer.exn_text err) /\
  HttpServer.process (endpoint sv).2 = HttpServer.process sv /\
  HttpServer._client (endpoint sv).2 = false.
Proof.
  intros Nc Ne. cbv zeta. unfold HttpServer.attempt, HttpServer.get_client, __init__.
  rewrite Nc. cbn [nonempty]. rewrite Ne. unfold HttpServer.finish.
  rewrite missing_key_not_sentinel, andb_false_r. done.
Qed.

End Endpoint.

Lemma adapter_error_is_value ex : adapter_error ex -> is_ValueError ex = true.
Proof. intros E. by apply adapter_error_value. Qed.

Lemma discover_error_is_value ex : discover_error ex -> is_ValueError ex = true.
Proof. intros E. by apply discover_error_value. Qed.

Lemma raises_weaken {A} (P Q : exn -> Prop) (c : M A) :
  (forall ex, P ex -> Q ex) -> raises_only P c -> raises_only Q c.
Proof. intros PQ Hc st ex st' E. apply PQ. by eapply Hc. Qed.

Lemma discover_args_raise ty sb ex :
  rbind (Tools.validate_type ty) (fun type =>
  rbind (Tools.validate_sort_by sb) (fun sort_by => Ok (type, sort_by))) = Raise ex ->
  is_ValueError ex = true /\ is_title_not_found ex = false.
Proof.
  destruct (Tools.validate_type ty) as [t|ex1] eqn:Et; cbn [rbind].
  - destruct (Tools.validate_sort_by sb) as [s|ex2] eqn:Es; cbn [rbind]; [discriminate|].
    intros [= <-]. by eapply validate_sort_by_raises.
  - intros [= <-]. by eapply validate_type_raises.
Qed.

(** The four routes, each with the facts about its argument model and
    its adapter that the shared lemmas ask for. *)
Ltac routes T c sv :=
  destruct c as [q ty y l | id ty | id ty | ty g y l sb];
  cbv zeta; cbn [serve tool_of accepted];
  [ unfold HttpServer.tool_search_title;
    pose proof (validate_optional_type_raises ty) as Ha;
    pose proof (fun a => raises_weaken _ _ _ adapter_error_is_value
                           (raises_tool_search T q a y l)) as Ht
  | unfold HttpServer.tool_get_recommendations;
    pose proof (validate_type_raises ty) as Ha;
    pose proof (fun a => raises_weaken _ _ _ adapter_error_is_value
                           (raises_tool_recommendations T id a)) as Ht
  | unfold HttpServer.tool_get_details;
    pose proof (validate_type_raises ty) as Ha;
    pose proof (fun a => raises_weaken _ _ _ adapter_error_is_value
                           (raises_tool_details T id a)) as Ht
  | unfold HttpServer.tool_discover;
    pose proof (discover_args_raise ty sb) as Ha;
    pose proof (fun a : string * option string =>
                  raises_weaken _ _ _ discover_error_is_value
                    (raises_tool_discover T a.1 g y l a.2)) as Ht ].

(** X19. Whatever the provider answers and whatever the request holds, a
    tool endpoint either returns its answer or raises an [HTTPException]
    with status 400 or 404, the latter only with detail
    [TITLE_NOT_FOUND] and never from [/tools/discover]: the 429 and the
    500 branches of the handlers are never taken. *)
Theorem endpoint_status_codes `{FloatRepr} `{HttpServer.ExnText} (T : Transport)
    (c : call) (sv : HttpServer.Server) :
  let r := (serve T c sv).1 in
  (answered r = true /\ status_of r = 200%Z) \/
  (answered r = false /\
   (status_of r = 400%Z \/
    status_of r = 404%Z /\ tool_of c <> "discover" /\
    r = HttpServer.HTTPException 404 "TITLE_NOT_FOUND")).
Proof.
  routes T c sv.
  all: match goal with
       | |- context [HttpServer.finish ?n ?k ?nf] =>
           destruct (endpoint_status _ _ n k nf Ha Ht sv)
             as [L | (Nr & [S | (S & Nf & E)])]
       end;
    [by left | by right; split; [|left] | ].
  all: try discriminate Nf.
  all: right; split; [done|]; right; done.
Qed.

(** X20. A request the argument model of its route does not accept (a
    [type] other than [movie] and [tv], a [sort_by] other than
    [popularity] and [vote_average]) is answered 400 without any
    transport call, sleep or admission. *)
Theorem invalid_request_rejected `{FloatRepr} `{HttpServer.ExnText} (T : Transport)
    (c : call) (sv : HttpServer.Server) :
  accepted c = false ->
  let r := (serve T c sv).1 in
  let sv' := (serve T c sv).2 in
  status_of r = 400%Z /\
  calls (HttpServer.process sv') = calls (HttpServer.process sv) /\
  trace (HttpServer.process sv') = trace (HttpServer.process sv) /\
  clock (HttpServer.process sv') = clock (HttpServer.process sv).
Proof.
  routes T c sv; intros Rej.
  - assert (exists ex, Tools.validate_optional_type ty = Raise ex) as [ex E].
    { destruct (Tools.validate_optional_type ty); [discriminate | by eexists]. }
    exact (endpoint_rejects _ _ _ _ _ Ha sv ex E).
  - assert (Tools.validate_type ty = Raise (ValueError "type must be 'movie' or 'tv'"))
      as E by (unfold Tools.validate_type; by rewrite Rej).
    exact (endpoint_rejects _ _ _ _ _ Ha sv _ E).
  - assert (Tools.validate_type ty = Raise (ValueError "type must be 'movie' or 'tv'"))
      as E by (unfold Tools.validate_type; by rewrite Rej).
    exact (endpoint_rejects _ _ _ _ _ Ha sv _ E).
  - assert (exists ex,
              rbind (Tools.validate_type ty) (fun type =>
              rbind (Tools.validate_sort_by sb) (fun sort_by => Ok (type, sort_by)))
              = Raise ex) as [ex E].
    { unfold Tools.validate_type. destruct (Tools.is_kind ty); [|by eexists].
      cbn [rbind andb] in *.
      destruct (Tools.validate_sort_by sb); [discriminate | by eexists]. }
    exact (endpoint_rejects _ _ _ _ _ Ha sv ex E).
Qed.

Lemma invalid_request_rejected_witness :
  let c := GetDetails 550 "book" in
  let sv := booted "K" 0 in
  let out := @serve sample_float_repr sample_exn_text
               (always (Response 200 None (Some JNull))) c sv in
  status_of out.1 = 400%Z /\
  calls (HttpServer.process out.2) = calls (HttpServer.process sv).
Proof.
  intros c sv out.
  destruct (@invalid_request_rejected sample_float_repr sample_exn_text
              (always (Response 200 None (Some JNull))) c sv eq_refl)
    as (S & C & _).
  exact (conj S C).
Defined.

(** X21. While no client exists and [TMDB_API_KEY] is unset or empty,
    every tool endpoint answers 400 with the text of the constructor's
    [ValueError], touches neither the network nor the clock, and leaves
    the global client unset, so the next request tries again. *)
Theorem missing_key_rejected `{FloatRepr} `{HttpServer.ExnText} (T : Transport)
    (c : call) (sv : HttpServer.Server) :
  HttpServer._client sv = false ->
  nonempty (HttpServer.environ sv) = None ->
  let err := ValueError "TMDB_API_KEY environment variable is required" in
  (serve T c sv).1 = HttpServer.HTTPException 400 (HttpServer.exn_text err) /\
  HttpServer.process (serve T c sv).2 = HttpServer.process sv /\
  HttpServer._client (serve T c sv).2 = false.
Proof.
  intros Nc Ne. routes T c sv.
  all: exact (endpoint_without_key _ _ _ _ _ sv Nc Ne).
Qed.

Lemma missing_key_rejected_witness :
  let sv := HttpServer.mkServer (Some "") false (fresh "" 0)
              (Health.mkMetrics [] [] 0) in
  let out := @serve sample_float_repr sample_exn_text
               (always (Response 200 None (Some JNull)))
               (SearchTitle "heat" None None None) sv in
  out.1 = HttpServer.HTTPException 400
            "TMDB_API_KEY environment variable is required" /\
  HttpServer.process out.2 = HttpServer.process sv /\
  HttpServer._client out.2 = false.
Proof.
  intros sv out.
  exact (@missing_key_rejected sample_float_repr sample_exn_text
           (always (Response 200 None (Some JNull)))
           (SearchTitle "heat" None None None) sv eq_refl eq_refl).
Defined.

(** X22. Every request to a tool endpoint is counted exactly once under
    the name of its tool, as a success when the endpoint answers and as
    a failure when it raises, with the time the handler took as its
    latency; a failure also logs exactly one error, of type
    [ValueError], stamped with the current time, and a success logs
    none. *)
Theorem endpoint_call_recorded `{FloatRepr} `{HttpServer.ExnText} (T : Transport)
    (c : call) (sv : HttpServer.Server) :
  let r := (serve T c sv).1 in
  let sv' := (serve T c sv).2 in
  let latency := (clock (HttpServer.process sv') - clock (HttpServer.process sv))%Q in
  exists tail,
    HttpServer._metrics sv' =
      fold_left apply_record (ToolCall (tool_of c) latency (answered r) :: tail)
        (HttpServer._metrics sv) /\
    if answered r then tail = []
    else exists msg,
        tail = [Error "ValueError" msg (clock (HttpServer.process sv'))].
Proof.
  routes T c sv.
  all: exact (endpoint_metrics _ _ _ _ _ Ha Ht sv).
Qed.

(** *** A provider that keeps answering 429 *)

Section Throttled.
Context `{FloatRepr} `{HttpServer.ExnText}.
Variable T : Transport.
Hypothesis throttled :
  forall n req, exists elapsed hdr body delay,
    T n req = (elapsed, Response 429 hdr body) /\
    retry_delay hdr INITIAL_BACKOFF = Ok delay.

Lemma request_throttled m e popt st :
  _cache st = ∅ ->
  exists st3, _request T m e popt true st = (Ok JNull, st3) /\
              calls st3 = (calls st + 3)%nat.
Proof.
  intros Em. rewrite request_miss.
  2:{ right. unfold cache_lookup. by rewrite Em, lookup_empty. }
  cbn [seq MAX_RETRIES attempts]. unfold mbind, M_bind, bind.
  set (p := with_api_key popt st). set (req := mkRequest m e p).
  destruct (throttled (calls st) req) as (l1 & h1 & b1 & d1 & R1 & D1).
  rewrite (turn_429 _ _ _ _ _ _ _ _ _ _ _ _ _ R1 D1). fold req.
  set (st1 := slept _ _).
  destruct (throttled (calls st1) req) as (l2 & h2 & b2 & d2 & R2 & D2).
  rewrite (turn_429 _ _ _ _ _ _ _ _ _ _ _ _ _ R2 D2). fold req.
  set (st2 := slept _ _).
  destruct (throttled (calls st2) req) as (l3 & h3 & b3 & d3 & R3 & D3).
  rewrite (turn_429 _ _ _ _ _ _ _ _ _ _ _ _ _ R3 D3). fold req.
  eexists. split; [reflexivity|].
  unfold st2, st1. autorewrite with steps. lia.
Qed.

Lemma adapter_throttled (c : call) st :
  _cache st = ∅ ->
  exists st3,
    calls st3 = (calls st + 3)%nat /\
    match c with
    | SearchTitle q ty y l => Tools.search_title T q ty y l st
    | GetRecommendations id ty => Tools.get_recommendations T id ty st
    | GetDetails id ty => Tools.get_details T id ty st
    | Discover ty g y l sb => Tools.discover T ty g y l sb st
    end = (Raise (ApiError AttributeError), st3).
Proof.
  intros Em. destruct c as [q ty y l | id ty | id ty | ty g y l sb].
  - unfold Tools.search_title, ApiClient.search_title.
    match goal with
    | |- context [_request T ?m ?e ?p true] =>
        destruct (request_throttled m e p st Em) as (st3 & R & C)
    end.
    exists st3. split; [exact C|].
    rewrite (catch_raise _ _ st AttributeError st3); [reflexivity|]. apply bind_raise.
    erewrite bind_ok by exact R. reflexivity.
  - unfold Tools.get_recommendations, ApiClient.get_details.
    match goal with
    | |- context [_request T ?m ?e ?p true] =>
        destruct (request_throttled m e p st Em) as (st3 & R & C)
    end.
    exists st3. split; [exact C|].
    rewrite (catch_raise _ _ st AttributeError st3); [reflexivity|].
    erewrite bind_ok by exact R. reflexivity.
  - unfold Tools.get_details, ApiClient.get_details.
    match goal with
    | |- context [_request T ?m ?e ?p true] =>
        destruct (request_throttled m e p st Em) as (st3 & R & C)
    end.
    exists st3. split; [exact C|].
    rewrite (catch_raise _ _ st AttributeError st3); [reflexivity|].
    erewrite bind_ok by exact R. reflexivity.
  - unfold Tools.discover, ApiClient.discover.
    destruct g as [[|name names]|].
    + destruct (request_throttled "GET" ("/discover/" +:+ ty)
                  (Some (discover_params ty [] y l sb)) st Em) as (st3 & R & C).
      exists st3. split; [exact C|].
      rewrite (catch_raise _ _ st AttributeError st3); [reflexivity|].
      apply bind_raise. unfold mbind at 1, M_bind, bind, ret. cbv beta iota.
      erewrite bind_ok by exact R. reflexivity.
    + destruct (request_throttled "GET" ("/genre/" +:+ ty +:+ "/list") None st Em)
        as (st3 & R & C).
      exists st3. split; [exact C|].
      rewrite (catch_raise _ _ st AttributeError st3); [reflexivity|].
      apply bind_raise. apply bind_raise.
      unfold _get_genre_ids. erewrite bind_ok by exact R. reflexivity.
    + destruct (request_throttled "GET" ("/discover/" +:+ ty)
                  (Some (discover_params ty [] y l sb)) st Em) as (st3 & R & C).
      exists st3. split; [exact C|].
      rewrite (catch_raise _ _ st AttributeError st3); [reflexivity|].
      apply bind_raise. unfold mbind at 1, M_bind, bind, ret. cbv beta iota.
      erewrite bind_ok by exact R. reflexivity.
Qed.

End Throttled.

(** X23. When the provider answers 429 to every attempt, with no
    [Retry-After] header or one that [int()] accepts and that is at most
    308 characters long (so that the delay is one [asyncio.sleep]
    accepts), a valid request to any tool endpoint of a process whose
    client exists and has an empty cache is answered 400, not 429, after
    three transport calls: the dispatch returns [None], reading it
    raises [AttributeError], the adapter wraps that as [API error: ...]
    and the handler takes its [ValueError] branch. *)
Theorem throttled_provider_answers_400 `{FloatRepr} `{HttpServer.ExnText}
    (T : Transport) (c : call) (sv : HttpServer.Server) :
  (forall n req, exists elapsed hdr body delay,
      T n req = (elapsed, Response 429 hdr body) /\
      modest hdr /\
      retry_delay hdr INITIAL_BACKOFF = Ok delay) ->
  accepted c = true ->
  HttpServer._client sv = true ->
  _cache (HttpServer.process sv) = ∅ ->
  (serve T c sv).1 =
    HttpServer.HTTPException 400 (HttpServer.exn_text (ApiError AttributeError)) /\
  calls (HttpServer.process (serve T c sv).2) =
    (calls (HttpServer.process sv) + 3)%nat.
Proof.
  intros Th' Acc Cl Em.
  assert (forall n req, exists elapsed hdr body delay,
             T n req = (elapsed, Response 429 hdr body) /\
             retry_delay hdr INITIAL_BACKOFF = Ok delay) as Th.
  { intros n req. destruct (Th' n req) as (el & h & b & d & R & _ & D).
    by exists el, h, b, d. }
  destruct (adapter_throttled T Th c (HttpServer.process sv) Em) as (st3 & C & R).
  destruct c as [q ty y l | id ty | id ty | ty g y l sb];
    cbn [serve accepted] in *.
  - unfold HttpServer.tool_search_title, HttpServer.attempt.
    rewrite (get_client_ready sv Cl).
    destruct (Tools.validate_optional_type ty) as [v|] eqn:V; [|discriminate].
    assert (v = ty) as ->.
    { unfold Tools.validate_optional_type in V. destruct (nonempty ty); [|congruence].
      destruct (Tools.is_kind s); congruence. }
    unfold HttpServer.run. rewrite R. unfold HttpServer.finish. done.
  - unfold HttpServer.tool_get_recommendations, HttpServer.attempt, Tools.validate_type.
    rewrite (get_client_ready sv Cl), Acc.
    unfold HttpServer.run. rewrite R. unfold HttpServer.finish. done.
  - unfold HttpServer.tool_get_details, HttpServer.attempt, Tools.validate_type.
    rewrite (get_client_ready sv Cl), Acc.
    unfold HttpServer.run. rewrite R. unfold HttpServer.finish. done.
  - unfold HttpServer.tool_discover, HttpServer.attempt, Tools.validate_type.
    rewrite (get_client_ready sv Cl).
    apply andb_prop in Acc as [K S]. rewrite K. cbn [rbind].
    destruct (Tools.validate_sort_by sb) as [v|] eqn:V; [|discriminate].
    assert (v = sb) as ->.
    { unfold Tools.validate_sort_by in V. destruct (nonempty sb); [|congruence].
      destruct (Tools.is_order s); congruence. }
    cbn [rbind fst snd]. unfold HttpServer.run. rewrite R.
    unfold HttpServer.finish. done.
Qed.

Lemma throttled_provider_answers_400_witness :
  let T := always (Response 429 (Some "2") None) in
  let sv := HttpServer.mkServer (Some "K") true (fresh "K" 0)
              (Health.mkMetrics [] [] 0) in
  let out := @serve sample_float_repr sample_exn_text T (GetDetails 550 "movie") sv in
  out.1 = HttpServer.HTTPException 400 "error" /\
  calls (HttpServer.process out.2) = 3%nat.
Proof.
  intros T sv out.
  refine (@throttled_provider_answers_400 sample_float_repr sample_exn_text T
            (GetDetails 550 "movie") sv _ eq_refl eq_refl eq_refl).
  intros n req. exists 0%Q, (Some "2"), None, 2%Z.
  split; [reflexivity|]. split; [simpl; lia | reflexivity].
Defined.

(** *** The cost of a tool call *)

Lemma costs_bind {A B} n1 n2 (c : M A) (k : A -> M B) :
  costs n1 c -> (forall a, costs n2 (k a)) -> costs (n1 + n2) (x ← c; k x).
Proof.
  intros Hc Hk st r st'. unfold mbind, M_bind, bind.
  destruct (c st) as [[a|ex] st1] eqn:E; apply Hc in E.
  - intros K. apply Hk in K. lia.
  - intros [= <- <-]. lia.
Qed.

Lemma costs_lift {A} (r : result A) : costs 0 (lift r).
Proof. intros st r' st' [= <- <-]. lia. Qed.

Lemma costs_ret {A} (a : A) : costs 0 (ret a).
Proof. intros st r' st' [= <- <-]. lia. Qed.

Lemma costs_catch {A} n (c : M A) (f : exn -> exn) :
  costs n c -> costs n (catch c (fun e => raise (f e))).
Proof.
  intros Hc st r st'. unfold catch, raise.
  destruct (c st) as [[a|ex] st1] eqn:E; apply Hc in E; intros [= <- <-]; lia.
Qed.

Lemma costs_more {A} n n' (c : M A) : (n <= n')%nat -> costs n c -> costs n' c.
Proof. intros L Hc st r st' E. apply Hc in E. lia. Qed.

Lemma costs_request T m e popt uc : costs MAX_RETRIES (_request T m e popt uc).
Proof.
  intros st r st'. unfold _request.
  destruct (if uc then cache_lookup _ st else None).
  - intros [= <- <-]. lia.
  - intros E. apply attempts_calls in E as [B _]. by rewrite length_seq in B.
Qed.

Lemma costs_genre_ids T ty names : costs MAX_RETRIES (_get_genre_ids T ty names).
Proof.
  unfold _get_genre_ids.
  apply (costs_bind 3 0); [apply costs_request|]. intros data.
  apply (costs_bind 0 0); [apply costs_lift|]. intros listed.
  apply (costs_bind 0 0); [apply costs_lift|]. intros entries. apply costs_ret.
Qed.

(** X24. A tool call has a bounded cost, whatever the provider answers:
    [search_title] and [get_details] make one dispatch and so at most 3
    transport calls; [get_recommendations] (details, then
    recommendations) and [discover] (genre list, then discover) make at
    most two dispatches and so at most 6. *)
Theorem tool_call_budget `{FloatRepr} (T : Transport) :
  (forall q ty y l, costs 3 (Tools.search_title T q ty y l)) /\
  (forall id ty, costs 3 (Tools.get_details T id ty)) /\
  (forall id ty, costs 6 (Tools.get_recommendations T id ty)) /\
  (forall ty g y l sb, costs 6 (Tools.discover T ty g y l sb)).
Proof.
  split; [|split; [|split]].
  - intros q ty y l. unfold Tools.search_title, ApiClient.search_title.
    apply costs_catch. apply (costs_bind 3 0); [|intros; apply costs_lift].
    apply (costs_bind 3 0); [apply costs_request | intros; apply costs_lift].
  - intros id ty. unfold Tools.get_details, ApiClient.get_details.
    apply costs_catch. apply (costs_bind 3 0); [apply costs_request|].
    intros; apply costs_lift.
  - intros id ty. unfold Tools.get_recommendations, ApiClient.get_details,
      ApiClient.get_recommendations.
    apply costs_catch. apply (costs_bind 3 3); [apply costs_request|]. intros details.
    apply (costs_bind 0 3); [apply costs_lift|]. intros title.
    apply (costs_bind 0 3); [apply costs_lift|]. intros _.
    apply (costs_bind 3 0); [|intros; apply costs_lift].
    apply (costs_bind 3 0); [apply costs_request | intros; apply costs_lift].
  - intros ty g y l sb. unfold Tools.discover, ApiClient.discover.
    apply costs_catch. apply (costs_bind 6 0); [|intros; apply costs_lift].
    apply (costs_bind 3 3).
    + destruct g as [[|name names]|];
        [apply (costs_more 0); [lia | apply costs_ret] | apply costs_genre_ids
         | apply (costs_more 0); [lia | apply costs_ret]].
    + intros ids. apply (costs_bind 3 0); [apply costs_request|].
      intros; apply costs_lift.
Qed.

Lemma tool_call_budget_witness :
  let T := always Failure in
  let st := fresh "K" 0 in
  let out := @Tools.get_recommendations sample_float_repr T 550 "movie" st in
  (calls st <= calls out.2 <= calls st + 6)%nat.
Proof.
  intros T st out.
  destruct (@tool_call_budget sample_float_repr T) as (_ & _ & R & _).
  exact (R 550%Z "movie" st out.1 out.2 (surjective_pairing _)).
Defined.

